(** * mongo-table: the table abstraction of [src/table.js], embedded in Rocq

    The development follows the source file top to bottom:

    - [JS]     the JavaScript values the module manipulates (objects are
               ordered field lists, as in BSON), truthiness, [||], object
               spread and computed keys;
    - [Eff]    a small program monad for the module's effects: calls on the
               database handle and on collection handles, [console.log],
               thrown exceptions / rejected promises;
    - [Table]  the provisioning sequence and the operation surface, one
               definition per source function, with the source's names;
    - [Mongo]  an executable in-memory model of the part of the MongoDB
               Node driver contract the table relies on;
    - the properties of the specification, stated over these definitions. *)

From Stdlib Require Import ZArith List String Ascii Bool Lia Sorted Permutation.
Import ListNotations.

Set Warnings "-register-all".

Local Open Scope string_scope.
Local Open Scope Z_scope.
Local Open Scope list_scope.

(* ================================================================== *)
(** * JavaScript values *)
(* ================================================================== *)

Module JS.

(** The values that flow through [table.js].  Numbers are the integers
    (identifiers, timestamps and pagination bounds are integral); an object
    is its list of own properties in insertion order; [VHandle c] is a
    driver collection object bound to the collection named [c], the only
    value that has methods. *)
Inductive value : Type :=
| VUndefined
| VNull
| VBool (b : bool)
| VNum (n : Z)
| VStr (s : string)
| VArr (items : list value)
| VObj (fields : list (string * value))
| VHandle (name : string).

Definition obj := list (string * value).

(** Exceptions: [assert] failures, the runtime's [TypeError], and errors
    reported by the driver (the server's error code, 0 for an error the
    driver raises itself, and the message). *)
Inductive exn : Type :=
| AssertionError (msg : string)
| TypeError (msg : string)
| MongoError (code : Z) (msg : string).

(** [err.message] *)
Definition message (e : exn) : string :=
  match e with
  | AssertionError m => m
  | TypeError m => m
  | MongoError _ m => m
  end.

(** ToBoolean *)
Definition truthy (v : value) : bool :=
  match v with
  | VUndefined | VNull => false
  | VBool b => b
  | VNum n => negb (n =? 0)
  | VStr s => negb (String.eqb s EmptyString)
  | VArr _ | VObj _ | VHandle _ => true
  end.

(** [a || b] *)
Definition or_else (a b : value) : value := if truthy a then a else b.

(** A parameter default [x = d] applies when the argument is [undefined]. *)
Definition default_arg (x d : value) : value :=
  match x with VUndefined => d | _ => x end.

(** [o[k]] on an object's field list. *)
Fixpoint lookup (k : string) (o : obj) : option value :=
  match o with
  | [] => None
  | (k', v) :: o' => if String.eqb k k' then Some v else lookup k o'
  end.

(** The property [k] of [o] is given the value [v]: an existing property
    keeps its position, a new one is appended, which is its place in the
    enumeration unless its name is an array index. *)
Fixpoint obj_set (k : string) (v : value) (o : obj) : obj :=
  match o with
  | [] => [(k, v)]
  | (k', v') :: o' =>
      if String.eqb k k' then (k, v) :: o' else (k', v') :: obj_set k v o'
  end.

Fixpoint obj_remove (k : string) (o : obj) : obj :=
  match o with
  | [] => []
  | (k', v') :: o' =>
      if String.eqb k k' then obj_remove k o' else (k', v') :: obj_remove k o'
  end.

(** An array index: the canonical decimal form of an integer below
    [2^32 - 1].  Whatever the order of insertion, the own properties of an
    object whose names are array indexes are enumerated first, in ascending
    order; the others follow in insertion order. *)
Definition digit (a : ascii) : option N :=
  let n := N_of_ascii a in
  if ((48 <=? n) && (n <=? 57))%N then Some (n - 48)%N else None.

Fixpoint digits (k : string) (acc : N) : option N :=
  match k with
  | EmptyString => Some acc
  | String a k' =>
      match digit a with
      | Some d => digits k' (10 * acc + d)%N
      | None => None
      end
  end.

Definition array_index (k : string) : option N :=
  match k with
  | EmptyString => None
  | String a k' =>
      if Ascii.eqb a "0"%char && negb (String.eqb k' "") then None
      else match digits k 0%N with
           | Some n => if (n <? 4294967295)%N then Some n else None
           | None => None
           end
  end.

Definition is_array_index (k : string) : bool :=
  match array_index k with Some _ => true | None => false end.

(** A new property named by the array index [n] takes its place among the
    leading array indexes. *)
Fixpoint insert_index (n : N) (k : string) (v : value) (o : obj) : obj :=
  match o with
  | [] => [(k, v)]
  | (k', v') :: o' =>
      match array_index k' with
      | Some m =>
          if (m <? n)%N then (k', v') :: insert_index n k v o' else (k, v) :: o
      | None => (k, v) :: o
      end
  end.

(** [o[k] = v] on an object created by [{}], with its own properties in
    enumeration order.  Assigning to [__proto__] goes to the accessor
    inherited from [Object.prototype] and adds no own property. *)
Definition own_set (k : string) (v : value) (o : obj) : obj :=
  if String.eqb k "__proto__" then o
  else match lookup k o, array_index k with
       | None, Some n => insert_index n k v o
       | _, _ => obj_set k v o
       end.

(** The own enumerable properties copied by [...v] inside an object
    literal: those of an object; nothing for [undefined], [null], numbers
    and booleans.  (Arrays and strings, which spread into index keys, are
    not passed as documents or filters.) *)
Definition own_props (v : value) : obj :=
  match v with
  | VObj o => o
  | _ => []
  end.

(** [{...a, ...b}] once [a] has been copied: the properties of [b] are
    assigned from left to right. *)
Definition assign (target source : obj) : obj :=
  fold_left (fun acc kv => obj_set (fst kv) (snd kv) acc) source target.

(** [v.k]: reading a property of [undefined] or [null] throws. *)
Definition prop (v : value) (k : string) : exn + value :=
  match v with
  | VUndefined | VNull =>
      inl (TypeError ("Cannot read properties of undefined or null: " ++ k))
  | VObj o => inr (match lookup k o with Some x => x | None => VUndefined end)
  | _ => inr VUndefined
  end.

(** [Array.isArray(v)] *)
Definition isArray (v : value) : bool :=
  match v with VArr _ => true | _ => false end.

End JS.
Export JS.

(* ================================================================== *)
(** * Effects *)
(* ================================================================== *)

Module Eff.

(** The calls [table.js] makes on its collaborators, with the arguments it
    passes.  [CreateCollection] and [Collection] are methods of the database
    handle [db]; the others are methods of a collection handle, identified by
    the collection's name.  [Find] stands for [find(filter, opts).toArray()]. *)
Inductive call : Type :=
| CreateCollection (name : value) (opts : value)
| Collection (name : value)
| CreateIndex (col : string) (keys : value) (opts : value)
| FindOne (col : string) (filter : value) (opts : value)
| Find (col : string) (filter : value) (opts : value)
| ReplaceOne (col : string) (filter : value) (replacement : value) (opts : value)
| FindOneAndUpdate (col : string) (filter : value) (update : value) (opts : value)
| DeleteOne (col : string) (filter : value)
| DeleteMany (col : string) (filter : value)
| UpdateOne (col : string) (filter : value) (update : value).

(** What a call comes back with: the promise resolves with a value or
    rejects with an error. *)
Inductive response : Type :=
| Resolved (v : value)
| Rejected (e : exn).

(** Programs: return, throw (a rejected promise for an [async] function),
    perform a call and continue with its response, write a line to the
    console. *)
Inductive prog (A : Type) : Type :=
| Ret (a : A)
| Throw (e : exn)
| Call (c : call) (k : response -> prog A)
| Log (line : string) (k : prog A).

Arguments Ret {A} a.
Arguments Throw {A} e.
Arguments Call {A} c k.
Arguments Log {A} line k.

Fixpoint bind {A B : Type} (p : prog A) (f : A -> prog B) : prog B :=
  match p with
  | Ret a => f a
  | Throw e => Throw e
  | Call c k => Call c (fun r => bind (k r) f)
  | Log l k => Log l (bind k f)
  end.

Declare Scope prog_scope.
Delimit Scope prog_scope with prog.
Notation "x <- p ;; q" := (bind p (fun x => q))
  (at level 61, p at next level, right associativity) : prog_scope.
Notation "p ;; q" := (bind p (fun _ => q))
  (at level 61, right associativity) : prog_scope.
Local Open Scope prog_scope.

(** [await promise]: the resolved value, or the rejection rethrown. *)
Definition await (c : call) : prog value :=
  Call c (fun r => match r with Resolved v => Ret v | Rejected e => Throw e end).

(** [assert(v, msg)] *)
Definition assert (v : value) (msg : string) : prog unit :=
  if truthy v then Ret tt else Throw (AssertionError msg).

(** A property read inside a program. *)
Definition read (v : value) (k : string) : prog value :=
  match prop v k with inl e => Throw e | inr x => Ret x end.

(** [receiver.method(...)]: only a collection handle has the driver's
    methods; on any other value the call is a [TypeError]. *)
Definition method (receiver : value) (m : string -> call) : prog value :=
  match receiver with
  | VHandle c => await (m c)
  | VUndefined | VNull =>
      Throw (TypeError "Cannot read properties of undefined or null")
  | _ => Throw (TypeError "is not a function")
  end.

(** Bluebird's [Promise.mapSeries]: the mapper runs on one item at a time,
    and the next item is started once the previous promise has resolved. *)
Fixpoint mapSeries {A : Type} (f : A -> prog value) (l : list A)
  : prog (list value) :=
  match l with
  | [] => Ret []
  | x :: l' => v <- f x ;; vs <- mapSeries f l' ;; Ret (v :: vs)
  end.

(** ** Running a program against an environment

    The environment answers each call from its current state. *)
Definition handler (S : Type) : Type := call -> S -> response * S.

Inductive outcome (A : Type) : Type :=
| Returned (a : A)
| Thrown (e : exn).
Arguments Returned {A} a.
Arguments Thrown {A} e.

Record result (S A : Type) : Type := mkResult {
  res : outcome A;        (* how the program ended *)
  final : S;              (* the environment afterwards *)
  calls : list call;      (* the calls issued, oldest first *)
  console : list string   (* the lines logged, oldest first *)
}.
Arguments mkResult {S A}.
Arguments res {S A}.
Arguments final {S A}.
Arguments calls {S A}.
Arguments console {S A}.

Definition issued {S A} (c : call) (r : result S A) : result S A :=
  mkResult (res r) (final r) (c :: calls r) (console r).

Definition logged {S A} (l : string) (r : result S A) : result S A :=
  mkResult (res r) (final r) (calls r) (l :: console r).

Fixpoint run {S A : Type} (h : handler S) (p : prog A) (s : S) : result S A :=
  match p with
  | Ret a => mkResult (Returned a) s [] []
  | Throw e => mkResult (Thrown e) s [] []
  | Call c k => issued c (run h (k (fst (h c s))) (snd (h c s)))
  | Log l k => logged l (run h k s)
  end.

End Eff.
Export Eff.
Local Open Scope prog_scope.

(* ================================================================== *)
(** * The table module *)
(* ================================================================== *)

(** The schema after destructuring (lines 6-14): [indices], [compound],
    [text] and [ttl] with their [[]] defaults applied, [options] the rest
    properties.  A [ttl] entry is the pair [[index, options]]. *)
Record schema : Type := mkSchema {
  name : value;
  table : value;
  indices : list string;
  compound : list (list string);
  text : list string;
  ttl : list (string * value);
  options : obj
}.

Module Table.

(** *** Provisioning (lines 16-84) *)

Definition createCollection (name opts : value) : prog value :=
  Call (CreateCollection name opts) (fun r =>
    match r with
    | Resolved v => Ret v
    | Rejected err =>
        Log ("createCollection.error: " ++ message err) (Ret VUndefined)
    end).

Definition createIndex (collection : value) (name : string) (type : value)
  : prog value :=
  method collection (fun c => CreateIndex c (VObj [(name, type)]) VUndefined).

Definition createTtlIndex (collection : value) (name : string) (options : value)
  : prog value :=
  let options := default_arg options (VObj []) in
  assert options "requires ttl options" ;;
  e <- read options "expireAfterSeconds" ;;
  assert e "requires ttl option: expireAfterSeconds" ;;
  method collection (fun c => CreateIndex c (VObj [(name, VNum 1)]) options).

Definition createTtlIndexes (collection : value) (indexes : list (string * value))
  : prog (list value) :=
  mapSeries (fun io => createTtlIndex collection (fst io) (snd io)) indexes.

Definition createIndexes (collection : value) (indexes : list string)
  : prog (list value) :=
  mapSeries (fun index => createIndex collection index (VNum 1)) indexes.

Definition createCompoundIndex (collection : value) (fields : list string)
  : prog value :=
  let config := fold_left (fun result name => own_set name (VNum 1) result)
                          fields [] in
  method collection (fun c => CreateIndex c (VObj config) VUndefined).

Definition createCompoundIndexes (collection : value) (indexes : list (list string))
  : prog (list value) :=
  mapSeries (fun index => createCompoundIndex collection index) indexes.

Definition createTextSearchIndexes (collection : value) (indexes : list string)
  : prog (list value) :=
  mapSeries (fun index => createIndex collection index (VStr "text")) indexes.

(** What the operations close over: [col], and the schema's [table]
    property, which [push] and [pull] use as their receiver. *)
Record bound : Type := mkBound {
  col : value;
  tbl : value
}.

(** Lines 80-84 and the returned operation record. *)
Definition provisionIndexes (sc : schema) : prog bound :=
  col <- await (Collection (or_else (name sc) (table sc))) ;;
  createIndexes col (indices sc) ;;
  createCompoundIndexes col (compound sc) ;;
  createTextSearchIndexes col (text sc) ;;
  createTtlIndexes col (ttl sc) ;;
  Ret (mkBound col (table sc)).

(** The module's exported function, lines 79-84. *)
Definition provision (sc : schema) : prog bound :=
  createCollection (or_else (name sc) (table sc)) (VObj (options sc)) ;;
  provisionIndexes sc.

(** *** The operation surface (lines 86-279) *)

Section Operations.

Variable t : bound.

Definition by_id (id : value) : value := VObj [("_id", id)].

Definition get (id : value) : prog value :=
  assert id "requires id" ;;
  method (col t) (fun c => FindOne c (by_id id) VUndefined).

Definition getAll (ids : value) : prog value :=
  let ids := default_arg ids (VArr []) in
  method (col t) (fun c =>
    Find c (VObj [("_id", VObj [("$in", ids)])]) VUndefined).

Definition getBy (index : string) (id options : value) : prog value :=
  method (col t) (fun c => Find c (VObj [(index, id)]) options).

Definition has (id : value) : prog value :=
  result <- method (col t) (fun c =>
    FindOne c (by_id id)
            (VObj [("projection", VObj [("_id", VNum 1)])])) ;;
  Ret (VBool (if truthy result then true else false)).

Definition set (id props opts : value) : prog value :=
  let opts := default_arg opts (VObj [("upsert", VBool true)]) in
  _id <- (if truthy id then Ret id else read props "id") ;;
  let query := [("_id", _id)] in
  method (col t) (fun c => ReplaceOne c (VObj query) props opts) ;;
  Ret (VObj (assign (assign [] query) (own_props props))).

Definition upsert (props opts : value) : prog value :=
  set VUndefined props opts.

Definition update (id props opts : value) : prog value :=
  let opts := default_arg opts (VObj [("upsert", VBool true)]) in
  assert id "requires id" ;;
  row <- method (col t) (fun c =>
    FindOneAndUpdate c (by_id id) (VObj [("$set", props)])
      (VObj (obj_set "returnNewDocument" (VBool true)
                     (assign [] (own_props opts))))) ;;
  read row "value".

Definition del (id : value) : prog value :=
  method (col t) (fun c => DeleteOne c (by_id id)) ;;
  Ret (VObj [("_id", id); ("id", id)]).

Definition deleteAll (ids : value) : prog value :=
  let ids := default_arg ids (VArr []) in
  method (col t) (fun c =>
    DeleteMany c (VObj [("_id", VObj [("$all", ids)])])).

Definition drop (query : value) : prog value :=
  let query := default_arg query (VObj []) in
  method (col t) (fun c => DeleteMany c query).

(** [now] is the value of [Date.now()] at the call.  The numeric arguments
    are numbers, [None] standing for an omitted argument; [sortKey] is a
    field name. *)
Definition getBySortedBetween (now : Z) (filter : value)
    (max min skip limit : option Z) (sortKey : option string) : prog value :=
  let filter := default_arg filter (VObj []) in
  let max := match max with Some m => m | None => now end in
  let min := match min with Some m => m | None => 0 end in
  let skip := match skip with Some m => m | None => 0 end in
  let limit := match limit with Some m => m | None => 100 end in
  let sortKey := match sortKey with Some k => k | None => "created" end in
  assert filter "requires filter" ;;
  assert (VBool (max >? 0)) "requires max" ;;
  assert (VBool (min >=? 0)) "requires min" ;;
  assert (VBool (skip >=? 0)) "requires skip" ;;
  assert (VBool (limit >=? 1)) "requires limit" ;;
  method (col t) (fun c =>
    Find c
      (VObj (obj_set sortKey (VObj [("$lte", VNum max); ("$gte", VNum min)])
                     (assign [] (own_props filter))))
      (VObj [("sort", VObj [(sortKey, VNum (-1))]);
             ("skip", VNum skip);
             ("limit", VNum limit)])).

(** [push] and [pull] call [table.updateOne]: their receiver is the schema's
    [table] property, not [col]. *)
Definition push (id : value) (key : string) (items : value) : prog value :=
  assert id "requires id" ;;
  assert (VStr key) "requires field key" ;;
  assert (VBool (isArray items)) "requires tags" ;;
  method (tbl t) (fun c =>
    UpdateOne c (by_id id)
      (VObj [("$addToSet", VObj [(key, VObj [("$each", items)])])])).

Definition pull (id : value) (key : string) (items : value) : prog value :=
  assert id "requires id" ;;
  assert (VStr key) "requires field key" ;;
  assert (VBool (isArray items)) "requires tags" ;;
  method (tbl t) (fun c =>
    UpdateOne c (by_id id)
      (VObj [("$pull", VObj [(key, VObj [("$in", items)])])])).

(** [query] and [collection] hand out the collection handle. *)
Definition query : value := col t.

Definition search (index : string) (term skip limit : value) : prog value :=
  let skip := default_arg skip (VNum 0) in
  let limit := default_arg limit (VNum 100) in
  method (col t) (fun c =>
    Find c (VObj [(index, VObj [("$regex", term); ("$options", VStr "i")])])
           (VObj [("skip", skip); ("limit", limit)])).

Definition searchFuzzy (index : string) (term skip limit : value) : prog value :=
  let skip := default_arg skip (VNum 0) in
  let limit := default_arg limit (VNum 100) in
  method (col t) (fun c =>
    Find c (VObj [(index, VObj [("$regex", term); ("$options", VStr "i")])])
           (VObj [("skip", skip); ("limit", limit)])).

Definition list : prog value :=
  method (col t) (fun c => Find c (VObj []) VUndefined).

End Operations.

End Table.

(* ================================================================== *)
(** * The store: a model of the driver's collection contract *)
(* ================================================================== *)

(** An executable in-memory model of the MongoDB Node driver methods that
    [table.js] calls, as their documentation describes them.  A database is
    a list of named collections, each with its creation options, its
    documents and its indexes.

    The model covers a fragment of the query language: conditions on
    top-level fields (a name with a dot, which the server resolves into
    embedded documents, is not interpreted), by equality or with the
    operators [$in], [$all], [$lte] and [$gte]; a filter with another
    operator is refused.  It answers a query in one definite order, the
    order of insertion, where the server promises none, and ranks an array
    under a sort key as a type of its own.  The properties stated on the
    model name the filters, field names and collections they cover, and
    speak of a result up to its order wherever the server leaves the order
    open; what holds in every environment is stated for every handler. *)
Module Mongo.

(** ** Values as the store sees them *)

Fixpoint value_eqb (a b : value) {struct a} : bool :=
  match a, b with
  | VUndefined, VUndefined => true
  | VNull, VNull => true
  | VBool x, VBool y => Bool.eqb x y
  | VNum x, VNum y => x =? y
  | VStr x, VStr y => String.eqb x y
  | VArr l1, VArr l2 =>
      (fix go (l1 l2 : list value) {struct l1} : bool :=
         match l1, l2 with
         | [], [] => true
         | x :: xs, y :: ys => value_eqb x y && go xs ys
         | _, _ => false
         end) l1 l2
  | VObj o1, VObj o2 =>
      (fix go (o1 o2 : list (string * value)) {struct o1} : bool :=
         match o1, o2 with
         | [], [] => true
         | (k1, x) :: xs, (k2, y) :: ys =>
             String.eqb k1 k2 && value_eqb x y && go xs ys
         | _, _ => false
         end) o1 o2
  | VHandle x, VHandle y => String.eqb x y
  | _, _ => false
  end.

(** The driver serialises [undefined] as [null] (its default,
    [ignoreUndefined: false]). *)
Fixpoint to_bson (v : value) : value :=
  match v with
  | VUndefined => VNull
  | VArr l => VArr (map to_bson l)
  | VObj o => VObj (map (fun kv => (fst kv, to_bson (snd kv))) o)
  | _ => v
  end.

(** Values that are BSON data already: no [undefined] inside. *)
Fixpoint storable (v : value) : bool :=
  match v with
  | VUndefined => false
  | VArr l => forallb storable l
  | VObj o => forallb (fun kv => storable (snd kv)) o
  | _ => true
  end.

(** ** Query filters *)

Definition is_operator (k : string) : bool := String.prefix "$" k.

(** A condition whose first key is an operator is an operator expression;
    any other value is matched by equality. *)
Definition operator_expr (q : value) : option obj :=
  match q with
  | VObj ((k, v) :: o) => if is_operator k then Some ((k, v) :: o) else None
  | _ => None
  end.

(** A condition on an array field holds when it holds for an element. *)
Definition any_elem (p : value -> bool) (fv : option value) : bool :=
  match fv with
  | Some (VArr l) => existsb p l
  | _ => false
  end.

(** Equality match; a missing field matches [null]. *)
Definition eq_match (fv : option value) (q : value) : bool :=
  match fv with
  | None => value_eqb q VNull
  | Some v => value_eqb v q || any_elem (fun x => value_eqb x q) fv
  end.

(** Comparison is within a type: numbers with numbers, strings with
    strings. *)
Definition lte (a b : value) : bool :=
  match a, b with
  | VNum x, VNum y => x <=? y
  | VStr x, VStr y => String.leb x y
  | _, _ => false
  end.

Definition cmp_match (p : value -> bool) (fv : option value) : bool :=
  match fv with
  | Some v => p v || any_elem p fv
  | None => false
  end.

(** The query operators of the model, those that the table itself writes
    into a filter: [$in], [$all], [$lte], [$gte]. *)
Definition op_valid (op : string) (arg : value) : bool :=
  if String.eqb op "$in" then isArray arg
  else if String.eqb op "$all" then isArray arg
  else if String.eqb op "$lte" then true
  else if String.eqb op "$gte" then true
  else false.

Definition op_holds (op : string) (arg : value) (fv : option value) : bool :=
  if String.eqb op "$in" then
    match arg with VArr l => existsb (eq_match fv) l | _ => false end
  else if String.eqb op "$all" then
    match arg with
    | VArr [] => false
    | VArr l => forallb (eq_match fv) l
    | _ => false
    end
  else if String.eqb op "$lte" then cmp_match (fun v => lte v arg) fv
  else if String.eqb op "$gte" then cmp_match (fun v => lte arg v) fv
  else false.

Definition cond_valid (q : value) : bool :=
  match operator_expr q with
  | Some ops => forallb (fun kv => op_valid (fst kv) (snd kv)) ops
  | None => true
  end.

Definition cond_holds (q : value) (fv : option value) : bool :=
  match operator_expr q with
  | Some ops => forallb (fun kv => op_holds (fst kv) (snd kv) fv) ops
  | None => eq_match fv q
  end.

(** A filter the model understands: an object of field conditions with
    these operators.  Any other filter is refused by the model's methods. *)
Definition valid_fields (f : obj) : bool :=
  forallb (fun kv => negb (is_operator (fst kv)) && cond_valid (snd kv)) f.

Definition valid_filter (f : value) : option obj :=
  match to_bson f with
  | VObj o => if valid_fields o then Some o else None
  | _ => None
  end.

(** A document matches a filter when every field condition holds of the
    top-level field of that name. *)
Definition matches (f : obj) (d : obj) : bool :=
  forallb (fun kv => cond_holds (snd kv) (lookup (fst kv) d)) f.

(** ** Sorting and pagination *)

Definition rank (fv : option value) : Z :=
  match fv with
  | None | Some VUndefined | Some VNull => 0
  | Some (VNum _) => 1
  | Some (VStr _) => 2
  | Some (VObj _) => 3
  | Some (VArr _) => 4
  | Some (VBool _) => 5
  | Some (VHandle _) => 6
  end.

(** The BSON comparison order: by type first, then by value. *)
Definition bson_compare (a b : option value) : comparison :=
  match a, b with
  | Some (VNum x), Some (VNum y) => x ?= y
  | Some (VStr x), Some (VStr y) => String.compare x y
  | Some (VBool x), Some (VBool y) => Bool.compare x y
  | _, _ => rank a ?= rank b
  end.

(** [y] stays ahead of a newly inserted [x] when it sorts strictly before
    it, so that equal keys keep their natural order. *)
Fixpoint insert_sorted (ahead : obj -> obj -> bool) (x : obj) (l : list obj)
  : list obj :=
  match l with
  | [] => [x]
  | y :: l' => if ahead y x then y :: insert_sorted ahead x l' else x :: l
  end.

Definition sort_with (ahead : obj -> obj -> bool) (l : list obj) : list obj :=
  fold_right (insert_sorted ahead) [] l.

Definition ahead_desc (k : string) (y x : obj) : bool :=
  match bson_compare (lookup k y) (lookup k x) with Gt => true | _ => false end.

Definition ahead_asc (k : string) (y x : obj) : bool :=
  match bson_compare (lookup k y) (lookup k x) with Lt => true | _ => false end.

(** [opts[k]] of an options argument that may be missing. *)
Definition opt (k : string) (opts : value) : value :=
  match opts with
  | VObj o => match lookup k o with Some v => v | None => VUndefined end
  | _ => VUndefined
  end.

(** The table sorts on a single key. *)
Definition apply_sort (opts : value) (l : list obj) : list obj :=
  match opt "sort" opts with
  | VObj ((k, VNum dir) :: _) =>
      if dir <? 0 then sort_with (ahead_desc k) l else sort_with (ahead_asc k) l
  | _ => l
  end.

Definition apply_skip (opts : value) (l : list obj) : list obj :=
  match opt "skip" opts with
  | VNum n => skipn (Z.to_nat n) l
  | _ => l
  end.

(** A limit of 0 is no limit. *)
Definition apply_limit (opts : value) (l : list obj) : list obj :=
  match opt "limit" opts with
  | VNum n => if n =? 0 then l else firstn (Z.to_nat (Z.abs n)) l
  | _ => l
  end.

(** An inclusion projection keeps [_id] and the listed fields. *)
Definition apply_projection (opts : value) (d : obj) : obj :=
  match opt "projection" opts with
  | VObj p =>
      filter (fun kv => match lookup (fst kv) p with
                        | Some flag => truthy flag
                        | None => String.eqb (fst kv) "_id"
                        end) d
  | _ => d
  end.

(** ** Collections *)

Record collection : Type := mkCollection {
  c_options : value;
  c_docs : list obj;
  c_indexes : list (value * value);
  c_next : Z
}.

Definition store : Type := list (string * collection).

Definition empty_collection : collection := mkCollection VUndefined [] [] 0.

Fixpoint find_coll (c : string) (st : store) : option collection :=
  match st with
  | [] => None
  | (c', x) :: st' => if String.eqb c c' then Some x else find_coll c st'
  end.

Fixpoint put_coll (c : string) (x : collection) (st : store) : store :=
  match st with
  | [] => [(c, x)]
  | (c', x') :: st' =>
      if String.eqb c c' then (c, x) :: st' else (c', x') :: put_coll c x st'
  end.

(** A collection that does not exist yet reads as empty and is created by
    the first write. *)
Definition the_coll (c : string) (st : store) : collection :=
  match find_coll c st with Some x => x | None => empty_collection end.

Definition docs_of (c : string) (st : store) : list obj := c_docs (the_coll c st).

Definition with_docs (x : collection) (ds : list obj) : collection :=
  mkCollection (c_options x) ds (c_indexes x) (c_next x).

(** The first document satisfying [p] is replaced by [f] of it. *)
Fixpoint replace_first (p : obj -> bool) (f : obj -> obj) (ds : list obj)
  : list obj :=
  match ds with
  | [] => []
  | d :: ds' => if p d then f d :: ds' else d :: replace_first p f ds'
  end.

(** The first document satisfying [p] is removed. *)
Fixpoint remove_first (p : obj -> bool) (ds : list obj) : list obj :=
  match ds with
  | [] => []
  | d :: ds' => if p d then ds' else d :: remove_first p ds'
  end.

Definition has_id (i : value) (d : obj) : bool :=
  match lookup "_id" d with Some j => value_eqb j i | None => false end.

(** A stored document carries its [_id] as first field. *)
Definition with_id (i : value) (d : obj) : obj := ("_id", i) :: obj_remove "_id" d.

Definition ack (fields : obj) : response :=
  Resolved (VObj (("acknowledged", VBool true) :: fields)).

Definition bad_value (msg : string) : response := Rejected (MongoError 2 msg).

(** ** The driver methods *)

Definition createCollection (nm opts : value) (st : store) : response * store :=
  match nm with
  | VStr c =>
      if String.eqb c "" then (Rejected (MongoError 73 "Invalid namespace"), st)
      else match find_coll c st with
           | Some _ =>
               (Rejected (MongoError 48 (String.append "Collection already exists: " c)), st)
           | None =>
               (Resolved (VHandle c),
                put_coll c (mkCollection (to_bson opts) [] [] 0) st)
           end
  | _ => (Rejected (MongoError 73 "collection name must be a String"), st)
  end.

(** The driver's check of a collection name, made when a collection
    object is built: the message of the error it throws, if any. *)
Definition occurs (sub s : string) : bool :=
  match String.index 0 sub s with Some _ => true | None => false end.

Fixpoint ends_with_dot (s : string) : bool :=
  match s with
  | EmptyString => false
  | String a EmptyString => Ascii.eqb a "."%char
  | String _ s' => ends_with_dot s'
  end.

Definition name_error (c : string) : option string :=
  if String.eqb c "" || occurs ".." c then
    Some "collection names cannot be empty"
  else if occurs "$" c && negb (String.prefix "$cmd" c || occurs "oplog.$main" c) then
    Some "collection names must not contain '$'"
  else if String.prefix "." c || ends_with_dot c then
    Some "collection names must not start or end with '.'"
  else if occurs (String Ascii.zero EmptyString) c then
    Some "collection names cannot contain a null character"
  else None.

(** [db.collection(name)] hands out a handle for a name that passes the
    check; nothing is created. *)
Definition db_collection (nm : value) (st : store) : response * store :=
  match nm with
  | VStr c =>
      match name_error c with
      | Some msg => (Rejected (MongoError 0 msg), st)
      | None => (Resolved (VHandle c), st)
      end
  | _ => (Rejected (MongoError 0 "collection name must be a String"), st)
  end.

Definition direction_name (v : value) : string :=
  match v with
  | VNum 1 => "1"
  | VNum (-1) => "-1"
  | VStr s => s
  | _ => ""
  end.

Fixpoint index_name (keys : obj) : string :=
  match keys with
  | [] => ""
  | [(k, v)] => String.append k (String.append "_" (direction_name v))
  | (k, v) :: rest =>
      String.append k (String.append "_" (String.append (direction_name v)
        (String.append "_" (index_name rest))))
  end.

(** A key specification with a ["text"] entry is a text index. *)
Definition is_text (keys : value) : bool :=
  match keys with
  | VObj o => existsb (fun kv => value_eqb (snd kv) (VStr "text")) o
  | _ => false
  end.

(** Creating an index creates the collection when it is missing; an index
    on the same keys with the same options is left alone, one with other
    options is a conflict, and so is a second text index: a collection has
    one at most. *)
Definition createIndex (c : string) (keys opts : value) (st : store)
  : response * store :=
  match to_bson keys with
  | VObj (kv :: ks) =>
      let x := the_coll c st in
      match List.find (fun ix => value_eqb (fst ix) (VObj (kv :: ks))) (c_indexes x) with
      | Some ix =>
          if value_eqb (snd ix) (to_bson opts)
          then (Resolved (VStr (index_name (kv :: ks))), put_coll c x st)
          else (Rejected (MongoError 85 "Index already exists with different options"), st)
      | None =>
          if is_text (VObj (kv :: ks)) && existsb (fun ix => is_text (fst ix)) (c_indexes x)
          then (Rejected (MongoError 85 "only one text index per collection allowed"), st)
          else
            (Resolved (VStr (index_name (kv :: ks))),
             put_coll c (mkCollection (c_options x) (c_docs x)
                           (c_indexes x ++ [(VObj (kv :: ks), to_bson opts)])
                           (c_next x)) st)
      end
  | _ => (bad_value "Index keys cannot be an empty field", st)
  end.

Definition findOne (c : string) (f opts : value) (st : store) : response * store :=
  match valid_filter f with
  | Some q =>
      (Resolved (match List.find (matches q) (docs_of c st) with
                 | Some d => VObj (apply_projection opts d)
                 | None => VNull
                 end), st)
  | None => (bad_value "unknown operator", st)
  end.

Definition find_docs (q : obj) (opts : value) (ds : list obj) : list obj :=
  map (apply_projection opts)
      (apply_limit opts (apply_skip opts (apply_sort opts (filter (matches q) ds)))).

Definition find_toArray (c : string) (f opts : value) (st : store)
  : response * store :=
  match valid_filter f with
  | Some q => (Resolved (VArr (map VObj (find_docs q opts (docs_of c st)))), st)
  | None => (bad_value "unknown operator", st)
  end.

Definition doc_id (d : obj) : value :=
  match lookup "_id" d with Some i => i | None => VNull end.

(** The identifier a filter pins by equality, if any. *)
Definition filter_id (q : obj) : option value :=
  match lookup "_id" q with
  | Some v => match operator_expr v with None => Some v | Some _ => None end
  | None => None
  end.

(** The fields a filter pins by equality: the seed of an upserted document. *)
Definition equality_fields (q : obj) : obj :=
  filter (fun kv => match operator_expr (snd kv) with None => true | Some _ => false end) q.

(** A write must leave [_id] as it is. *)
Definition keeps_id (i : value) (fields : obj) : bool :=
  match lookup "_id" fields with
  | Some j => value_eqb j i
  | None => true
  end.

Definition oid (n : Z) : value := VObj [("$oid", VNum n)].

(** Insertion: [_id] is generated when missing, must not be an array and
    must be new to the collection. *)
Definition insert_doc (c : string) (d : obj) (st : store) : (exn + value) * store :=
  let x := the_coll c st in
  let i := match lookup "_id" d with Some i => i | None => oid (c_next x) end in
  if isArray i then
    (inl (MongoError 53 "The _id field cannot be an array"), st)
  else if existsb (has_id i) (c_docs x) then
    (inl (MongoError 11000 "E11000 duplicate key error"), st)
  else
    (inr i,
     put_coll c (mkCollection (c_options x) (c_docs x ++ [with_id i d])
                   (c_indexes x)
                   (match lookup "_id" d with Some _ => c_next x | None => c_next x + 1 end))
              st).

Definition immutable_id : response :=
  Rejected (MongoError 66 "The (immutable) field _id was found to have been altered").

Definition replaceOne (c : string) (f repl opts : value) (st : store)
  : response * store :=
  match valid_filter f, to_bson repl with
  | Some q, VObj r =>
      if existsb (fun kv => is_operator (fst kv)) r then
        (bad_value "Replacement document must not contain atomic operators", st)
      else
        let x := the_coll c st in
        match List.find (matches q) (c_docs x) with
        | Some d =>
            if keeps_id (doc_id d) r then
              (ack [("matchedCount", VNum 1); ("modifiedCount", VNum 1);
                    ("upsertedCount", VNum 0)],
               put_coll c (with_docs x
                 (replace_first (matches q) (fun d => with_id (doc_id d) r) (c_docs x))) st)
            else (immutable_id, st)
        | None =>
            if truthy (opt "upsert" opts) then
              match filter_id q with
              | Some i =>
                  if keeps_id i r then
                    match insert_doc c (with_id i r) st with
                    | (inr j, st') =>
                        (ack [("matchedCount", VNum 0); ("modifiedCount", VNum 0);
                              ("upsertedCount", VNum 1); ("upsertedId", j)], st')
                    | (inl e, st') => (Rejected e, st')
                    end
                  else (immutable_id, st)
              | None =>
                  match insert_doc c r st with
                  | (inr j, st') =>
                      (ack [("matchedCount", VNum 0); ("modifiedCount", VNum 0);
                            ("upsertedCount", VNum 1); ("upsertedId", j)], st')
                  | (inl e, st') => (Rejected e, st')
                  end
              end
            else
              (ack [("matchedCount", VNum 0); ("modifiedCount", VNum 0);
                    ("upsertedCount", VNum 0)], st)
        end
  | Some _, _ => (bad_value "Replacement must be a document", st)
  | None, _ => (bad_value "unknown operator", st)
  end.

(** Which document [findOneAndUpdate] hands back: the one before the
    update, unless the caller asks for the one after it with
    [returnOriginal: false] (driver 3.x) or [returnDocument: "after"]
    (driver 4.x and later).  No other option has that effect. *)
Definition return_new (opts : value) : bool :=
  value_eqb (opt "returnOriginal" opts) (VBool false)
  || value_eqb (opt "returnDocument" opts) (VStr "after").

Definition modify_result (v : value) (existing : bool) : response :=
  Resolved (VObj [("lastErrorObject",
                   VObj [("n", VNum 1); ("updatedExisting", VBool existing)]);
                  ("value", v);
                  ("ok", VNum 1)]).

(** [findOneAndUpdate] with a [$set] update: the listed fields are
    assigned, the others are kept. *)
Definition findOneAndUpdate (c : string) (f upd opts : value) (st : store)
  : response * store :=
  match valid_filter f, to_bson upd with
  | Some q, VObj [("$set", VObj props)] =>
      let x := the_coll c st in
      match List.find (matches q) (c_docs x) with
      | Some d =>
          if keeps_id (doc_id d) props then
            (modify_result (VObj (if return_new opts then assign d props else d)) true,
             put_coll c (with_docs x
               (replace_first (matches q) (fun d => assign d props) (c_docs x))) st)
          else (immutable_id, st)
      | None =>
          if truthy (opt "upsert" opts) then
            let d := assign (equality_fields q) props in
            if match filter_id q with Some i => keeps_id i props | None => true end then
              match insert_doc c d st with
              | (inr j, st') =>
                  (modify_result (if return_new opts then VObj (with_id j d) else VNull) false,
                   st')
              | (inl e, st') => (Rejected e, st')
              end
            else (immutable_id, st)
          else
            (Resolved (VObj [("lastErrorObject",
                              VObj [("n", VNum 0); ("updatedExisting", VBool false)]);
                             ("value", VNull); ("ok", VNum 1)]), st)
      end
  | Some _, _ => (bad_value "unsupported update document", st)
  | None, _ => (bad_value "unknown operator", st)
  end.

(** Deletions touch an existing collection only. *)
Definition set_docs (c : string) (ds : list obj) (st : store) : store :=
  match find_coll c st with
  | Some x => put_coll c (with_docs x ds) st
  | None => st
  end.

Definition deleteOne (c : string) (f : value) (st : store) : response * store :=
  match valid_filter f with
  | Some q =>
      let ds := docs_of c st in
      (ack [("deletedCount",
             VNum (if existsb (matches q) ds then 1 else 0))],
       set_docs c (remove_first (matches q) ds) st)
  | None => (bad_value "unknown operator", st)
  end.

Definition deleteMany (c : string) (f : value) (st : store) : response * store :=
  match valid_filter f with
  | Some q =>
      let ds := docs_of c st in
      (ack [("deletedCount", VNum (Z.of_nat (List.length (filter (matches q) ds))))],
       set_docs c (filter (fun d => negb (matches q d)) ds) st)
  | None => (bad_value "unknown operator", st)
  end.

(** [$addToSet]: an element is appended unless the array holds it already. *)
Definition add_to_set (l items : list value) : list value :=
  fold_left (fun acc x => if existsb (value_eqb x) acc then acc else acc ++ [x])
            items l.

Definition each_of (arg : value) : list value :=
  match arg with
  | VObj [("$each", VArr items)] => items
  | _ => [arg]
  end.

(** The array update of one field, or [None] when the field holds something
    else than an array. *)
Definition array_update (upd : value) (d : obj) : option obj :=
  match upd with
  | VObj [("$addToSet", VObj [(k, arg)])] =>
      match lookup k d with
      | None => Some (obj_set k (VArr (add_to_set [] (each_of arg))) d)
      | Some (VArr l) => Some (obj_set k (VArr (add_to_set l (each_of arg))) d)
      | Some _ => None
      end
  | VObj [("$pull", VObj [(k, VObj [("$in", VArr items)])])] =>
      match lookup k d with
      | None => Some d
      | Some (VArr l) =>
          Some (obj_set k (VArr (filter (fun x => negb (existsb (value_eqb x) items)) l)) d)
      | Some _ => None
      end
  | _ => None
  end.

Definition updateOne (c : string) (f upd : value) (st : store) : response * store :=
  match valid_filter f with
  | Some q =>
      let ds := docs_of c st in
      match List.find (matches q) ds with
      | Some d =>
          match array_update (to_bson upd) d with
          | Some d' =>
              (ack [("matchedCount", VNum 1); ("modifiedCount", VNum 1)],
               set_docs c (replace_first (matches q) (fun _ => d') ds) st)
          | None => (bad_value "Cannot apply the update to this document", st)
          end
      | None => (ack [("matchedCount", VNum 0); ("modifiedCount", VNum 0)], st)
      end
  | None => (bad_value "unknown operator", st)
  end.

(** The environment: every call of the table answered by the model. *)
Definition mongo : handler store := fun c st =>
  match c with
  | CreateCollection nm opts => createCollection nm opts st
  | Collection nm => db_collection nm st
  | CreateIndex c keys opts => createIndex c keys opts st
  | FindOne c f opts => findOne c f opts st
  | Find c f opts => find_toArray c f opts st
  | ReplaceOne c f repl opts => replaceOne c f repl opts st
  | FindOneAndUpdate c f upd opts => findOneAndUpdate c f upd opts st
  | DeleteOne c f => deleteOne c f st
  | DeleteMany c f => deleteMany c f st
  | UpdateOne c f upd => updateOne c f upd st
  end.

End Mongo.

(* ================================================================== *)
(** * Vocabulary of the properties *)
(* ================================================================== *)

(** ** Provisioning *)

(** The name the collection is created and opened under, [name || table]. *)
Definition collection_name (sc : schema) : value := or_else (name sc) (table sc).

Definition creation_call (sc : schema) : call :=
  CreateCollection (collection_name sc) (VObj (options sc)).

(** The index-creation calls of steps 2 to 4 on the collection [c], in the
    order of the schema's declarations. *)
Definition single_calls (c : string) (sc : schema) : list call :=
  map (fun i => CreateIndex c (VObj [(i, VNum 1)]) VUndefined) (indices sc).

Definition compound_calls (c : string) (sc : schema) : list call :=
  map (fun fs =>
         CreateIndex c
           (VObj (fold_left (fun result n => own_set n (VNum 1) result) fs []))
           VUndefined)
      (compound sc).

Definition text_calls (c : string) (sc : schema) : list call :=
  map (fun i => CreateIndex c (VObj [(i, VStr "text")]) VUndefined) (text sc).

(** The calls of step 5 for a list of [ttl] entries. *)
Definition ttl_calls (c : string) (entries : list (string * value)) : list call :=
  map (fun io =>
         CreateIndex c (VObj [(fst io, VNum 1)]) (default_arg (snd io) (VObj [])))
      entries.

(** Lines 81-84 on an opened collection, up to the returned operations. *)
Definition index_steps (col : value) (sc : schema) : prog Table.bound :=
  (Table.createIndexes col (indices sc) ;;
   Table.createCompoundIndexes col (compound sc) ;;
   Table.createTextSearchIndexes col (text sc) ;;
   Table.createTtlIndexes col (ttl sc) ;;
   Ret (Table.mkBound col (table sc)))%prog.

(** The index-creation calls issued before a given list of [ttl] entries
    has been worked through. *)
Definition index_calls (c : string) (sc : schema) (entries : list (string * value))
  : list call :=
  single_calls c sc ++ compound_calls c sc ++ text_calls c sc ++ ttl_calls c entries.

(** Everything provisioning asks of the store before a given list of [ttl]
    entries has been worked through. *)
Definition plan_upto (c : string) (sc : schema) (entries : list (string * value))
  : list call :=
  creation_call sc :: Collection (collection_name sc) :: index_calls c sc entries.

Definition provisioning_plan (c : string) (sc : schema) : list call :=
  plan_upto c sc (ttl sc).

(** The two assertions of [createTtlIndex] pass on these options. *)
Definition ttl_ok (o : value) : bool :=
  let o := default_arg o (VObj []) in
  truthy o && match prop o "expireAfterSeconds" with
              | inr e => truthy e
              | inl _ => false
              end.

(** An environment in which index creation does not fail. *)
Definition indexes_succeed {S : Type} (h : handler S) : Prop :=
  forall c keys opts st, exists v, fst (h (CreateIndex c keys opts) st) = Resolved v.

(** The environment opens the schema's collection as the handle [c], once
    the creation call has been answered. *)
Definition opens {S : Type} (h : handler S) (s : S) (sc : schema) (c : string) : Prop :=
  fst (h (Collection (collection_name sc)) (snd (h (creation_call sc) s)))
  = Resolved (VHandle c).

(** The server's error for a collection that exists already
    (NamespaceExists). *)
Definition already_exists (e : exn) : bool :=
  match e with
  | MongoError 48 _ => true
  | _ => false
  end.

(** The store, except that collection creation is refused with [e]. *)
Definition refusing (e : exn) : handler Mongo.store := fun c st =>
  match c with
  | CreateCollection _ _ => (Rejected e, st)
  | _ => Mongo.mongo c st
  end.

Definition unauthorized : exn :=
  MongoError 13 "not authorized to create a collection".

(** [{ name: "users", indices: ["email"] }] *)
Definition users : schema :=
  mkSchema (VStr "users") VUndefined ["email"] [] [] [] [].


(** The table of [users] once provisioned, and a store holding two users. *)
Definition users_table : Table.bound := Table.mkBound (VHandle "users") VUndefined.

Definition ann : obj := [("_id", VStr "ann"); ("age", VNum 31); ("created", VNum 3)].
Definition bob : obj := [("_id", VStr "bob"); ("age", VNum 27); ("created", VNum 7)].

Definition two_users : Mongo.store :=
  [("users",
    Mongo.mkCollection (VObj []) [ann; bob] [(VObj [("email", VNum 1)], VNull)] 0)].

(** ** Documents and identifiers *)

(** An object's keys are pairwise distinct. *)
Fixpoint unique_keys (o : obj) : bool :=
  match o with
  | [] => true
  | (k, _) :: o' =>
      match lookup k o' with Some _ => false | None => unique_keys o' end
  end.

(** A document the store accepts as a replacement: distinct field names,
    none of them an operator, BSON data throughout. *)
Definition document (d : obj) : bool :=
  unique_keys d
  && forallb (fun kv => negb (Mongo.is_operator (fst kv))) d
  && Mongo.storable (VObj d).

(** A value usable as a primary identifier: BSON data, neither an array nor
    an operator expression. *)
Definition identifier (i : value) : bool :=
  Mongo.storable i && negb (isArray i)
  && match Mongo.operator_expr i with None => true | Some _ => false end.

(** No stored document has an array for identifier (the store refuses
    them). *)
Definition ids_ok (ds : list obj) : bool :=
  forallb (fun d => negb (isArray (Mongo.doc_id d))) ds.

(** ** Sorted range queries *)

(** The condition [{ $lte: max, $gte: min }]. *)
Definition between (min max : Z) : value :=
  VObj [("$lte", VNum max); ("$gte", VNum min)].

(** The documents [getBySortedBetween] is to select. *)
Definition selected (f : obj) (key : string) (min max : Z) (d : obj) : bool :=
  Mongo.matches f d && Mongo.cond_holds (between min max) (lookup key d).

(** [a] may precede [b] in a descending sort on [key]. *)
Definition desc (key : string) (a b : obj) : Prop :=
  Mongo.bson_compare (lookup key a) (lookup key b) <> Lt.

(** The bounds asserted by [getBySortedBetween]. *)
Definition bounds_ok (max min skip limit : Z) : bool :=
  (max >? 0) && (min >=? 0) && (skip >=? 0) && (limit >=? 1).

(** A list is an initial segment of another. *)
Definition prefix_of {A : Type} (l plan : list A) : Prop :=
  exists rest, plan = l ++ rest.

(** The environment state reached by answering the calls of a list one
    after the other. *)
Definition served {S : Type} (h : handler S) (cs : list call) (s : S) : S :=
  fold_left (fun st c => snd (h c st)) cs s.

(** A run keeps to a plan: the calls it issues form an initial segment of
    the plan, the whole of it when the program returns. *)
Definition follows {S A : Type} (r : result S A) (plan : list call) : Prop :=
  prefix_of (calls r) plan /\ (forall a, res r = Returned a -> calls r = plan).


(** A run issues exactly these calls and ends in this way. *)
Definition yields {S A : Type} (r : result S A) (cs : list call) (o : outcome A) : Prop :=
  calls r = cs /\ res r = o.

(** ** Stored documents *)

(** A stored document has an identifier, which is not an array. *)
Definition keyed (d : obj) : bool :=
  match lookup "_id" d with
  | Some v => negb (isArray v)
  | None => false
  end.

(** No two documents of a list have the same identifier. *)
Fixpoint distinct_ids (ds : list obj) : bool :=
  match ds with
  | [] => true
  | d :: ds' =>
      negb (existsb (Mongo.has_id (Mongo.doc_id d)) ds') && distinct_ids ds'
  end.

(** The state of a collection the store maintains: every document is keyed
    and identifiers are unique. *)
Definition well_keyed (ds : list obj) : bool :=
  forallb keyed ds && distinct_ids ds.

(** The first document of a result list, [null] for an empty one. *)
Definition first_or_null (ds : list obj) : value :=
  match ds with
  | [] => VNull
  | d :: _ => VObj d
  end.

(** A value sent as it is and compared by equality: BSON data that is not
    an operator expression. *)
Definition plain (v : value) : bool :=
  Mongo.storable v
  && match Mongo.operator_expr v with None => true | Some _ => false end.

(** ** Plain data *)

Fixpoint has_char (a : ascii) (k : string) : bool :=
  match k with
  | EmptyString => false
  | String b k' => Ascii.eqb a b || has_char a k'
  end.

(** The name of a top-level field: not empty, without a dot or a null
    character, not starting with [$], not [__proto__], and not an array
    index, so that the fields of an object are enumerated in the order they
    were written in. *)
Definition field_name (k : string) : bool :=
  negb (String.eqb k "") && negb (has_char "."%char k)
  && negb (has_char Ascii.zero k) && negb (Mongo.is_operator k)
  && negb (String.eqb k "__proto__") && negb (is_array_index k).

(** Plain data: [null], booleans, integers, strings, arrays of plain data
    and objects of plain data under such names. *)
Fixpoint literal (v : value) : bool :=
  match v with
  | VUndefined | VHandle _ => false
  | VArr l => forallb literal l
  | VObj o => forallb (fun kv => field_name (fst kv) && literal (snd kv)) o
  | _ => true
  end.

(** A filter of equality conditions: each field of the filter is to equal a
    plain value. *)
Definition equalities (f : obj) : bool :=
  forallb (fun kv => field_name (fst kv) && literal (snd kv)) f.

(** A document agrees with such a filter when each field named by the
    filter equals the value given for it, or is an array that holds it; a
    missing field counts as [null]. *)
Definition agrees (f d : obj) : bool :=
  forallb (fun kv => Mongo.eq_match (lookup (fst kv) d) (snd kv)) f.

(** The value of a document under [key] is a number of the closed range. *)
Definition in_range (key : string) (min max : Z) (d : obj) : bool :=
  match lookup key d with
  | Some (VNum n) => (min <=? n) && (n <=? max)
  | _ => false
  end.

Definition no_array_under (key : string) (d : obj) : bool :=
  match lookup key d with
  | Some (VArr _) => false
  | _ => true
  end.

(** The key specification [createCompoundIndex] builds from the fields of a
    [compound] entry. *)
Definition compound_config (fields : list string) : obj :=
  fold_left (fun result n => own_set n (VNum 1) result) fields [].

(** [a] may come before [b] among the own keys of an object: a key that is
    an array index is preceded by array indexes only, none of them
    larger. *)
Definition key_before (a b : string) : Prop :=
  match array_index b with
  | Some nb => match array_index a with Some na => (na <= nb)%N | None => False end
  | None => True
  end.

(** The store once [d] has been stored under [i] in the collection [c]: in
    the place of the document under [i], at the end when there is none. *)
Definition stored_under (c : string) (i : value) (d : obj) (st : Mongo.store)
  : Mongo.store :=
  let x := Mongo.the_coll c st in
  Mongo.put_coll c
    (Mongo.with_docs x
       (match List.find (Mongo.has_id i) (Mongo.c_docs x) with
        | Some _ =>
            Mongo.replace_first (Mongo.has_id i) (fun _ => Mongo.with_id i d)
                                (Mongo.c_docs x)
        | None => Mongo.c_docs x ++ [Mongo.with_id i d]
        end))
    st.

Definition is_index_call (c : call) : Prop :=
  exists col keys opts, c = CreateIndex col keys opts.

(** Every call a program can issue, whatever the answers, is of a given
    kind. *)
Inductive only {A : Type} (P : call -> Prop) : prog A -> Prop :=
| only_ret (a : A) : only P (Ret a)
| only_throw (e : exn) : only P (Throw e)
| only_call (c : call) (k : response -> prog A) :
    P c -> (forall r, only P (k r)) -> only P (Call c k)
| only_log (line : string) (k : prog A) : only P k -> only P (Log line k).

(** The calls that set a collection up, and those that read documents. *)
Definition schema_call (k : call) : Prop :=
  match k with
  | CreateCollection _ _ | Collection _ | CreateIndex _ _ _ => True
  | _ => False
  end.

Definition read_call (k : call) : Prop :=
  match k with
  | FindOne _ _ _ | Find _ _ _ => True
  | _ => False
  end.

(** A failed run owes its error to its last call: the environment rejected
    that call, an index creation, with this error. *)
Definition fails_at_last_call {S A : Type} (h : handler S) (s : S) (r : result S A)
  : Prop :=
  forall e, res r = Thrown e ->
  exists cs k,
    calls r = cs ++ [k] /\ is_index_call k
    /\ fst (h k (served h cs s)) = Rejected e.

(** The collection [c] of a store has an index on the keys [K] with the
    options [o]. *)
Definition indexed (c : string) (K o : value) (st : Mongo.store) : Prop :=
  exists x ix,
    Mongo.find_coll c st = Some x
    /\ List.find (fun ix => Mongo.value_eqb (fst ix) K) (Mongo.c_indexes x) = Some ix
    /\ Mongo.value_eqb (snd ix) o = true.

(** The index a [createIndex] call asks for is there. *)
Definition provided (k : call) (st : Mongo.store) : Prop :=
  match k with
  | CreateIndex c keys opts =>
      exists kv ks,
        Mongo.to_bson keys = VObj (kv :: ks)
        /\ indexed c (VObj (kv :: ks)) (Mongo.to_bson opts) st
  | _ => False
  end.

(** A later state of the store: collections and indexes that were there are
    still there. *)
Definition grows (st st' : Mongo.store) : Prop :=
  (forall k, provided k st -> provided k st')
  /\ (forall c, Mongo.find_coll c st <> None -> Mongo.find_coll c st' <> None).

Section ValueInduction.

Variable P : value -> Prop.

Hypothesis P_undefined : P VUndefined.
Hypothesis P_null : P VNull.
Hypothesis P_bool : forall b, P (VBool b).
Hypothesis P_num : forall n, P (VNum n).
Hypothesis P_str : forall s, P (VStr s).
Hypothesis P_arr : forall l, Forall P l -> P (VArr l).
Hypothesis P_obj : forall o, Forall (fun kv => P (snd kv)) o -> P (VObj o).
Hypothesis P_handle : forall c, P (VHandle c).

(** Induction on values, with the hypothesis available for the elements of
    an array and the fields of an object. *)
Fixpoint value_nested_ind (v : value) : P v :=
  match v with
  | VUndefined => P_undefined
  | VNull => P_null
  | VBool b => P_bool b
  | VNum n => P_num n
  | VStr s => P_str s
  | VArr l =>
      P_arr l
        ((fix go (l : list value) : Forall P l :=
            match l with
            | [] => Forall_nil P
            | x :: xs => Forall_cons x (value_nested_ind x) (go xs)
            end) l)
  | VObj o =>
      P_obj o
        ((fix go (o : list (string * value)) : Forall (fun kv => P (snd kv)) o :=
            match o with
            | [] => Forall_nil _
            | (k, x) :: xs =>
                Forall_cons (P := fun kv => P (snd kv)) (k, x)
                            (value_nested_ind x) (go xs)
            end) o)
  | VHandle c => P_handle c
  end.

End ValueInduction.

(* ================================================================== *)
(** * Runs of programs *)
(* ================================================================== *)

Section Runs.

Context {S : Type} (h : handler S).

Lemma run_bind {A B : Type} (p : prog A) (f : A -> prog B) (s : S) :
  run h (bind p f) s =
  match res (run h p s) with
  | Returned a =>
      let r2 := run h (f a) (final (run h p s)) in
      mkResult (res r2) (final r2)
               (calls (run h p s) ++ calls r2)
               (console (run h p s) ++ console r2)
  | Thrown e =>
      mkResult (Thrown e) (final (run h p s)) (calls (run h p s))
               (console (run h p s))
  end.
Proof.
  revert s. induction p as [a | e | c k IH | l k IH]; intros s; simpl.
  - destruct (run h (f a) s); reflexivity.
  - reflexivity.
  - rewrite IH. destruct (res (run h (k (fst (h c s))) (snd (h c s)))); reflexivity.
  - rewrite IH. destruct (res (run h k s)); reflexivity.
Qed.

(** Calls are served one after the other: the environment a run leaves
    behind is the one obtained by answering its calls in order. *)
Lemma run_served {A : Type} (p : prog A) (s : S) :
  final (run h p s) = served h (calls (run h p s)) s.
Proof.
  revert s. induction p as [a | e | c k IH | l k IH]; intros s; simpl;
    [reflexivity | reflexivity | apply IH | apply IH].
Qed.

Lemma prefix_of_nil {A : Type} (l : list A) : prefix_of [] l.
Proof. exists l. reflexivity. Qed.

Lemma prefix_of_refl {A : Type} (l : list A) : prefix_of l l.
Proof. exists []. symmetry. apply app_nil_r. Qed.

Lemma prefix_of_app_r {A : Type} (l p q : list A) :
  prefix_of l p -> prefix_of l (p ++ q).
Proof. intros [r ->]. exists (r ++ q). symmetry. apply app_assoc. Qed.

Lemma prefix_of_app {A : Type} (p l q : list A) :
  prefix_of l q -> prefix_of (p ++ l) (p ++ q).
Proof. intros [r ->]. exists r. apply app_assoc. Qed.

Lemma prefix_of_cons {A : Type} (x : A) (l q : list A) :
  prefix_of l q -> prefix_of (x :: l) (x :: q).
Proof. intros [r ->]. exists r. reflexivity. Qed.

Lemma follows_ret {A : Type} (a : A) (s : S) : follows (run h (Ret a) s) [].
Proof. split; [apply prefix_of_nil | reflexivity]. Qed.

Lemma follows_throw {A : Type} (e : exn) (s : S) (plan : list call) :
  follows (run h (@Throw A e) s) plan.
Proof. split; [apply prefix_of_nil | discriminate]. Qed.

Lemma follows_await (c : call) (s : S) : follows (run h (await c) s) [c].
Proof.
  unfold await; simpl. destruct (fst (h c s)); simpl;
    (split; [apply prefix_of_refl | reflexivity]).
Qed.

Lemma follows_bind {A B : Type} (p : prog A) (f : A -> prog B) (s : S)
      (pl1 pl2 : list call) :
  follows (run h p s) pl1 ->
  (forall a s', follows (run h (f a) s') pl2) ->
  follows (run h (bind p f) s) (pl1 ++ pl2).
Proof.
  intros [Hp Hr] Hf. rewrite run_bind.
  destruct (res (run h p s)) as [a | e] eqn:E.
  - rewrite (Hr a eq_refl). destruct (Hf a (final (run h p s))) as [Hp2 Hr2].
    split; simpl.
    + apply prefix_of_app, Hp2.
    + intros b Hb. f_equal. apply (Hr2 b Hb).
  - split; simpl.
    + apply prefix_of_app_r, Hp.
    + discriminate.
Qed.

Lemma follows_mapSeries {A : Type} (f : A -> prog value) (g : A -> call) :
  (forall x s, follows (run h (f x) s) [g x]) ->
  forall l s, follows (run h (mapSeries f l) s) (map g l).
Proof.
  intros Hf l. induction l as [| x l IH]; intros s.
  - apply follows_ret.
  - change (map g (x :: l)) with ([g x] ++ map g l). simpl mapSeries.
    apply follows_bind; [apply Hf |]. intros v s'.
    rewrite <- (app_nil_r (map g l)).
    apply follows_bind; [apply IH |]. intros vs s''. apply follows_ret.
Qed.



Lemma yields_bind {A B : Type} (p : prog A) (f : A -> prog B) (s : S)
      (a : A) (c1 c2 : list call) (o : outcome B) :
  yields (run h p s) c1 (Returned a) ->
  yields (run h (f a) (final (run h p s))) c2 o ->
  yields (run h (bind p f) s) (c1 ++ c2) o.
Proof.
  intros [Hc Hr] [Hc2 Hr2]. rewrite run_bind, Hr.
  split; simpl; congruence.
Qed.


Lemma yields_await_index (c : string) (keys opts : value) (s : S) :
  indexes_succeed h ->
  exists v, yields (run h (await (CreateIndex c keys opts)) s)
                   [CreateIndex c keys opts] (Returned v).
Proof.
  intros Hok. destruct (Hok c keys opts s) as [v Hv].
  exists v. unfold await; simpl. rewrite Hv. split; reflexivity.
Qed.

(** A series of index creations that all pass their assertions. *)
Lemma yields_mapSeries {A : Type} (f : A -> prog value) (g : A -> call) (l : list A) :
  indexes_succeed h ->
  (forall x, In x l -> exists c keys opts,
        g x = CreateIndex c keys opts /\ f x = await (g x)) ->
  forall s, exists vs,
    yields (run h (mapSeries f l) s) (map g l) (Returned vs).
Proof.
  intros Hok. induction l as [| x l IH]; intros Hf s.
  - exists []. split; reflexivity.
  - destruct (Hf x (or_introl eq_refl)) as (c & keys & opts & Hg & Hfx).
    destruct (yields_await_index c keys opts s Hok) as [v Hv].
    rewrite <- Hg, <- Hfx in Hv.
    destruct (IH (fun y Hy => Hf y (or_intror Hy)) (final (run h (f x) s)))
      as [vs Hvs].
    exists (v :: vs). simpl mapSeries.
    change (map g (x :: l)) with ([g x] ++ map g l).
    eapply yields_bind; [exact Hv |].
    rewrite <- (app_nil_r (map g l)).
    eapply yields_bind; [exact Hvs |]. split; reflexivity.
Qed.



End Runs.

(* ================================================================== *)
(** * Provisioning *)
(* ================================================================== *)

Section Provisioning.

Context {S : Type} (h : handler S).


(** The creation call comes first, and provisioning goes on with the
    indexes whatever the answer; a rejection only leaves a line on the
    console. *)
Lemma run_provision (sc : schema) (s : S) :
  run h (Table.provision sc) s =
  issued (creation_call sc)
    (match fst (h (creation_call sc) s) with
     | Resolved _ => run h (Table.provisionIndexes sc) (snd (h (creation_call sc) s))
     | Rejected e =>
         logged ("createCollection.error: " ++ message e)
                (run h (Table.provisionIndexes sc) (snd (h (creation_call sc) s)))
     end).
Proof.
  unfold Table.provision, Table.createCollection, creation_call, collection_name.
  simpl.
  destruct (fst (h (CreateCollection (or_else (name sc) (table sc)) (VObj (options sc))) s));
    reflexivity.
Qed.

Lemma run_provisionIndexes (sc : schema) (s : S) (c : string) :
  fst (h (Collection (collection_name sc)) s) = Resolved (VHandle c) ->
  run h (Table.provisionIndexes sc) s =
  issued (Collection (collection_name sc))
         (run h (index_steps (VHandle c) sc) (snd (h (Collection (collection_name sc)) s))).
Proof.
  intros H. unfold Table.provisionIndexes, collection_name in *. simpl.
  rewrite H. reflexivity.
Qed.

Lemma createTtlIndex_ok (c n : string) (o : value) :
  ttl_ok o = true ->
  Table.createTtlIndex (VHandle c) n o =
  await (CreateIndex c (VObj [(n, VNum 1)]) (default_arg o (VObj []))).
Proof.
  unfold ttl_ok, Table.createTtlIndex, assert, read.
  destruct (default_arg o (VObj [])) as [| | b | z | str | l | fs | nm] eqn:E;
    simpl; try discriminate;
    try (destruct b; simpl; discriminate);
    try (destruct (negb _); simpl; discriminate).
  destruct (lookup "expireAfterSeconds" fs) as [e |]; simpl; [| discriminate].
  intros He. rewrite He. reflexivity.
Qed.

Lemma createTtlIndex_fails (col : value) (n : string) (o : value) :
  ttl_ok o = false ->
  exists msg, Table.createTtlIndex col n o = Throw (AssertionError msg).
Proof.
  unfold ttl_ok, Table.createTtlIndex, assert, read.
  destruct (default_arg o (VObj [])) as [| | b | z | str | l | fs | nm] eqn:E;
    simpl; eauto.
  - destruct b; simpl; eauto.
  - destruct (negb (z =? 0)); simpl; eauto.
  - destruct (negb (String.eqb str "")); simpl; eauto.
  - destruct (lookup "expireAfterSeconds" fs) as [e |]; simpl; eauto.
    intros He. rewrite He. simpl. eauto.
Qed.

Lemma follows_createIndex (c n : string) (ty : value) (s : S) :
  follows (run h (Table.createIndex (VHandle c) n ty) s)
          [CreateIndex c (VObj [(n, ty)]) VUndefined].
Proof. apply follows_await. Qed.

Lemma follows_createTtlIndex (c n : string) (o : value) (s : S) :
  follows (run h (Table.createTtlIndex (VHandle c) n o) s)
          [CreateIndex c (VObj [(n, VNum 1)]) (default_arg o (VObj []))].
Proof.
  destruct (ttl_ok o) eqn:E.
  - rewrite (createTtlIndex_ok c n o E). apply follows_await.
  - destruct (createTtlIndex_fails (VHandle c) n o E) as [msg ->].
    apply follows_throw.
Qed.

(** Steps 2 to 4 keep to their calls. *)
Lemma follows_plain_steps {B : Type} (c : string) (sc : schema)
      (rest : prog B) (plan : list call) :
  (forall s, follows (run h rest s) plan) ->
  forall s,
    follows (run h (Table.createIndexes (VHandle c) (indices sc) ;;
                    Table.createCompoundIndexes (VHandle c) (compound sc) ;;
                    Table.createTextSearchIndexes (VHandle c) (text sc) ;;
                    rest)%prog s)
            (single_calls c sc ++ compound_calls c sc ++ text_calls c sc ++ plan).
Proof.
  intros Hrest s.
  apply follows_bind.
  { apply (follows_mapSeries h _
             (fun i => CreateIndex c (VObj [(i, VNum 1)]) VUndefined)).
    intros x s0. apply follows_createIndex. }
  intros _ s1. apply follows_bind.
  { apply (follows_mapSeries h _
             (fun fs => CreateIndex c
                (VObj (fold_left (fun result n => own_set n (VNum 1) result) fs []))
                VUndefined)).
    intros x s0. apply follows_await. }
  intros _ s2. apply follows_bind.
  { apply (follows_mapSeries h _
             (fun i => CreateIndex c (VObj [(i, VStr "text")]) VUndefined)).
    intros x s0. apply follows_createIndex. }
  intros _ s3. apply Hrest.
Qed.


Lemma yields_plain_steps {B : Type} (c : string) (sc : schema)
      (rest : prog B) (plan : list call) (o : outcome B) :
  indexes_succeed h ->
  (forall s, yields (run h rest s) plan o) ->
  forall s,
    yields (run h (Table.createIndexes (VHandle c) (indices sc) ;;
                   Table.createCompoundIndexes (VHandle c) (compound sc) ;;
                   Table.createTextSearchIndexes (VHandle c) (text sc) ;;
                   rest)%prog s)
           (single_calls c sc ++ compound_calls c sc ++ text_calls c sc ++ plan) o.
Proof.
  intros Hok Hrest s.
  destruct (yields_mapSeries h
              (fun index => Table.createIndex (VHandle c) index (VNum 1))
              (fun i => CreateIndex c (VObj [(i, VNum 1)]) VUndefined)
              (indices sc) Hok) with (s := s) as [v1 H1].
  { intros x _. do 3 eexists. split; reflexivity. }
  eapply yields_bind; [exact H1 |].
  destruct (yields_mapSeries h
              (fun index => Table.createCompoundIndex (VHandle c) index)
              (fun fs => CreateIndex c
                 (VObj (fold_left (fun result n => own_set n (VNum 1) result) fs []))
                 VUndefined)
              (compound sc) Hok)
    with (s := final (run h (Table.createIndexes (VHandle c) (indices sc)) s))
    as [v2 H2].
  { intros x _. do 3 eexists. split; reflexivity. }
  eapply yields_bind; [exact H2 |].
  destruct (yields_mapSeries h
              (fun index => Table.createIndex (VHandle c) index (VStr "text"))
              (fun i => CreateIndex c (VObj [(i, VStr "text")]) VUndefined)
              (text sc) Hok)
    with (s := final (run h (Table.createCompoundIndexes (VHandle c) (compound sc))
                 (final (run h (Table.createIndexes (VHandle c) (indices sc)) s))))
    as [v3 H3].
  { intros x _. do 3 eexists. split; reflexivity. }
  eapply yields_bind; [exact H3 |].
  apply Hrest.
Qed.

Lemma follows_index_steps (c : string) (sc : schema) (s : S) :
  follows (run h (index_steps (VHandle c) sc) s) (index_calls c sc (ttl sc)).
Proof.
  unfold index_steps, index_calls. apply follows_plain_steps. intros s0.
  rewrite <- (app_nil_r (ttl_calls c (ttl sc))).
  apply follows_bind; [| intros; apply follows_ret].
  apply (follows_mapSeries h _
           (fun io => CreateIndex c (VObj [(fst io, VNum 1)])
                                  (default_arg (snd io) (VObj [])))).
  intros x s1. apply follows_createTtlIndex.
Qed.

Lemma ttl_entries_ok (c : string) (entries : list (string * value)) :
  forallb (fun io => ttl_ok (snd io)) entries = true ->
  forall x, In x entries -> exists c0 keys opts,
    CreateIndex c (VObj [(fst x, VNum 1)]) (default_arg (snd x) (VObj []))
    = CreateIndex c0 keys opts
    /\ Table.createTtlIndex (VHandle c) (fst x) (snd x)
       = await (CreateIndex c (VObj [(fst x, VNum 1)]) (default_arg (snd x) (VObj []))).
Proof.
  intros Hall x Hx. rewrite forallb_forall in Hall.
  do 3 eexists. split; [reflexivity |].
  apply createTtlIndex_ok, (Hall x Hx).
Qed.

Lemma yields_index_steps (c : string) (sc : schema) (s : S) :
  indexes_succeed h ->
  forallb (fun io => ttl_ok (snd io)) (ttl sc) = true ->
  yields (run h (index_steps (VHandle c) sc) s) (index_calls c sc (ttl sc))
         (Returned (Table.mkBound (VHandle c) (table sc))).
Proof.
  intros Hok Hall. unfold index_steps, index_calls.
  apply yields_plain_steps; [exact Hok |]. intros s0.
  destruct (yields_mapSeries h
              (fun io => Table.createTtlIndex (VHandle c) (fst io) (snd io))
              (fun io => CreateIndex c (VObj [(fst io, VNum 1)])
                                     (default_arg (snd io) (VObj [])))
              (ttl sc) Hok (ttl_entries_ok c (ttl sc) Hall) s0) as [vs Hvs].
  rewrite <- (app_nil_r (ttl_calls c (ttl sc))).
  eapply yields_bind; [exact Hvs |]. split; reflexivity.
Qed.



(** The run of the whole sequence, once the collection is opened as [c]. *)
Lemma provision_opened (sc : schema) (s : S) (c : string) :
  opens h s sc c ->
  let r := run h (Table.provision sc) s in
  let r' := run h (index_steps (VHandle c) sc)
                (snd (h (Collection (collection_name sc))
                        (snd (h (creation_call sc) s)))) in
  calls r = creation_call sc :: Collection (collection_name sc) :: calls r'
  /\ res r = res r'.
Proof.
  intros Hopen. unfold opens in Hopen. cbv zeta. rewrite run_provision.
  destruct (fst (h (creation_call sc) s));
    rewrite (run_provisionIndexes sc _ c Hopen); split; reflexivity.
Qed.

End Provisioning.

(** C9. Provisioning is strictly sequential and in a fixed order: the calls
    it issues are an initial segment of the plan "create the collection,
    open it, one ascending index per [indices] entry in declaration order,
    the compound indexes, the text indexes, the TTL indexes"; they are the
    whole plan when provisioning returns, which it does when no index
    creation fails and every TTL entry is well formed; and each call is
    answered before the next is issued (the environment left behind is the
    one reached by serving the calls one after the other). *)
Theorem provisioning_is_sequential {S : Type} (h : handler S) (s : S)
        (sc : schema) (c : string) :
  opens h s sc c ->
  let r := run h (Table.provision sc) s in
  prefix_of (calls r) (provisioning_plan c sc)
  /\ (forall t, res r = Returned t -> calls r = provisioning_plan c sc)
  /\ final r = served h (calls r) s
  /\ (indexes_succeed h ->
      forallb (fun io => ttl_ok (snd io)) (ttl sc) = true ->
      res r = Returned (Table.mkBound (VHandle c) (table sc))
      /\ calls r = provisioning_plan c sc).
Proof.
  intros Hopen r.
  destruct (provision_opened h sc s c Hopen) as [Hc Hr].
  fold r in Hc, Hr.
  pose proof (follows_index_steps h c sc
                (snd (h (Collection (collection_name sc))
                        (snd (h (creation_call sc) s))))) as [Hp Hfull].
  unfold provisioning_plan, plan_upto.
  split; [| split; [| split]].
  - rewrite Hc. do 2 apply prefix_of_cons. exact Hp.
  - intros t Ht. rewrite Hc. do 2 f_equal. rewrite Hr in Ht.
    apply (Hfull t Ht).
  - apply run_served.
  - intros Hok Httl.
    destruct (yields_index_steps h c sc
                (snd (h (Collection (collection_name sc))
                        (snd (h (creation_call sc) s)))) Hok Httl) as [Hcs Hres].
    split; [rewrite Hr; exact Hres | rewrite Hc, Hcs; reflexivity].
Qed.

Lemma provisioning_is_sequential_witness :
  opens Mongo.mongo [] users "users"
  /\ calls (run Mongo.mongo (Table.provision users) [])
     = [CreateCollection (VStr "users") (VObj []);
        Collection (VStr "users");
        CreateIndex "users" (VObj [("email", VNum 1)]) VUndefined].
Proof.
  split; [reflexivity |].
  destruct (provisioning_is_sequential Mongo.mongo [] users "users" eq_refl)
    as (_ & Hfull & _).
  apply (Hfull (Table.mkBound (VHandle "users") VUndefined)). reflexivity.
Defined.

(** C3, as the code has it.  When collection creation is rejected, whatever
    the error, provisioning logs the error's message and goes on with the
    index steps exactly as it would have: the rejection is never passed on
    to the caller, and provisioning returns the table when the collection
    opens, no index creation fails and the TTL entries are well formed. *)
Theorem creation_failure_is_swallowed {S : Type} (h : handler S) (s : S)
        (sc : schema) (e : exn) :
  fst (h (creation_call sc) s) = Rejected e ->
  run h (Table.provision sc) s
  = issued (creation_call sc)
      (logged ("createCollection.error: " ++ message e)
         (run h (Table.provisionIndexes sc) (snd (h (creation_call sc) s))))
  /\ (forall c,
        opens h s sc c ->
        indexes_succeed h ->
        forallb (fun io => ttl_ok (snd io)) (ttl sc) = true ->
        res (run h (Table.provision sc) s)
        = Returned (Table.mkBound (VHandle c) (table sc))).
Proof.
  intros He. split.
  - rewrite run_provision, He. reflexivity.
  - intros c Hopen Hok Httl.
    destruct (provision_opened h sc s c Hopen) as [_ Hr]. rewrite Hr.
    apply (yields_index_steps h c sc _ Hok Httl).
Qed.

Lemma creation_failure_is_swallowed_witness :
  fst (refusing unauthorized (creation_call users) []) = Rejected unauthorized
  /\ run (refusing unauthorized) (Table.provision users) []
     = issued (creation_call users)
         (logged "createCollection.error: not authorized to create a collection"
            (run (refusing unauthorized) (Table.provisionIndexes users) [])).
Proof.
  split; [reflexivity |].
  apply (creation_failure_is_swallowed (refusing unauthorized) [] users
           unauthorized eq_refl).
Defined.

(** C3, counterexample.  Creation of [users] is refused with "not
    authorized", which is not the already-exists error: provisioning does
    not fail; it logs, creates the index and returns the table. *)
Lemma other_creation_failure_is_not_propagated :
  already_exists unauthorized = false
  /\ fst (refusing unauthorized (creation_call users) []) = Rejected unauthorized
  /\ res (run (refusing unauthorized) (Table.provision users) [])
     = Returned users_table
  /\ calls (run (refusing unauthorized) (Table.provision users) [])
     = [CreateCollection (VStr "users") (VObj []);
        Collection (VStr "users");
        CreateIndex "users" (VObj [("email", VNum 1)]) VUndefined]
  /\ ~ (forall (h : handler Mongo.store) (s : Mongo.store) (sc : schema) (e : exn),
          fst (h (creation_call sc) s) = Rejected e ->
          already_exists e = false ->
          res (run h (Table.provision sc) s) = Thrown e).
Proof.
  repeat split.
  intros H.
  specialize (H (refusing unauthorized) [] users unauthorized eq_refl eq_refl).
  discriminate H.
Qed.




(* ================================================================== *)
(** * Identifier checks *)
(* ================================================================== *)

Lemma calls_method_bind {S A : Type} (h : handler S) (s : S) (c : string)
      (m : string -> call) (k : value -> A) :
  calls (run h (v <- method (VHandle c) m ;; Ret (k v))%prog s) = [m c].
Proof.
  simpl. destruct (fst (h (m c) s)); reflexivity.
Qed.

(** C7, as the code has it.  With an empty (falsy) [id], [get] and [update]
    fail with the precondition failure "requires id" and issue no call.
    [has], [delete] and [set] make no such check: [has] and [delete] issue
    their query with the identifier as it is, and [set] falls back on the
    document's [id] property, [undefined] when there is none, and issues its
    replace call with it. *)
Theorem identifier_guard {S : Type} (h : handler S) (s : S)
        (c : string) (tb id : value) :
  truthy id = false ->
  let t := Table.mkBound (VHandle c) tb in
  run h (Table.get t id) s
  = mkResult (Thrown (AssertionError "requires id")) s [] []
  /\ (forall props opts,
        run h (Table.update t id props opts) s
        = mkResult (Thrown (AssertionError "requires id")) s [] [])
  /\ calls (run h (Table.has t id) s)
     = [FindOne c (VObj [("_id", id)])
                (VObj [("projection", VObj [("_id", VNum 1)])])]
  /\ calls (run h (Table.del t id) s) = [DeleteOne c (VObj [("_id", id)])]
  /\ (forall fields opts,
        calls (run h (Table.set t id (VObj fields) opts) s)
        = [ReplaceOne c
             (VObj [("_id", match lookup "id" fields with
                            | Some v => v
                            | None => VUndefined
                            end)])
             (VObj fields)
             (default_arg opts (VObj [("upsert", VBool true)]))]).
Proof.
  intros Hid t. repeat split.
  - unfold Table.get, assert. rewrite Hid. reflexivity.
  - intros props opts. unfold Table.update, assert. rewrite Hid. reflexivity.
  - unfold Table.has. apply calls_method_bind.
  - unfold Table.del. apply calls_method_bind.
  - intros fields opts. unfold Table.set. rewrite Hid. simpl.
    destruct (fst (h _ s)); reflexivity.
Qed.

Lemma identifier_guard_witness :
  truthy VUndefined = false
  /\ run Mongo.mongo (Table.get users_table VUndefined) two_users
     = mkResult (Thrown (AssertionError "requires id")) two_users [] [].
Proof.
  split; [reflexivity |].
  apply (identifier_guard Mongo.mongo two_users "users" VUndefined VUndefined eq_refl).
Defined.

(** C7, counterexample.  No identifier is resolvable from [has()],
    [delete()] or [set(undefined, {age: 40})], and none of them fails: each
    issues its call to the store and returns; [set] even stores a document,
    under the identifier [null]. *)
Lemma unresolved_identifier_reaches_the_store :
  truthy VUndefined = false
  /\ lookup "id" [("age", VNum 40)] = None
  /\ run Mongo.mongo (Table.has users_table VUndefined) two_users
     = mkResult (Returned (VBool false)) two_users
         [FindOne "users" (VObj [("_id", VUndefined)])
                  (VObj [("projection", VObj [("_id", VNum 1)])])] []
  /\ run Mongo.mongo (Table.del users_table VUndefined) two_users
     = mkResult (Returned (VObj [("_id", VUndefined); ("id", VUndefined)]))
         two_users
         [DeleteOne "users" (VObj [("_id", VUndefined)])] []
  /\ res (run Mongo.mongo
            (Table.set users_table VUndefined (VObj [("age", VNum 40)]) VUndefined)
            two_users)
     = Returned (VObj [("_id", VUndefined); ("age", VNum 40)])
  /\ calls (run Mongo.mongo
              (Table.set users_table VUndefined (VObj [("age", VNum 40)]) VUndefined)
              two_users)
     = [ReplaceOne "users" (VObj [("_id", VUndefined)]) (VObj [("age", VNum 40)])
                   (VObj [("upsert", VBool true)])]
  /\ Mongo.docs_of "users"
       (final (run Mongo.mongo
                 (Table.set users_table VUndefined (VObj [("age", VNum 40)]) VUndefined)
                 two_users))
     = [ann; bob; [("_id", VNull); ("age", VNum 40)]].
Proof.
  repeat split.
Qed.

(* ================================================================== *)
(** * Array fields *)
(* ================================================================== *)

(** C5.  [push] calls [updateOne] on the schema's [table] property.  Unless
    that property is itself a collection handle, the call is a [TypeError]
    once the three assertions have passed, and a precondition failure
    otherwise: [push] fails, issues no call and leaves the store as it
    was.  Nothing is added to the document. *)
Theorem push_never_reaches_the_collection {S : Type} (h : handler S) (s : S)
        (col tb id items : value) (key : string) :
  (forall c, tb <> VHandle c) ->
  let r := run h (Table.push (Table.mkBound col tb) id key items) s in
  (exists e, res r = Thrown e)
  /\ calls r = []
  /\ final r = s
  /\ (truthy id = true -> key <> "" -> isArray items = true ->
      exists msg, res r = Thrown (TypeError msg)).
Proof.
  intros Htb r. subst r. unfold Table.push, assert.
  destruct (truthy id); simpl; [| intuition (eauto; discriminate)].
  destruct (String.eqb_spec key ""); simpl; [intuition (eauto; discriminate) |].
  destruct (isArray items); simpl; [| intuition (eauto; discriminate)].
  destruct tb; simpl; try (intuition eauto; fail).
  exfalso. eapply Htb. reflexivity.
Qed.

Lemma push_never_reaches_the_collection_witness :
  (forall c, VUndefined <> VHandle c)
  /\ res (run Mongo.mongo
            (Table.push users_table (VStr "ann") "tags" (VArr [VStr "a"; VStr "b"]))
            two_users)
     = Thrown (TypeError "Cannot read properties of undefined or null")
  /\ calls (run Mongo.mongo
              (Table.push users_table (VStr "ann") "tags" (VArr [VStr "a"; VStr "b"]))
              two_users)
     = [].
Proof.
  split; [discriminate |]. split; [reflexivity |].
  apply (push_never_reaches_the_collection Mongo.mongo two_users
           (VHandle "users") VUndefined (VStr "ann")
           (VArr [VStr "a"; VStr "b"]) "tags").
  discriminate.
Defined.

(** The update [push] builds is the right one: issued on the collection's
    own handle it has the set semantics, [[a,b]] then [[a,c]] leaving
    [{a,b,c}]. *)
Example push_on_the_collection_handle :
  let t := Table.mkBound (VHandle "users") (VHandle "users") in
  let st1 := final (run Mongo.mongo
                      (Table.push t (VStr "ann") "tags" (VArr [VStr "a"; VStr "b"]))
                      two_users) in
  let st2 := final (run Mongo.mongo
                      (Table.push t (VStr "ann") "tags" (VArr [VStr "a"; VStr "c"]))
                      st1) in
  Mongo.docs_of "users" st2
  = [ann ++ [("tags", VArr [VStr "a"; VStr "b"; VStr "c"])]; bob].
Proof. reflexivity. Qed.

(* ================================================================== *)
(** * Bulk deletion and partial update *)
(* ================================================================== *)

(** C2.  [deleteAll] filters on [_id: { $all: ids }], which a document
    satisfies when its identifier equals every element of [ids].  With the
    two stored identifiers for [ids] it deletes nothing, where [getAll],
    which filters with [$in], finds both documents. *)
Theorem deleteAll_of_two_identifiers_deletes_nothing :
  let ids := VArr [VStr "ann"; VStr "bob"] in
  run Mongo.mongo (Table.deleteAll users_table ids) two_users
  = mkResult
      (Returned (VObj [("acknowledged", VBool true); ("deletedCount", VNum 0)]))
      two_users
      [DeleteMany "users" (VObj [("_id", VObj [("$all", ids)])])] []
  /\ res (run Mongo.mongo (Table.getAll users_table ids) two_users)
     = Returned (VArr [VObj ann; VObj bob])
  /\ Mongo.docs_of "users"
       (final (run Mongo.mongo (Table.deleteAll users_table (VArr [VStr "ann"]))
                   two_users))
     = [bob].
Proof. repeat split. Qed.

(** C6.  [update] asks for the updated document with [returnNewDocument],
    an option of the shell's [findOneAndUpdate] that the driver does not
    have; the driver hands back the document as it was before the update.
    The merge is applied to the stored document, and the caller gets the
    pre-merge one; for an identifier that was absent the upsert stores the
    new document and the caller gets [null]. *)
Theorem update_returns_the_document_before_the_merge :
  let r := run Mongo.mongo
             (Table.update users_table (VStr "ann") (VObj [("age", VNum 32)]) VUndefined)
             two_users in
  calls r
  = [FindOneAndUpdate "users" (VObj [("_id", VStr "ann")])
       (VObj [("$set", VObj [("age", VNum 32)])])
       (VObj [("upsert", VBool true); ("returnNewDocument", VBool true)])]
  /\ Mongo.docs_of "users" (final r)
     = [[("_id", VStr "ann"); ("age", VNum 32); ("created", VNum 3)]; bob]
  /\ res r = Returned (VObj [("_id", VStr "ann"); ("age", VNum 31); ("created", VNum 3)])
  /\ let r' := run Mongo.mongo
                 (Table.update users_table (VStr "cy") (VObj [("age", VNum 20)]) VUndefined)
                 two_users in
     Mongo.docs_of "users" (final r')
     = [ann; bob; [("_id", VStr "cy"); ("age", VNum 20)]]
     /\ res r' = Returned VNull.
Proof. repeat split. Qed.

(* ================================================================== *)
(** * The named collections of a store *)
(* ================================================================== *)

Lemma find_coll_put_same (c : string) (x : Mongo.collection) (st : Mongo.store) :
  Mongo.find_coll c (Mongo.put_coll c x st) = Some x.
Proof.
  induction st as [| [c' x'] st IH]; simpl.
  - rewrite String.eqb_refl. reflexivity.
  - destruct (String.eqb c c') eqn:E; simpl; rewrite ?String.eqb_refl, ?E; auto.
Qed.

Lemma find_coll_put_other (c c' : string) (x : Mongo.collection) (st : Mongo.store) :
  c' <> c ->
  Mongo.find_coll c' (Mongo.put_coll c x st) = Mongo.find_coll c' st.
Proof.
  intros Hne. induction st as [| [c0 x0] st IH]; simpl.
  - apply String.eqb_neq in Hne. rewrite Hne. reflexivity.
  - destruct (String.eqb c c0) eqn:E; simpl.
    + apply String.eqb_eq in E. subst c0.
      apply String.eqb_neq in Hne. rewrite Hne. reflexivity.
    + rewrite IH. reflexivity.
Qed.




(* ================================================================== *)
(** * Sorting and paging *)
(* ================================================================== *)

Lemma bson_compare_antisym (a b : option value) :
  Mongo.bson_compare a b = CompOpp (Mongo.bson_compare b a).
Proof.
  destruct a as [[| | x | x | x | x | x | x] |], b as [[| | y | y | y | y | y | y] |];
    simpl; try reflexivity.
  - destruct x, y; reflexivity.
  - apply Z.compare_antisym.
  - apply String.compare_antisym.
Qed.

Lemma not_ahead_desc (k : string) (y x : obj) :
  Mongo.ahead_desc k y x = false -> desc k x y.
Proof.
  unfold Mongo.ahead_desc, desc. rewrite (bson_compare_antisym (lookup k x)).
  destruct (Mongo.bson_compare (lookup k y) (lookup k x)); simpl; congruence.
Qed.

Lemma ahead_desc_desc (k : string) (y x : obj) :
  Mongo.ahead_desc k y x = true -> desc k y x.
Proof.
  unfold Mongo.ahead_desc, desc.
  destruct (Mongo.bson_compare (lookup k y) (lookup k x)); congruence.
Qed.

Lemma insert_sorted_HdRel (k : string) (a x : obj) (l : list obj) :
  desc k a x -> HdRel (desc k) a l ->
  HdRel (desc k) a (Mongo.insert_sorted (Mongo.ahead_desc k) x l).
Proof.
  intros Hax Hl. destruct l as [| y l]; simpl.
  - constructor. exact Hax.
  - destruct (Mongo.ahead_desc k y x); constructor.
    + inversion Hl; assumption.
    + exact Hax.
Qed.

Lemma insert_sorted_Sorted (k : string) (x : obj) (l : list obj) :
  Sorted (desc k) l ->
  Sorted (desc k) (Mongo.insert_sorted (Mongo.ahead_desc k) x l).
Proof.
  induction 1 as [| y l Hs IH Hhd]; simpl.
  - repeat constructor.
  - destruct (Mongo.ahead_desc k y x) eqn:E.
    + constructor; [exact IH |].
      apply insert_sorted_HdRel; [apply ahead_desc_desc, E | exact Hhd].
    + constructor; [constructor; assumption |].
      constructor. apply not_ahead_desc, E.
Qed.

Lemma sort_with_Sorted (k : string) (l : list obj) :
  Sorted (desc k) (Mongo.sort_with (Mongo.ahead_desc k) l).
Proof.
  induction l as [| x l IH]; simpl; [constructor |].
  apply insert_sorted_Sorted, IH.
Qed.

Lemma insert_sorted_In (ahead : obj -> obj -> bool) (x d : obj) (l : list obj) :
  In d (Mongo.insert_sorted ahead x l) -> d = x \/ In d l.
Proof.
  induction l as [| y l IH]; simpl.
  - intuition.
  - destruct (ahead y x); simpl; intuition.
Qed.

Lemma sort_with_In (ahead : obj -> obj -> bool) (d : obj) (l : list obj) :
  In d (Mongo.sort_with ahead l) -> In d l.
Proof.
  induction l as [| x l IH]; simpl; [tauto |].
  intros H. apply insert_sorted_In in H. intuition.
Qed.

Lemma Sorted_skipn {A : Type} (R : A -> A -> Prop) (n : nat) (l : list A) :
  Sorted R l -> Sorted R (skipn n l).
Proof.
  revert l. induction n as [| n IH]; intros l Hl; [exact Hl |].
  destruct l as [| x l]; [constructor |]. simpl.
  apply IH. inversion Hl; assumption.
Qed.

Lemma Sorted_firstn {A : Type} (R : A -> A -> Prop) (n : nat) (l : list A) :
  Sorted R l -> Sorted R (firstn n l).
Proof.
  revert n. induction l as [| x l IH]; intros n Hl.
  - rewrite firstn_nil. constructor.
  - destruct n as [| n]; [constructor |]. simpl.
    inversion Hl as [| ? ? Hs Hhd]; subst.
    constructor; [apply IH, Hs |].
    destruct l as [| y l]; [destruct n; constructor |].
    destruct n as [| n]; [constructor |]. simpl.
    constructor. inversion Hhd; assumption.
Qed.

Lemma In_firstn {A : Type} (n : nat) (l : list A) (x : A) :
  In x (firstn n l) -> In x l.
Proof.
  revert n. induction l as [| y l IH]; intros n.
  - rewrite firstn_nil. tauto.
  - destruct n; simpl; [tauto |]. intros [-> | H]; [left | right; eapply IH]; eauto.
Qed.

Lemma In_skipn {A : Type} (n : nat) (l : list A) (x : A) :
  In x (skipn n l) -> In x l.
Proof.
  revert l. induction n as [| n IH]; intros l; [tauto |].
  destruct l as [| y l]; simpl; [tauto |]. intros H. right. apply IH, H.
Qed.

(** What the store does with the options of [getBySortedBetween]. *)
Lemma find_docs_sorted_page (q : obj) (key : string) (skip limit : Z) (ds : list obj) :
  1 <= limit ->
  Mongo.find_docs q
    (VObj [("sort", VObj [(key, VNum (-1))]); ("skip", VNum skip); ("limit", VNum limit)])
    ds
  = firstn (Z.to_nat limit)
      (skipn (Z.to_nat skip)
         (Mongo.sort_with (Mongo.ahead_desc key) (filter (Mongo.matches q) ds))).
Proof.
  intros Hl. unfold Mongo.find_docs, Mongo.apply_limit, Mongo.apply_skip,
    Mongo.apply_sort, Mongo.apply_projection. simpl.
  destruct (limit =? 0) eqn:E; [apply Z.eqb_eq in E; lia |].
  rewrite Z.abs_eq by lia. apply map_id.
Qed.

(* ================================================================== *)
(** * Objects and filters *)
(* ================================================================== *)

Lemma lookup_app (k : string) (a b : obj) :
  lookup k (a ++ b) = match lookup k a with Some v => Some v | None => lookup k b end.
Proof.
  induction a as [| [k' v'] a IH]; simpl; [reflexivity |].
  destruct (String.eqb k k'); [reflexivity | exact IH].
Qed.

Lemma obj_set_fresh (k : string) (v : value) (o : obj) :
  lookup k o = None -> obj_set k v o = o ++ [(k, v)].
Proof.
  induction o as [| [k' v'] o IH]; simpl; [reflexivity |].
  destruct (String.eqb k k'); [discriminate |].
  intros H. rewrite (IH H). reflexivity.
Qed.

(** Spreading an object with distinct keys over properties it does not
    have appends it. *)
Lemma assign_disjoint (f acc : obj) :
  unique_keys f = true ->
  (forall k, lookup k f <> None -> lookup k acc = None) ->
  assign acc f = acc ++ f.
Proof.
  revert acc. induction f as [| [k v] f IH]; intros acc Hu Hd.
  - symmetry. apply app_nil_r.
  - simpl in Hu. destruct (lookup k f) eqn:Ek; [discriminate |].
    unfold assign. simpl. fold (assign (obj_set k v acc) f).
    assert (Hk : lookup k acc = None).
    { apply Hd. simpl. rewrite String.eqb_refl. discriminate. }
    rewrite (obj_set_fresh k v acc Hk), (IH (acc ++ [(k, v)]) Hu).
    + rewrite <- app_assoc. reflexivity.
    + intros k' Hk'. rewrite lookup_app.
      rewrite (Hd k').
      * simpl. destruct (String.eqb_spec k' k); [subst; congruence | reflexivity].
      * simpl. destruct (String.eqb k' k); [discriminate | exact Hk'].
Qed.

Lemma assign_nil (f : obj) : unique_keys f = true -> assign [] f = f.
Proof.
  intros Hu. apply (assign_disjoint f [] Hu). reflexivity.
Qed.

Lemma matches_app (f g d : obj) :
  Mongo.matches (f ++ g) d = Mongo.matches f d && Mongo.matches g d.
Proof. unfold Mongo.matches. apply forallb_app. Qed.

(** The filter [getBySortedBetween] sends, for a filter that has no entry
    of its own for the sort key. *)
Lemma range_filter_valid (f : obj) (key : string) (min max : Z) :
  Mongo.valid_filter (VObj f) = Some f ->
  Mongo.is_operator key = false ->
  Mongo.valid_filter (VObj (f ++ [(key, between min max)]))
  = Some (f ++ [(key, between min max)]).
Proof.
  unfold Mongo.valid_filter. simpl. intros Hf Hk.
  destruct (Mongo.valid_fields (map (fun kv => (fst kv, Mongo.to_bson (snd kv))) f))
    eqn:Ev; [| discriminate].
  injection Hf as Hmap. rewrite map_app, Hmap. rewrite Hmap in Ev.
  unfold Mongo.valid_fields in *. rewrite forallb_app, Ev. simpl.
  rewrite Hk. reflexivity.
Qed.

Lemma between_holds (min max n : Z) :
  Mongo.cond_holds (between min max) (Some (VNum n)) = true ->
  min <= n <= max.
Proof.
  unfold Mongo.cond_holds. simpl. unfold Mongo.op_holds. simpl.
  rewrite !orb_false_r, andb_true_r. intros H.
  apply andb_prop in H. destruct H as [H1 H2].
  apply Z.leb_le in H1, H2. lia.
Qed.

Lemma run_await {S : Type} (h : handler S) (c : call) (s : S) :
  run h (await c) s =
  match fst (h c s) with
  | Resolved v => mkResult (Returned v) (snd (h c s)) [c] []
  | Rejected e => mkResult (Thrown e) (snd (h c s)) [c] []
  end.
Proof.
  unfold await. simpl. destruct (fst (h c s)); reflexivity.
Qed.

(* ================================================================== *)
(** * Values in the store *)
(* ================================================================== *)


Lemma value_eqb_refl (v : value) : Mongo.value_eqb v v = true.
Proof.
  induction v as [| | b | n | s | l IH | o IH | c] using value_nested_ind;
    simpl; auto using Bool.eqb_reflx, Z.eqb_refl, String.eqb_refl.
  - induction IH as [| x xs Hx _ IHxs]; [reflexivity |].
    rewrite Hx. exact IHxs.
  - induction IH as [| [k x] xs Hx _ IHxs]; [reflexivity |].
    simpl in Hx. rewrite String.eqb_refl, Hx. exact IHxs.
Qed.

Lemma value_eqb_eq (a b : value) : Mongo.value_eqb a b = true -> a = b.
Proof.
  revert b.
  induction a as [| | x | x | x | l IH | o IH | x] using value_nested_ind;
    intros [| | y | y | y | l2 | o2 | y]; simpl; try discriminate; auto.
  - intros H. apply Bool.eqb_prop in H. congruence.
  - intros H. apply Z.eqb_eq in H. congruence.
  - intros H. apply String.eqb_eq in H. congruence.
  - intros H. f_equal. revert l2 H.
    induction IH as [| x xs Hx _ IHxs]; intros [| y ys] H;
      try discriminate; [reflexivity |].
    apply andb_prop in H. destruct H as [H1 H2].
    f_equal; [apply Hx, H1 | apply IHxs, H2].
  - intros H. f_equal. revert o2 H.
    induction IH as [| [k x] xs Hx _ IHxs]; intros [| [k2 y] ys] H;
      try discriminate; [reflexivity |].
    apply andb_prop in H. destruct H as [H1 H3].
    apply andb_prop in H1. destruct H1 as [H1 H2].
    apply String.eqb_eq in H1. simpl in Hx.
    f_equal; [f_equal; [exact H1 | apply Hx, H2] | apply IHxs, H3].
  - intros H. apply String.eqb_eq in H. congruence.
Qed.

(** BSON data is stored as it is. *)
Lemma to_bson_storable (v : value) : Mongo.storable v = true -> Mongo.to_bson v = v.
Proof.
  induction v as [| | b | n | s | l IH | o IH | c] using value_nested_ind;
    simpl; try reflexivity; try discriminate.
  - intros H. f_equal.
    induction IH as [| x xs Hx _ IHxs]; [reflexivity |].
    simpl in H. apply andb_prop in H. destruct H as [H1 H2].
    simpl. rewrite (Hx H1), (IHxs H2). reflexivity.
  - intros H. f_equal.
    induction IH as [| [k x] xs Hx _ IHxs]; [reflexivity |].
    simpl in H. apply andb_prop in H. destruct H as [H1 H2].
    simpl in Hx. simpl. rewrite (Hx H1), (IHxs H2). reflexivity.
Qed.

Lemma literal_storable (v : value) : literal v = true -> Mongo.storable v = true.
Proof.
  induction v as [| | b | n | s | l IH | o IH | c] using value_nested_ind;
    simpl; try reflexivity; try discriminate.
  - intros H. induction IH as [| x xs Hx _ IHxs]; [reflexivity |].
    simpl in *. apply andb_prop in H. destruct H as [H1 H2].
    rewrite (Hx H1), (IHxs H2). reflexivity.
  - intros H. induction IH as [| [k x] xs Hx _ IHxs]; [reflexivity |].
    simpl in *. apply andb_prop in H. destruct H as [H1 H2].
    apply andb_prop in H1. destruct H1 as [_ H1].
    rewrite (Hx H1), (IHxs H2). reflexivity.
Qed.

Lemma field_name_parts (k : string) :
  field_name k = true ->
  Mongo.is_operator k = false /\ is_array_index k = false.
Proof.
  unfold field_name. intros H.
  apply andb_prop in H. destruct H as [H H6].
  apply andb_prop in H. destruct H as [H _].
  apply andb_prop in H. destruct H as [_ H4].
  apply negb_true_iff in H4, H6. auto.
Qed.

Lemma literal_no_operator (v : value) :
  literal v = true -> Mongo.operator_expr v = None.
Proof.
  destruct v as [| | b | n | s | l | [| [k x] o] | c]; simpl; try reflexivity.
  intros H. apply andb_prop in H. destruct H as [H _].
  apply andb_prop in H. destruct H as [H _].
  destruct (field_name_parts k H) as [-> _]. reflexivity.
Qed.

Lemma literal_plain (v : value) : literal v = true -> plain v = true.
Proof.
  intros H. unfold plain.
  rewrite (literal_storable v H), (literal_no_operator v H). reflexivity.
Qed.

Lemma literal_identifier (i : value) :
  literal i = true -> isArray i = false -> identifier i = true.
Proof.
  intros H Ha. unfold identifier.
  rewrite (literal_storable i H), (literal_no_operator i H), Ha. reflexivity.
Qed.

Lemma equalities_no_operator_key (f : obj) :
  equalities f = true ->
  forallb (fun kv => negb (Mongo.is_operator (fst kv))) f = true.
Proof.
  unfold equalities. induction f as [| [k x] f IH]; simpl; [reflexivity |].
  intros H. apply andb_prop in H. destruct H as [H1 H2].
  apply andb_prop in H1. destruct H1 as [H1 _].
  destruct (field_name_parts k H1) as [-> _]. simpl. apply IH, H2.
Qed.

Lemma literal_document (d : obj) :
  unique_keys d = true -> literal (VObj d) = true -> document d = true.
Proof.
  intros Hu Hl. unfold document.
  rewrite Hu, (equalities_no_operator_key d Hl).
  apply (literal_storable (VObj d) Hl).
Qed.

(** The store understands a filter of equality conditions, and a document
    matches it when it agrees with it. *)
Lemma equalities_valid (f : obj) :
  equalities f = true -> Mongo.valid_filter (VObj f) = Some f.
Proof.
  intros H. unfold Mongo.valid_filter.
  rewrite (to_bson_storable (VObj f) (literal_storable (VObj f) H)).
  assert (Hv : Mongo.valid_fields f = true).
  { unfold Mongo.valid_fields, equalities in *.
    induction f as [| [k x] f IH]; simpl in *; [reflexivity |].
    apply andb_prop in H. destruct H as [H1 H2].
    apply andb_prop in H1. destruct H1 as [H1 H3].
    destruct (field_name_parts k H1) as [-> _].
    unfold Mongo.cond_valid. rewrite (literal_no_operator x H3). simpl.
    apply IH, H2. }
  rewrite Hv. reflexivity.
Qed.

Lemma equalities_matches (f d : obj) :
  equalities f = true -> Mongo.matches f d = agrees f d.
Proof.
  unfold Mongo.matches, agrees, equalities.
  induction f as [| [k x] f IH]; simpl; [reflexivity |].
  intros H. apply andb_prop in H. destruct H as [H1 H2].
  apply andb_prop in H1. destruct H1 as [_ H3].
  unfold Mongo.cond_holds at 1. rewrite (literal_no_operator x H3).
  rewrite (IH H2). reflexivity.
Qed.

(* ================================================================== *)
(** * Replacing and reading back a document *)
(* ================================================================== *)

Lemma obj_remove_idem (k : string) (o : obj) :
  obj_remove k (obj_remove k o) = obj_remove k o.
Proof.
  induction o as [| [k' v'] o IH]; simpl; [reflexivity |].
  destruct (String.eqb k k') eqn:E; simpl; [exact IH |].
  rewrite E, IH. reflexivity.
Qed.


(** [{_id: i, ...d}] is [d] with [_id: i] moved to the front, when [d]
    carries no other [_id]. *)
Lemma assign_onto_id (i : value) (d acc : obj) :
  unique_keys d = true ->
  (lookup "_id" d = None \/ lookup "_id" d = Some i) ->
  lookup "_id" acc = None ->
  (forall k, lookup k d <> None -> lookup k acc = None) ->
  assign (("_id", i) :: acc) d = ("_id", i) :: acc ++ obj_remove "_id" d.
Proof.
  revert acc. induction d as [| [k v] d IH]; intros acc Hu Hid Hacc Hd.
  - simpl. rewrite app_nil_r. reflexivity.
  - simpl in Hu. destruct (lookup k d) eqn:Ek; [discriminate |].
    unfold assign. simpl fold_left. fold (assign (obj_set k v (("_id", i) :: acc)) d).
    cbn [obj_set obj_remove]. cbn [lookup] in Hid.
    rewrite (String.eqb_sym k "_id").
    destruct (String.eqb "_id" k) eqn:E.
    + apply String.eqb_eq in E. subst k.
      assert (v = i) by (destruct Hid; congruence). subst v.
      change (assign (("_id", i) :: acc) d = ("_id", i) :: acc ++ obj_remove "_id" d).
      apply IH; auto.
      intros k' Hk'. apply Hd. cbn [lookup].
      destruct (String.eqb k' "_id"); [discriminate | exact Hk'].
    + assert (Hk : lookup k acc = None).
      { apply Hd. cbn [lookup]. rewrite String.eqb_refl. discriminate. }
      rewrite (obj_set_fresh k v acc Hk).
      change (assign (("_id", i) :: acc ++ [(k, v)]) d
              = ("_id", i) :: acc ++ (k, v) :: obj_remove "_id" d).
      rewrite (IH (acc ++ [(k, v)]) Hu Hid).
      * rewrite <- app_assoc. reflexivity.
      * rewrite lookup_app, Hacc. cbn [lookup]. rewrite E. reflexivity.
      * intros k' Hk'. rewrite lookup_app. rewrite (Hd k').
        -- cbn [lookup].
           destruct (String.eqb_spec k' k); [subst; congruence | reflexivity].
        -- cbn [lookup]. destruct (String.eqb k' k); [discriminate | exact Hk'].
Qed.

Lemma keeps_id_cases (i : value) (d : obj) :
  Mongo.keeps_id i d = true ->
  lookup "_id" d = None \/ lookup "_id" d = Some i.
Proof.
  unfold Mongo.keeps_id. destruct (lookup "_id" d) as [j |]; [| auto].
  intros H. right. f_equal. apply value_eqb_eq, H.
Qed.

Lemma spread_onto_id (i : value) (d : obj) :
  unique_keys d = true ->
  Mongo.keeps_id i d = true ->
  assign [("_id", i)] d = Mongo.with_id i d.
Proof.
  intros Hu Hk. apply (assign_onto_id i d [] Hu (keeps_id_cases i d Hk)); reflexivity.
Qed.

Lemma identifier_parts (i : value) :
  identifier i = true ->
  Mongo.storable i = true /\ isArray i = false
  /\ Mongo.operator_expr i = None.
Proof.
  unfold identifier. intros H.
  apply andb_prop in H. destruct H as [H H3].
  apply andb_prop in H. destruct H as [H1 H2].
  apply negb_true_iff in H2.
  destruct (Mongo.operator_expr i); [discriminate | auto].
Qed.

Lemma id_filter_valid (i : value) :
  identifier i = true ->
  Mongo.valid_filter (VObj [("_id", i)]) = Some [("_id", i)].
Proof.
  intros H. destruct (identifier_parts i H) as (Hs & _ & Ho).
  unfold Mongo.valid_filter. simpl. rewrite (to_bson_storable i Hs).
  unfold Mongo.valid_fields, Mongo.cond_valid. simpl. rewrite Ho. reflexivity.
Qed.

Lemma matches_id (i : value) (d : obj) :
  identifier i = true ->
  Mongo.matches [("_id", i)] d = Mongo.eq_match (lookup "_id" d) i.
Proof.
  intros H. destruct (identifier_parts i H) as (_ & _ & Ho).
  unfold Mongo.matches, Mongo.cond_holds. simpl. rewrite Ho. apply andb_true_r.
Qed.

Lemma matches_with_id (i : value) (d : obj) :
  identifier i = true -> Mongo.matches [("_id", i)] (Mongo.with_id i d) = true.
Proof.
  intros H. rewrite (matches_id i _ H). unfold Mongo.with_id. simpl.
  rewrite value_eqb_refl. reflexivity.
Qed.

(** A document found under a non-empty identifier has that identifier. *)
Lemma matches_id_inv (i : value) (d : obj) :
  identifier i = true -> truthy i = true ->
  isArray (Mongo.doc_id d) = false ->
  Mongo.matches [("_id", i)] d = true ->
  Mongo.doc_id d = i.
Proof.
  intros H Ht Ha. rewrite (matches_id i d H).
  unfold Mongo.doc_id in *. unfold Mongo.eq_match.
  destruct (lookup "_id" d) as [v |].
  - intros Hm. apply orb_prop in Hm. destruct Hm as [Hm | Hm].
    + apply value_eqb_eq, Hm.
    + destruct v; simpl in *; discriminate.
  - intros Hm. apply value_eqb_eq in Hm. subst i. discriminate.
Qed.

Lemma has_id_matches (i : value) (d : obj) :
  identifier i = true ->
  Mongo.has_id i d = true -> Mongo.matches [("_id", i)] d = true.
Proof.
  intros H. rewrite (matches_id i d H). unfold Mongo.has_id, Mongo.eq_match.
  destruct (lookup "_id" d); [| discriminate].
  intros ->. reflexivity.
Qed.

Lemma find_replace_first (p : obj -> bool) (f : obj -> obj) (ds : list obj) (d : obj) :
  List.find p ds = Some d -> p (f d) = true ->
  List.find p (Mongo.replace_first p f ds) = Some (f d).
Proof.
  induction ds as [| x ds IH]; simpl; [discriminate |].
  destruct (p x) eqn:E; simpl.
  - intros [= ->] Hp. rewrite Hp. reflexivity.
  - intros Hf Hp. rewrite E. apply IH; assumption.
Qed.

Lemma find_app_new (p : obj -> bool) (ds : list obj) (x : obj) :
  List.find p ds = None -> p x = true -> List.find p (ds ++ [x]) = Some x.
Proof.
  induction ds as [| y ds IH]; simpl.
  - intros _ ->. reflexivity.
  - destruct (p y); [discriminate | exact IH].
Qed.

Lemma existsb_not_found (p q : obj -> bool) (ds : list obj) :
  List.find p ds = None ->
  (forall d, q d = true -> p d = true) ->
  existsb q ds = false.
Proof.
  intros Hf Hpq. induction ds as [| y ds IH]; simpl in *; [reflexivity |].
  destruct (p y) eqn:E; [discriminate |].
  rewrite (IH Hf), orb_false_r.
  destruct (q y) eqn:Eq; [| reflexivity].
  rewrite (Hpq y Eq) in E. discriminate.
Qed.

Lemma no_operator_keys (d : obj) :
  forallb (fun kv => negb (Mongo.is_operator (fst kv))) d = true ->
  existsb (fun kv => Mongo.is_operator (fst kv)) d = false.
Proof.
  induction d as [| kv d IH]; simpl; [reflexivity |].
  intros H. apply andb_prop in H. destruct H as [H1 H2].
  apply negb_true_iff in H1. rewrite H1, (IH H2). reflexivity.
Qed.

Lemma docs_of_put (c : string) (x : Mongo.collection) (st : Mongo.store) :
  Mongo.docs_of c (Mongo.put_coll c x st) = Mongo.c_docs x.
Proof.
  unfold Mongo.docs_of, Mongo.the_coll. rewrite find_coll_put_same. reflexivity.
Qed.

(** An upserting replace under a non-empty identifier succeeds, and the
    first document then found under that identifier is the replacement
    with its [_id] in front. *)
Lemma replaceOne_upsert (st : Mongo.store) (c : string) (i : value) (d : obj) :
  truthy i = true ->
  identifier i = true ->
  document d = true ->
  Mongo.keeps_id i d = true ->
  ids_ok (Mongo.docs_of c st) = true ->
  exists v st',
    Mongo.replaceOne c (VObj [("_id", i)]) (VObj d) (VObj [("upsert", VBool true)]) st
    = (Resolved v, st')
    /\ List.find (Mongo.matches [("_id", i)]) (Mongo.docs_of c st')
       = Some (Mongo.with_id i d).
Proof.
  intros Ht Hi Hd Hk Hids.
  destruct (identifier_parts i Hi) as (Hs & Ha & Ho).
  unfold document in Hd.
  apply andb_prop in Hd. destruct Hd as [Hd Hst].
  apply andb_prop in Hd. destruct Hd as [Hu Hops].
  unfold Mongo.replaceOne.
  rewrite (id_filter_valid i Hi), (to_bson_storable (VObj d) Hst),
    (no_operator_keys d Hops).
  cbv zeta.
  destruct (List.find (Mongo.matches [("_id", i)]) (Mongo.c_docs (Mongo.the_coll c st)))
    as [d0 |] eqn:Ef.
  - assert (Hd0 : Mongo.doc_id d0 = i).
    { destruct (find_some _ _ Ef) as [Hin Hm].
      apply matches_id_inv; auto.
      unfold ids_ok in Hids. rewrite forallb_forall in Hids.
      apply negb_true_iff, (Hids d0 Hin). }
    rewrite Hd0, Hk. do 2 eexists. split; [reflexivity |].
    rewrite docs_of_put. simpl Mongo.c_docs.
    rewrite (find_replace_first _ (fun d1 => Mongo.with_id (Mongo.doc_id d1) d) _ d0 Ef).
    + rewrite Hd0. reflexivity.
    + rewrite Hd0. apply matches_with_id, Hi.
  - simpl truthy. cbv iota.
    assert (Hfid : Mongo.filter_id [("_id", i)] = Some i).
    { unfold Mongo.filter_id. simpl. rewrite Ho. reflexivity. }
    rewrite Hfid, Hk.
    unfold Mongo.insert_doc. cbv zeta.
    assert (Hl : lookup "_id" (Mongo.with_id i d) = Some i) by reflexivity.
    rewrite Hl, Ha.
    rewrite (existsb_not_found (Mongo.matches [("_id", i)]) (Mongo.has_id i) _ Ef
               (fun d1 => has_id_matches i d1 Hi)).
    do 2 eexists. split; [reflexivity |].
    rewrite docs_of_put. simpl Mongo.c_docs.
    assert (Hw : Mongo.with_id i (Mongo.with_id i d) = Mongo.with_id i d).
    { unfold Mongo.with_id. simpl. rewrite obj_remove_idem. reflexivity. }
    rewrite Hw. apply find_app_new; [exact Ef | apply matches_with_id, Hi].
Qed.

(** C1, as the code has it.  Let [i] be a non-empty (truthy) identifier
    that is plain data and not an array, and [d] a document of plain data
    that carries no [_id] other than [i]; plain data being [null],
    booleans, integers, strings, and arrays and objects of plain data whose
    field names are not empty, have no dot, do not start with [$] and are
    not array indexes.  On a collection none of whose documents has an
    array for [_id], [set(i, d)] issues one [replaceOne] with
    [{upsert: true}], returns [{_id: i, ...d}], and a following [get(i)]
    returns a document equal to it. *)
Theorem set_then_get (st : Mongo.store) (c : string) (tb i : value) (d : obj) :
  truthy i = true ->
  literal i = true ->
  isArray i = false ->
  unique_keys d = true ->
  literal (VObj d) = true ->
  Mongo.keeps_id i d = true ->
  ids_ok (Mongo.docs_of c st) = true ->
  let t := Table.mkBound (VHandle c) tb in
  let r := run Mongo.mongo (Table.set t i (VObj d) VUndefined) st in
  res r = Returned (VObj (assign [("_id", i)] d))
  /\ calls r = [ReplaceOne c (VObj [("_id", i)]) (VObj d) (VObj [("upsert", VBool true)])]
  /\ run Mongo.mongo (Table.get t i) (final r)
     = mkResult (Returned (VObj (assign [("_id", i)] d))) (final r)
         [FindOne c (VObj [("_id", i)]) VUndefined] [].
Proof.
  intros Ht Hl Ha Hu Hld Hk Hids t r.
  pose proof (literal_identifier i Hl Ha) as Hi.
  pose proof (literal_document d Hu Hld) as Hd.
  destruct (replaceOne_upsert st c i d Ht Hi Hd Hk Hids) as (v & st' & Hr & Hfind).
  assert (Hset :
    Table.set t i (VObj d) VUndefined
    = (_ <- await (ReplaceOne c (VObj [("_id", i)]) (VObj d)
                              (VObj [("upsert", VBool true)])) ;;
       Ret (VObj (assign [("_id", i)] d)))%prog).
  { unfold Table.set. rewrite Ht. reflexivity. }
  assert (Hrun : r = mkResult (Returned (VObj (assign [("_id", i)] d))) st'
                       [ReplaceOne c (VObj [("_id", i)]) (VObj d)
                                   (VObj [("upsert", VBool true)])] []).
  { subst r. rewrite Hset, run_bind, run_await.
    change (Mongo.mongo (ReplaceOne c ?f ?p ?o) st) with (Mongo.replaceOne c f p o st).
    rewrite Hr. reflexivity. }
  rewrite Hrun. cbn [res calls final].
  split; [reflexivity | split; [reflexivity |]].
  assert (Hget : Table.get t i = await (FindOne c (VObj [("_id", i)]) VUndefined)).
  { unfold Table.get, assert. rewrite Ht. reflexivity. }
  rewrite Hget, run_await.
  change (Mongo.mongo (FindOne c ?f ?o) st') with (Mongo.findOne c f o st').
  unfold Mongo.findOne. rewrite (id_filter_valid i Hi), Hfind.
  rewrite (spread_onto_id i d Hu Hk). reflexivity.
Qed.

Lemma set_then_get_witness :
  truthy (VStr "cy") = true
  /\ literal (VStr "cy") = true
  /\ isArray (VStr "cy") = false
  /\ unique_keys [("age", VNum 20)] = true
  /\ literal (VObj [("age", VNum 20)]) = true
  /\ Mongo.keeps_id (VStr "cy") [("age", VNum 20)] = true
  /\ ids_ok (Mongo.docs_of "users" two_users) = true
  /\ res (run Mongo.mongo
            (Table.set users_table (VStr "cy") (VObj [("age", VNum 20)]) VUndefined)
            two_users)
     = Returned (VObj [("_id", VStr "cy"); ("age", VNum 20)]).
Proof.
  repeat (split; [reflexivity |]).
  apply (set_then_get two_users "users" VUndefined (VStr "cy") [("age", VNum 20)]
           eq_refl eq_refl eq_refl eq_refl eq_refl eq_refl eq_refl).
Defined.

(** C1, counterexample.  For the identifier 0, which is empty (falsy),
    [set(0, {age: 20})] does not store under 0: it takes the identifier
    from the document's [id] property, of which there is none; and [get(0)]
    fails its assertion, so that it does not return [{_id: 0, age: 20}].
    And for a document that carries another [_id] than the identifier, the
    store refuses the replacement, which would alter [_id]: [set] fails and
    [get] returns the document that was there. *)
Lemma set_then_get_fails_for_an_empty_identifier :
  let r := run Mongo.mongo
             (Table.set users_table (VNum 0) (VObj [("age", VNum 20)]) VUndefined)
             two_users in
  let r' := run Mongo.mongo
              (Table.set users_table (VStr "ann") (VObj [("_id", VStr "bob")]) VUndefined)
              two_users in
  identifier (VNum 0) = true
  /\ truthy (VNum 0) = false
  /\ calls r
     = [ReplaceOne "users" (VObj [("_id", VUndefined)]) (VObj [("age", VNum 20)])
                   (VObj [("upsert", VBool true)])]
  /\ run Mongo.mongo (Table.get users_table (VNum 0)) (final r)
     = mkResult (Thrown (AssertionError "requires id")) (final r) [] []
  /\ res (run Mongo.mongo (Table.get users_table (VNum 0)) (final r))
     <> Returned (VObj (assign [("_id", VNum 0)] [("age", VNum 20)]))
  /\ res r'
     = Thrown (MongoError 66 "The (immutable) field _id was found to have been altered")
  /\ res (run Mongo.mongo (Table.get users_table (VStr "ann")) (final r'))
     = Returned (VObj ann).
Proof.
  repeat split; discriminate.
Qed.

(* ================================================================== *)
(** * Sorted range queries and deletion by filter *)
(* ================================================================== *)

Lemma docs_of_set_docs (c : string) (ds : list obj) (st : Mongo.store) :
  (Mongo.find_coll c st = None -> ds = []) ->
  Mongo.docs_of c (Mongo.set_docs c ds st) = ds.
Proof.
  intros H. unfold Mongo.set_docs.
  destruct (Mongo.find_coll c st) as [x |] eqn:E.
  - apply docs_of_put.
  - unfold Mongo.docs_of, Mongo.the_coll. rewrite E. symmetry. apply H. reflexivity.
Qed.

Lemma docs_of_missing (c : string) (st : Mongo.store) :
  Mongo.find_coll c st = None -> Mongo.docs_of c st = [].
Proof.
  intros H. unfold Mongo.docs_of, Mongo.the_coll. rewrite H. reflexivity.
Qed.

Lemma insert_sorted_Permutation (ahead : obj -> obj -> bool) (x : obj) (l : list obj) :
  Permutation (Mongo.insert_sorted ahead x l) (x :: l).
Proof.
  induction l as [| y l IH]; simpl; [apply Permutation_refl |].
  destruct (ahead y x); [| apply Permutation_refl].
  apply Permutation_trans with (y :: x :: l);
    [apply perm_skip, IH | apply perm_swap].
Qed.

Lemma sort_with_Permutation (ahead : obj -> obj -> bool) (l : list obj) :
  Permutation (Mongo.sort_with ahead l) l.
Proof.
  induction l as [| x l IH]; simpl; [apply Permutation_refl |].
  apply Permutation_trans with (x :: Mongo.sort_with ahead l);
    [apply insert_sorted_Permutation | apply perm_skip, IH].
Qed.

(** On a value that is not an array, the condition
    [{ $lte: max, $gte: min }] holds of the numbers of the closed range and
    of nothing else. *)
Lemma between_in_range (key : string) (min max : Z) (d : obj) :
  no_array_under key d = true ->
  Mongo.cond_holds (between min max) (lookup key d) = in_range key min max d.
Proof.
  unfold no_array_under, in_range, Mongo.cond_holds.
  destruct (lookup key d) as [[| | b | n | x | l | o | nm] |];
    try discriminate; intros _; simpl; unfold Mongo.op_holds; simpl;
    try reflexivity.
  rewrite !orb_false_r, andb_true_r. apply andb_comm.
Qed.

(** C8, as the code has it.  Let the filter be an object, or omitted, with
    no entry of its own for the sort key, the sort key not being an array
    index, and the numeric arguments integers.  When the bounds hold,
    [getBySortedBetween] issues exactly one [find], in every environment:
    its query is the filter extended by [{ [sortKey]: { $lte: max, $gte:
    min } }], its options ask for a descending sort on the sort key, [skip]
    and [limit]; and it returns the answer.  On the store, when the filter
    consists of equality conditions on top-level fields, the sort key is
    the name of a top-level field and no document of the collection has an
    array under it, the answer is a page of the documents that agree with
    the filter and whose sort-key value is a number of [[min, max]]: these
    documents in some descending order of the sort key, less the first
    [skip] of them, [limit] at most.  When a bound is violated the call
    fails with a precondition failure, in every environment, without
    issuing a call. *)
Theorem getBySortedBetween_selects_sorts_and_pages
        (c : string) (tb filter : value) (f : obj) (now : Z)
        (max min skip limit : option Z) (sortKey : option string) :
  let mx := match max with Some m => m | None => now end in
  let mn := match min with Some m => m | None => 0 end in
  let sk := match skip with Some m => m | None => 0 end in
  let lm := match limit with Some m => m | None => 100 end in
  let key := match sortKey with Some k => k | None => "created" end in
  let t := Table.mkBound (VHandle c) tb in
  let query :=
    Find c (VObj (f ++ [(key, between mn mx)]))
           (VObj [("sort", VObj [(key, VNum (-1))]);
                  ("skip", VNum sk); ("limit", VNum lm)]) in
  default_arg filter (VObj []) = VObj f ->
  unique_keys f = true ->
  lookup key f = None ->
  is_array_index key = false ->
  (bounds_ok mx mn sk lm = true ->
   (forall (S : Type) (h : handler S) (s : S),
      run h (Table.getBySortedBetween t now filter max min skip limit sortKey) s
      = mkResult (match fst (h query s) with
                  | Resolved v => Returned v
                  | Rejected e => Thrown e
                  end)
                 (snd (h query s)) [query] [])
   /\ (forall st : Mongo.store,
         equalities f = true ->
         field_name key = true ->
         forallb (no_array_under key) (Mongo.docs_of c st) = true ->
         exists l,
           Permutation l
             (List.filter (fun d => agrees f d && in_range key mn mx d)
                          (Mongo.docs_of c st))
           /\ Sorted (desc key) l
           /\ run Mongo.mongo
                (Table.getBySortedBetween t now filter max min skip limit sortKey) st
              = mkResult
                  (Returned (VArr (map VObj
                     (firstn (Z.to_nat lm) (skipn (Z.to_nat sk) l)))))
                  st [query] []))
  /\ (bounds_ok mx mn sk lm = false ->
      forall (S : Type) (h : handler S) (s : S),
      exists msg,
        run h (Table.getBySortedBetween t now filter max min skip limit sortKey) s
        = mkResult (Thrown (AssertionError msg)) s [] []).
Proof.
  intros mx mn sk lm key t query Hf Hu Hk Hidx. split.
  - intros Hb.
    unfold bounds_ok in Hb.
    apply andb_prop in Hb. destruct Hb as [Hb Hlm].
    apply andb_prop in Hb. destruct Hb as [Hb Hsk].
    apply andb_prop in Hb. destruct Hb as [Hmx Hmn].
    assert (Hrun :
      Table.getBySortedBetween t now filter max min skip limit sortKey
      = await query).
    { unfold Table.getBySortedBetween, assert. fold mx mn sk lm key.
      rewrite Hf. simpl truthy. rewrite Hmx, Hmn, Hsk, Hlm. simpl.
      rewrite (assign_nil f Hu), (obj_set_fresh key _ f Hk). reflexivity. }
    split.
    + intros S h s. rewrite Hrun, run_await.
      destruct (fst (h query s)); reflexivity.
    + intros st Heq Hkey Harr.
      destruct (field_name_parts key Hkey) as [Hop _].
      exists (Mongo.sort_with (Mongo.ahead_desc key)
                (List.filter (Mongo.matches (f ++ [(key, between mn mx)]))
                             (Mongo.docs_of c st))).
      split; [| split].
      * eapply Permutation_trans; [apply sort_with_Permutation |].
        assert (E : List.filter (Mongo.matches (f ++ [(key, between mn mx)]))
                                (Mongo.docs_of c st)
                    = List.filter (fun d => agrees f d && in_range key mn mx d)
                                  (Mongo.docs_of c st)).
        { apply filter_ext_in. intros d Hd.
          rewrite forallb_forall in Harr.
          rewrite matches_app, (equalities_matches f d Heq).
          f_equal. unfold Mongo.matches. cbn [forallb fst snd].
          rewrite andb_true_r. apply between_in_range, Harr, Hd. }
        rewrite E. apply Permutation_refl.
      * apply sort_with_Sorted.
      * rewrite Hrun, run_await. subst query.
        change (Mongo.mongo (Find c ?q ?o) st) with (Mongo.find_toArray c q o st).
        unfold Mongo.find_toArray.
        rewrite (range_filter_valid f key mn mx (equalities_valid f Heq) Hop).
        cbn [fst snd].
        rewrite find_docs_sorted_page by (apply Z.geb_le in Hlm; lia).
        reflexivity.
  - intros Hb S h s.
    unfold Table.getBySortedBetween, assert. fold mx mn sk lm key.
    rewrite Hf. simpl truthy. unfold bounds_ok in Hb.
    destruct (mx >? 0); simpl; [| eauto].
    destruct (mn >=? 0); simpl; [| eauto].
    destruct (sk >=? 0); simpl; [| eauto].
    destruct (lm >=? 1); simpl; [discriminate | eauto].
Qed.

Lemma getBySortedBetween_selects_sorts_and_pages_witness :
  default_arg (VObj [("age", VNum 27)]) (VObj []) = VObj [("age", VNum 27)]
  /\ unique_keys [("age", VNum 27)] = true
  /\ lookup "created" [("age", VNum 27)] = None
  /\ is_array_index "created" = false
  /\ bounds_ok 10 0 0 100 = true
  /\ equalities [("age", VNum 27)] = true
  /\ field_name "created" = true
  /\ forallb (no_array_under "created") (Mongo.docs_of "users" two_users) = true
  /\ exists l,
       Permutation l [bob]
       /\ run Mongo.mongo
            (Table.getBySortedBetween users_table 50 (VObj [("age", VNum 27)])
               (Some 10) None None None None) two_users
          = mkResult (Returned (VArr (map VObj (firstn 100 (skipn 0 l))))) two_users
              [Find "users"
                 (VObj [("age", VNum 27);
                        ("created", VObj [("$lte", VNum 10); ("$gte", VNum 0)])])
                 (VObj [("sort", VObj [("created", VNum (-1))]);
                        ("skip", VNum 0); ("limit", VNum 100)])] [].
Proof.
  repeat (split; [reflexivity |]).
  destruct (getBySortedBetween_selects_sorts_and_pages "users" VUndefined
              (VObj [("age", VNum 27)]) [("age", VNum 27)] 50
              (Some 10) None None None None
              eq_refl eq_refl eq_refl eq_refl) as [H _].
  destruct (H eq_refl) as [_ HB].
  destruct (HB two_users eq_refl eq_refl eq_refl) as (l & Hp & _ & Hr).
  exists l. split; [exact Hp | exact Hr].
Defined.

(** C8, counterexample.  The filter [{created: 7}] has an entry for the
    sort key, which the range condition replaces in the query: with bounds
    that hold, the call returns [ann] as well, whose [created] is 3 and who
    does not match the filter. *)
Lemma filter_on_the_sort_key_is_replaced :
  bounds_ok 10 0 0 100 = true
  /\ Mongo.matches [("created", VNum 7)] ann = false
  /\ run Mongo.mongo
       (Table.getBySortedBetween users_table 50 (VObj [("created", VNum 7)])
          (Some 10) (Some 0) (Some 0) (Some 100) (Some "created")) two_users
     = mkResult (Returned (VArr [VObj bob; VObj ann])) two_users
         [Find "users"
            (VObj [("created", VObj [("$lte", VNum 10); ("$gte", VNum 0)])])
            (VObj [("sort", VObj [("created", VNum (-1))]);
                   ("skip", VNum 0); ("limit", VNum 100)])] []
  /\ List.filter (selected [("created", VNum 7)] "created" 0 10)
                 (Mongo.docs_of "users" two_users)
     = [bob].
Proof. repeat split. Qed.

(** C10.  For every filter and in every environment, [drop(filter)] issues
    exactly one call, a [deleteMany] on the collection with the filter as
    it was given ([{}] when called without argument), and returns its
    answer: whatever documents the store's [deleteMany] removes for that
    filter, [drop] removes them and nothing else, and no call removes the
    collection or an index.  On the store, for every filter, the collection
    is still there afterwards with its options and its indexes, and the
    other collections are untouched; for a filter of equality conditions
    the documents left are those that do not agree with it; and with no
    argument no document is left. *)
Theorem drop_deletes_the_matching_documents {S : Type} (h : handler S) (s : S)
        (c : string) (tb q : value) :
  let t := Table.mkBound (VHandle c) tb in
  let k := DeleteMany c (default_arg q (VObj [])) in
  run h (Table.drop t q) s
  = mkResult (match fst (h k s) with
              | Resolved v => Returned v
              | Rejected e => Thrown e
              end)
             (snd (h k s)) [k] []
  /\ (forall (docs : S -> list obj) (sat : obj -> bool),
        docs (snd (h k s)) = List.filter (fun d => negb (sat d)) (docs s) ->
        docs (final (run h (Table.drop t q) s))
        = List.filter (fun d => negb (sat d)) (docs s))
  /\ (forall st : Mongo.store,
        let r := run Mongo.mongo (Table.drop t q) st in
        (forall x, Mongo.find_coll c st = Some x ->
           exists x',
             Mongo.find_coll c (final r) = Some x'
             /\ Mongo.c_options x' = Mongo.c_options x
             /\ Mongo.c_indexes x' = Mongo.c_indexes x)
        /\ (forall c', c' <> c -> Mongo.find_coll c' (final r) = Mongo.find_coll c' st)
        /\ (forall f, default_arg q (VObj []) = VObj f -> equalities f = true ->
              Mongo.docs_of c (final r)
              = List.filter (fun d => negb (agrees f d)) (Mongo.docs_of c st))
        /\ (q = VUndefined -> Mongo.docs_of c (final r) = [])).
Proof.
  intros t k.
  assert (Hrun : forall (S' : Type) (h' : handler S') (s' : S'),
            run h' (Table.drop t q) s'
            = mkResult (match fst (h' k s') with
                        | Resolved v => Returned v
                        | Rejected e => Thrown e
                        end)
                       (snd (h' k s')) [k] []).
  { intros S' h' s'.
    change (Table.drop t q) with (await k). rewrite run_await.
    destruct (fst (h' k s')); reflexivity. }
  split; [apply Hrun | split].
  - intros docs sat Hd. rewrite Hrun. exact Hd.
  - intros st r. subst r. rewrite Hrun. cbn [final].
    change (Mongo.mongo k st) with (Mongo.deleteMany c (default_arg q (VObj [])) st).
    assert (Hfinal : forall f,
              Mongo.valid_filter (default_arg q (VObj [])) = Some f ->
              snd (Mongo.deleteMany c (default_arg q (VObj [])) st)
              = Mongo.set_docs c
                  (List.filter (fun d => negb (Mongo.matches f d)) (Mongo.docs_of c st)) st).
    { intros f Hv. unfold Mongo.deleteMany. rewrite Hv. reflexivity. }
    split; [| split; [| split]].
    + intros x Hx. unfold Mongo.deleteMany.
      destruct (Mongo.valid_filter (default_arg q (VObj []))) as [f |]; cbn [snd].
      * unfold Mongo.set_docs. rewrite Hx. eexists.
        split; [apply find_coll_put_same | split; reflexivity].
      * exists x. split; [exact Hx | split; reflexivity].
    + intros c' Hne. unfold Mongo.deleteMany.
      destruct (Mongo.valid_filter (default_arg q (VObj []))) as [f |]; cbn [snd];
        [| reflexivity].
      unfold Mongo.set_docs.
      destruct (Mongo.find_coll c st); [| reflexivity].
      apply find_coll_put_other, Hne.
    + intros f Hq Heq.
      rewrite (Hfinal f) by (rewrite Hq; apply equalities_valid, Heq).
      rewrite docs_of_set_docs
        by (intros Hx; rewrite (docs_of_missing c st Hx); reflexivity).
      apply filter_ext. intros d. rewrite (equalities_matches f d Heq). reflexivity.
    + intros ->.
      rewrite (Hfinal []) by reflexivity.
      rewrite docs_of_set_docs
        by (intros Hx; rewrite (docs_of_missing c st Hx); reflexivity).
      clear. induction (Mongo.docs_of c st); simpl; auto.
Qed.

Lemma drop_deletes_the_matching_documents_witness :
  equalities [("age", VNum 27)] = true
  /\ Mongo.docs_of "users"
       (final (run Mongo.mongo (Table.drop users_table (VObj [("age", VNum 27)]))
                   two_users))
     = [ann].
Proof.
  split; [reflexivity |].
  destruct (drop_deletes_the_matching_documents Mongo.mongo two_users "users"
              VUndefined (VObj [("age", VNum 27)])) as (_ & _ & H).
  destruct (H two_users) as (_ & _ & Hd & _).
  apply (Hd [("age", VNum 27)] eq_refl eq_refl).
Defined.

(* ================================================================== *)
(** * Further properties of the operations *)
(* ================================================================== *)

(** ** Argument checks of [push] and [pull] *)

(** X1.  [push] and [pull] check their arguments in the same order and
    before anything else, whatever their receiver is: an empty [id] fails
    with "requires id", then an empty [key] with "requires field key", then
    [items] that is not an array with "requires tags"; no call is issued. *)
Theorem array_operations_check_their_arguments {S : Type} (h : handler S) (s : S)
        (t : Table.bound) (id items : value) (key : string) :
  let failed msg := mkResult (S := S) (A := value) (Thrown (AssertionError msg)) s [] [] in
  (truthy id = false ->
   run h (Table.push t id key items) s = failed "requires id"
   /\ run h (Table.pull t id key items) s = failed "requires id")
  /\ (truthy id = true -> key = "" ->
      run h (Table.push t id key items) s = failed "requires field key"
      /\ run h (Table.pull t id key items) s = failed "requires field key")
  /\ (truthy id = true -> key <> "" -> isArray items = false ->
      run h (Table.push t id key items) s = failed "requires tags"
      /\ run h (Table.pull t id key items) s = failed "requires tags").
Proof.
  intros failed. unfold Table.push, Table.pull, assert.
  split; [| split].
  - intros ->. split; reflexivity.
  - intros -> ->. split; reflexivity.
  - intros -> Hk ->. simpl.
    destruct (String.eqb_spec key ""); [contradiction |].
    split; reflexivity.
Qed.

(** X2.  [pull] has the receiver of [push]: it calls [updateOne] on the
    schema's [table] property.  Unless that property is a collection handle
    [pull] fails, issues no call and leaves the store as it was; the failure
    is a [TypeError] once the assertions have passed. *)
Theorem pull_never_reaches_the_collection {S : Type} (h : handler S) (s : S)
        (col tb id items : value) (key : string) :
  (forall c, tb <> VHandle c) ->
  let r := run h (Table.pull (Table.mkBound col tb) id key items) s in
  (exists e, res r = Thrown e)
  /\ calls r = []
  /\ final r = s
  /\ (truthy id = true -> key <> "" -> isArray items = true ->
      exists msg, res r = Thrown (TypeError msg)).
Proof.
  intros Htb r. subst r. unfold Table.pull, assert.
  destruct (truthy id); simpl; [| intuition (eauto; discriminate)].
  destruct (String.eqb_spec key ""); simpl; [intuition (eauto; discriminate) |].
  destruct (isArray items); simpl; [| intuition (eauto; discriminate)].
  destruct tb; simpl; try (intuition eauto; fail).
  exfalso. eapply Htb. reflexivity.
Qed.

Lemma pull_never_reaches_the_collection_witness :
  (forall c, VStr "users" <> VHandle c)
  /\ calls (run Mongo.mongo
              (Table.pull (Table.mkBound (VHandle "users") (VStr "users"))
                          (VStr "ann") "tags" (VArr [VStr "a"]))
              two_users)
     = [].
Proof.
  split; [discriminate |].
  apply (pull_never_reaches_the_collection Mongo.mongo two_users
           (VHandle "users") (VStr "users") (VStr "ann") (VArr [VStr "a"]) "tags").
  discriminate.
Defined.

(** ** Text search *)

(** X3.  [searchFuzzy] is [search]: for all arguments the two are the same
    program, one [find] with the case-insensitive pattern [term] on the
    field; and leaving out [skip] and [limit] is passing 0 and 100. *)
Theorem searchFuzzy_is_search (t : Table.bound) (index : string)
        (term skip limit : value) :
  Table.searchFuzzy t index term skip limit = Table.search t index term skip limit
  /\ Table.search t index term VUndefined VUndefined
     = Table.search t index term (VNum 0) (VNum 100)
  /\ forall (S : Type) (h : handler S) (s : S) (c : string) (tb : value),
       calls (run h (Table.searchFuzzy (Table.mkBound (VHandle c) tb)
                       index term VUndefined VUndefined) s)
       = [Find c (VObj [(index, VObj [("$regex", term); ("$options", VStr "i")])])
                 (VObj [("skip", VNum 0); ("limit", VNum 100)])].
Proof.
  split; [reflexivity | split; [reflexivity |]].
  intros S h s c tb. unfold Table.searchFuzzy. simpl.
  destruct (fst (h _ s)); reflexivity.
Qed.

(** ** The identifier of [upsert] *)

(** X4.  [upsert(doc)] takes its identifier from the document alone: for a
    document with a non-empty [id] property it is [set(doc.id, doc)], in any
    environment; for a document without one it sends the filter
    [{_id: undefined}]. *)
Theorem upsert_takes_the_identifier_from_the_document
        {S : Type} (h : handler S) (s : S) (c : string) (tb opts : value) (d : obj) :
  let t := Table.mkBound (VHandle c) tb in
  (forall i, lookup "id" d = Some i -> truthy i = true ->
     run h (Table.upsert t (VObj d) opts) s = run h (Table.set t i (VObj d) opts) s)
  /\ (lookup "id" d = None ->
      calls (run h (Table.upsert t (VObj d) opts) s)
      = [ReplaceOne c (VObj [("_id", VUndefined)]) (VObj d)
                    (default_arg opts (VObj [("upsert", VBool true)]))]).
Proof.
  intros t. split.
  - intros i Hi Ht. unfold Table.upsert, Table.set, read. simpl.
    rewrite Hi, Ht. reflexivity.
  - intros Hn. unfold Table.upsert, Table.set, read. simpl. rewrite Hn. simpl.
    destruct (fst (h _ s)); reflexivity.
Qed.

(** ** Compound index keys *)

Lemma lookup_obj_set (k k' : string) (v : value) (o : obj) :
  lookup k (obj_set k' v o) = if String.eqb k k' then Some v else lookup k o.
Proof.
  induction o as [| [k0 v0] o IH]; cbn [obj_set lookup]; [reflexivity |].
  destruct (String.eqb k' k0) eqn:E; cbn [lookup].
  - apply String.eqb_eq in E. subst k0.
    destruct (String.eqb k k'); reflexivity.
  - rewrite IH. destruct (String.eqb_spec k k'); [| reflexivity].
    subst k. rewrite E. reflexivity.
Qed.

Lemma unique_keys_obj_set (k : string) (v : value) (o : obj) :
  unique_keys o = true -> unique_keys (obj_set k v o) = true.
Proof.
  induction o as [| [k0 v0] o IH]; cbn [obj_set unique_keys]; [reflexivity |].
  destruct (lookup k0 o) eqn:E0; [discriminate |]. intros Hu.
  destruct (String.eqb k k0) eqn:E; cbn [unique_keys].
  - apply String.eqb_eq in E. subst k0. rewrite E0. exact Hu.
  - rewrite lookup_obj_set, String.eqb_sym, E, E0. apply IH, Hu.
Qed.

Lemma fold_obj_set_fresh (fs : list string) (acc : obj) :
  NoDup fs ->
  (forall f, In f fs -> lookup f acc = None) ->
  fold_left (fun result n => obj_set n (VNum 1) result) fs acc
  = acc ++ map (fun n => (n, VNum 1)) fs.
Proof.
  revert acc. induction fs as [| f fs IH]; intros acc Hnd Hfresh; simpl.
  - symmetry. apply app_nil_r.
  - inversion Hnd as [| ? ? Hnotin Hnd']; subst.
    rewrite (obj_set_fresh f (VNum 1) acc (Hfresh f (or_introl eq_refl))).
    rewrite IH; [rewrite <- app_assoc; reflexivity | exact Hnd' |].
    intros g Hg. rewrite lookup_app, (Hfresh g (or_intror Hg)).
    cbn [lookup]. destruct (String.eqb_spec g f); [subst; contradiction | reflexivity].
Qed.

Lemma lookup_insert_index (n : N) (k k' : string) (v : value) (o : obj) :
  lookup k o = None ->
  lookup k' (insert_index n k v o) = if String.eqb k' k then Some v else lookup k' o.
Proof.
  induction o as [| [k0 v0] o IH]; cbn [insert_index lookup]; [reflexivity |].
  destruct (String.eqb k k0) eqn:E; [discriminate |]. intros Hk.
  destruct (array_index k0) as [m |]; [destruct (m <? n)%N |]; cbn [lookup];
    try rewrite E; try reflexivity.
  rewrite (IH Hk). destruct (String.eqb_spec k' k0) as [-> | Hne]; [| reflexivity].
  rewrite String.eqb_sym, E. reflexivity.
Qed.

Lemma lookup_own_set (k k' : string) (v : value) (o : obj) :
  lookup k' (own_set k v o)
  = if String.eqb k' k && negb (String.eqb k "__proto__") then Some v else lookup k' o.
Proof.
  unfold own_set. destruct (String.eqb k "__proto__").
  - rewrite andb_false_r. reflexivity.
  - rewrite andb_true_r.
    destruct (lookup k o) eqn:E; [apply lookup_obj_set |].
    destruct (array_index k); [apply lookup_insert_index, E | apply lookup_obj_set].
Qed.

Lemma unique_keys_insert_index (n : N) (k : string) (v : value) (o : obj) :
  lookup k o = None -> unique_keys o = true ->
  unique_keys (insert_index n k v o) = true.
Proof.
  induction o as [| [k0 v0] o IH]; cbn [insert_index]; [reflexivity |].
  intros Hk Hu.
  assert (Hhead : unique_keys ((k, v) :: (k0, v0) :: o) = true).
  { cbn [unique_keys] in *. rewrite Hk. exact Hu. }
  destruct (array_index k0) as [m |]; [destruct (m <? n)%N |]; try exact Hhead.
  cbn [lookup] in Hk. destruct (String.eqb k k0) eqn:E; [discriminate |].
  cbn [unique_keys] in *. rewrite (lookup_insert_index n k k0 v o Hk).
  rewrite String.eqb_sym, E.
  destruct (lookup k0 o); [discriminate | apply IH; assumption].
Qed.

Lemma unique_keys_own_set (k : string) (v : value) (o : obj) :
  unique_keys o = true -> unique_keys (own_set k v o) = true.
Proof.
  intros Hu. unfold own_set. destruct (String.eqb k "__proto__"); [exact Hu |].
  destruct (lookup k o) eqn:E; [apply unique_keys_obj_set, Hu |].
  destruct (array_index k);
    [apply unique_keys_insert_index; assumption | apply unique_keys_obj_set, Hu].
Qed.

Lemma Forall_insert_index (P : string -> Prop) (n : N) (k : string) (v : value) (o : obj) :
  P k -> Forall P (map fst o) -> Forall P (map fst (insert_index n k v o)).
Proof.
  intros Hk. induction o as [| [k0 v0] o IH]; cbn [insert_index map fst]; intros Ho.
  - constructor; [exact Hk | constructor].
  - destruct (array_index k0) as [m |]; [destruct (m <? n)%N |];
      cbn [map fst]; try (constructor; [exact Hk | exact Ho]).
    inversion Ho; subst. constructor; [assumption | apply IH; assumption].
Qed.

Lemma ordered_insert_index (n : N) (k : string) (v : value) (o : obj) :
  array_index k = Some n ->
  StronglySorted key_before (map fst o) ->
  StronglySorted key_before (map fst (insert_index n k v o)).
Proof.
  intros Hn. induction o as [| [k0 v0] o IH]; cbn [insert_index map fst]; intros Ho.
  - constructor; constructor.
  - inversion Ho as [| ? ? Hs Hall]; subst.
    destruct (array_index k0) as [m |] eqn:Em; [destruct (m <? n)%N eqn:Elt |];
      cbn [map fst].
    + constructor; [apply IH, Hs |].
      apply Forall_insert_index; [| exact Hall].
      unfold key_before. rewrite Hn, Em. apply N.ltb_lt in Elt.
      apply N.lt_le_incl, Elt.
    + apply N.ltb_ge in Elt. constructor; [exact Ho |].
      constructor.
      * unfold key_before. rewrite Em, Hn. exact Elt.
      * eapply Forall_impl; [| exact Hall]. intros b Hb.
        unfold key_before in *. rewrite Hn.
        destruct (array_index b) as [nb |]; [| exact I].
        rewrite Em in Hb. eapply N.le_trans; eassumption.
    + constructor; [exact Ho |]. constructor.
      * unfold key_before. rewrite Em. exact I.
      * eapply Forall_impl; [| exact Hall]. intros b Hb.
        unfold key_before in *.
        destruct (array_index b) as [nb |]; [| exact I].
        rewrite Em in Hb. contradiction.
Qed.

Lemma keys_obj_set_present (k : string) (v v0 : value) (o : obj) :
  lookup k o = Some v0 -> map fst (obj_set k v o) = map fst o.
Proof.
  induction o as [| [k0 v1] o IH]; cbn [obj_set lookup map fst]; [discriminate |].
  destruct (String.eqb_spec k k0) as [-> | Hne]; cbn [map fst]; [reflexivity |].
  intros Hk. rewrite (IH Hk). reflexivity.
Qed.

Lemma StronglySorted_snoc {A : Type} (R : A -> A -> Prop) (l : list A) (x : A) :
  StronglySorted R l -> Forall (fun a => R a x) l -> StronglySorted R (l ++ [x]).
Proof.
  induction 1 as [| a l Hs IH Ha]; intros Hx; simpl.
  - constructor; constructor.
  - inversion Hx; subst. constructor; [apply IH; assumption |].
    apply Forall_app. split; [exact Ha | constructor; [assumption | constructor]].
Qed.

Lemma ordered_own_set (k : string) (v : value) (o : obj) :
  StronglySorted key_before (map fst o) ->
  StronglySorted key_before (map fst (own_set k v o)).
Proof.
  intros Ho. unfold own_set. destruct (String.eqb k "__proto__"); [exact Ho |].
  destruct (lookup k o) as [v0 |] eqn:E.
  - rewrite (keys_obj_set_present k v v0 o E). exact Ho.
  - destruct (array_index k) as [n |] eqn:En; [apply ordered_insert_index; assumption |].
    rewrite (obj_set_fresh k v o E), map_app. cbn [map fst].
    apply StronglySorted_snoc; [exact Ho |].
    apply Forall_forall. intros a _. unfold key_before. rewrite En. exact I.
Qed.

Lemma fold_own_set_spec (fs : list string) (acc : obj) :
  unique_keys acc = true ->
  StronglySorted key_before (map fst acc) ->
  unique_keys (fold_left (fun result n => own_set n (VNum 1) result) fs acc) = true
  /\ StronglySorted key_before
       (map fst (fold_left (fun result n => own_set n (VNum 1) result) fs acc))
  /\ forall k,
       lookup k (fold_left (fun result n => own_set n (VNum 1) result) fs acc)
       = if existsb (fun f => String.eqb k f && negb (String.eqb f "__proto__")) fs
         then Some (VNum 1) else lookup k acc.
Proof.
  revert acc. induction fs as [| f fs IH]; intros acc Hu Ho; simpl.
  - split; [exact Hu | split; [exact Ho | reflexivity]].
  - destruct (IH (own_set f (VNum 1) acc) (unique_keys_own_set f _ acc Hu)
                 (ordered_own_set f _ acc Ho)) as (Hu' & Ho' & Hl).
    split; [exact Hu' | split; [exact Ho' |]]. intros k.
    rewrite Hl, lookup_own_set.
    destruct (String.eqb k f && negb (String.eqb f "__proto__")),
      (existsb (fun f0 => String.eqb k f0 && negb (String.eqb f0 "__proto__")) fs);
      reflexivity.
Qed.

Lemma fold_own_set_plain (fs : list string) (acc : obj) :
  (forall f, In f fs -> is_array_index f = false /\ f <> "__proto__") ->
  fold_left (fun result n => own_set n (VNum 1) result) fs acc
  = fold_left (fun result n => obj_set n (VNum 1) result) fs acc.
Proof.
  revert acc. induction fs as [| f fs IH]; intros acc Hp; simpl; [reflexivity |].
  destruct (Hp f (or_introl eq_refl)) as [Hi Hn].
  assert (E : own_set f (VNum 1) acc = obj_set f (VNum 1) acc).
  { unfold own_set, is_array_index in *.
    apply String.eqb_neq in Hn. rewrite Hn.
    destruct (lookup f acc); [reflexivity |].
    destruct (array_index f); [discriminate | reflexivity]. }
  rewrite E. apply IH. intros g Hg. apply Hp. right. exact Hg.
Qed.

(** X5.  [createCompoundIndex] issues one [createIndex].  Its key
    specification has each field of the entry other than [__proto__] once,
    with value 1, and nothing else; the names that are array indexes come
    first, in ascending order; and when the fields are pairwise distinct
    and none of them is an array index or [__proto__], the keys are the
    entry's fields in their order. *)
Theorem compound_index_keys {S : Type} (h : handler S) (s : S) (c : string)
        (fields : list string) :
  calls (run h (Table.createCompoundIndex (VHandle c) fields) s)
  = [CreateIndex c (VObj (compound_config fields)) VUndefined]
  /\ unique_keys (compound_config fields) = true
  /\ (forall k, lookup k (compound_config fields)
                = if existsb (String.eqb k) fields && negb (String.eqb k "__proto__")
                  then Some (VNum 1) else None)
  /\ StronglySorted key_before (map fst (compound_config fields))
  /\ (NoDup fields ->
      (forall f, In f fields -> is_array_index f = false /\ f <> "__proto__") ->
      compound_config fields = map (fun n => (n, VNum 1)) fields).
Proof.
  destruct (fold_own_set_spec fields [] eq_refl (SSorted_nil _)) as (Hu & Ho & Hl).
  split; [| split; [| split; [| split]]].
  - unfold Table.createCompoundIndex, compound_config. simpl.
    destruct (fst (h _ s)); reflexivity.
  - exact Hu.
  - intros k. unfold compound_config. rewrite Hl. cbn [lookup].
    assert (E : existsb (fun f => String.eqb k f && negb (String.eqb f "__proto__")) fields
                = existsb (String.eqb k) fields && negb (String.eqb k "__proto__")).
    { clear. induction fields as [| f fs IH]; simpl; [reflexivity |].
      rewrite IH. destruct (String.eqb_spec k f) as [-> | Hne]; simpl.
      - destruct (String.eqb f "__proto__"); simpl; [| reflexivity].
        rewrite andb_false_r. reflexivity.
      - reflexivity. }
    rewrite E. reflexivity.
  - exact Ho.
  - intros Hnd Hp. unfold compound_config. rewrite (fold_own_set_plain fields [] Hp).
    apply (fold_obj_set_fresh fields [] Hnd). reflexivity.
Qed.

(** ** Reading by identifier *)

Lemma matches_id_keyed (i : value) (d : obj) :
  identifier i = true -> keyed d = true ->
  Mongo.matches [("_id", i)] d = Mongo.has_id i d.
Proof.
  intros Hi Hk. rewrite (matches_id i d Hi).
  unfold keyed, Mongo.has_id, Mongo.eq_match in *.
  destruct (lookup "_id" d) as [v |]; [| discriminate].
  destruct v; simpl in *; try discriminate; apply orb_false_r.
Qed.

Lemma find_ext_in {A : Type} (p q : A -> bool) (l : list A) :
  (forall x, In x l -> p x = q x) -> List.find p l = List.find q l.
Proof.
  induction l as [| x l IH]; intros H; simpl; [reflexivity |].
  rewrite (H x (or_introl eq_refl)), IH; [reflexivity |].
  intros y Hy. apply H. right. exact Hy.
Qed.

Lemma find_first_of_filter (p : obj -> bool) (l : list obj) :
  match List.find p l with Some d => VObj d | None => VNull end
  = first_or_null (filter p l).
Proof.
  induction l as [| x l IH]; simpl; [reflexivity |].
  destruct (p x); [reflexivity | exact IH].
Qed.

Lemma find_existsb {A : Type} (p : A -> bool) (l : list A) :
  match List.find p l with Some _ => true | None => false end = existsb p l.
Proof.
  induction l as [| x l IH]; simpl; [reflexivity |].
  destruct (p x); [reflexivity | exact IH].
Qed.

Lemma find_by_id_keyed (i : value) (ds : list obj) :
  identifier i = true -> forallb keyed ds = true ->
  List.find (Mongo.matches [("_id", i)]) ds = List.find (Mongo.has_id i) ds.
Proof.
  intros Hi Hk. apply find_ext_in. intros d Hd.
  rewrite forallb_forall in Hk. apply matches_id_keyed; auto.
Qed.

Lemma run_get (st : Mongo.store) (c : string) (tb i : value) :
  identifier i = true -> truthy i = true ->
  run Mongo.mongo (Table.get (Table.mkBound (VHandle c) tb) i) st
  = mkResult
      (Returned (match List.find (Mongo.matches [("_id", i)]) (Mongo.docs_of c st) with
                 | Some d => VObj d
                 | None => VNull
                 end))
      st [FindOne c (VObj [("_id", i)]) VUndefined] [].
Proof.
  intros Hi Ht.
  assert (Hget : Table.get (Table.mkBound (VHandle c) tb) i
                 = await (FindOne c (VObj [("_id", i)]) VUndefined)).
  { unfold Table.get, assert. rewrite Ht. reflexivity. }
  rewrite Hget, run_await.
  change (Mongo.mongo (FindOne c ?f ?o) st) with (Mongo.findOne c f o st).
  unfold Mongo.findOne. rewrite (id_filter_valid i Hi). simpl fst. simpl snd.
  destruct (List.find _ _); reflexivity.
Qed.

Lemma run_has (st : Mongo.store) (c : string) (tb i : value) :
  identifier i = true ->
  run Mongo.mongo (Table.has (Table.mkBound (VHandle c) tb) i) st
  = mkResult
      (Returned (VBool (match List.find (Mongo.matches [("_id", i)]) (Mongo.docs_of c st) with
                        | Some _ => true
                        | None => false
                        end)))
      st
      [FindOne c (VObj [("_id", i)]) (VObj [("projection", VObj [("_id", VNum 1)])])]
      [].
Proof.
  intros Hi.
  change (Table.has (Table.mkBound (VHandle c) tb) i)
    with (result <- await (FindOne c (VObj [("_id", i)])
                             (VObj [("projection", VObj [("_id", VNum 1)])])) ;;
          Ret (VBool (if truthy result then true else false)))%prog.
  rewrite run_bind, run_await.
  change (Mongo.mongo (FindOne c ?f ?o) st) with (Mongo.findOne c f o st).
  unfold Mongo.findOne. rewrite (id_filter_valid i Hi). simpl fst. simpl snd.
  destruct (List.find _ _); reflexivity.
Qed.

(** X6.  On a collection whose documents are keyed, and for a non-empty
    identifier [i]: [get(i)] returns the first stored document whose [_id]
    is [i], or [null] when there is none; [has(i)] returns [true] exactly
    when there is one; both issue a single [findOne] and leave the store as
    it is. *)
Theorem has_agrees_with_get (st : Mongo.store) (c : string) (tb i : value) :
  identifier i = true ->
  truthy i = true ->
  forallb keyed (Mongo.docs_of c st) = true ->
  let t := Table.mkBound (VHandle c) tb in
  let found := filter (Mongo.has_id i) (Mongo.docs_of c st) in
  run Mongo.mongo (Table.get t i) st
  = mkResult (Returned (first_or_null found)) st
      [FindOne c (VObj [("_id", i)]) VUndefined] []
  /\ run Mongo.mongo (Table.has t i) st
     = mkResult (Returned (VBool (existsb (Mongo.has_id i) (Mongo.docs_of c st)))) st
         [FindOne c (VObj [("_id", i)])
                  (VObj [("projection", VObj [("_id", VNum 1)])])] []
  /\ (existsb (Mongo.has_id i) (Mongo.docs_of c st) = true
      <-> first_or_null found <> VNull).
Proof.
  intros Hi Ht Hk t found. split; [| split].
  - unfold t. rewrite (run_get st c tb i Hi Ht), (find_by_id_keyed i _ Hi Hk).
    rewrite find_first_of_filter. reflexivity.
  - unfold t. rewrite (run_has st c tb i Hi), (find_by_id_keyed i _ Hi Hk).
    rewrite find_existsb. reflexivity.
  - subst found. rewrite <- find_first_of_filter, <- find_existsb.
    destruct (List.find _ _); split; intros H; try discriminate; try reflexivity.
    contradiction.
Qed.

Lemma has_agrees_with_get_witness :
  identifier (VStr "bob") = true
  /\ truthy (VStr "bob") = true
  /\ forallb keyed (Mongo.docs_of "users" two_users) = true
  /\ run Mongo.mongo (Table.get users_table (VStr "bob")) two_users
     = mkResult (Returned (VObj bob)) two_users
         [FindOne "users" (VObj [("_id", VStr "bob")]) VUndefined] [].
Proof.
  repeat (split; [reflexivity |]).
  apply (has_agrees_with_get two_users "users" VUndefined (VStr "bob")
           eq_refl eq_refl eq_refl).
Defined.

(** ** Deleting by identifier *)

Lemma has_id_doc_id (i : value) (d : obj) :
  Mongo.has_id i d = true -> Mongo.doc_id d = i.
Proof.
  unfold Mongo.has_id, Mongo.doc_id. destruct (lookup "_id" d); [| discriminate].
  apply value_eqb_eq.
Qed.

(** With unique identifiers, removing the first document under an
    identifier removes them all. *)
Lemma remove_first_unique (i : value) (ds : list obj) :
  distinct_ids ds = true ->
  Mongo.remove_first (Mongo.has_id i) ds
  = filter (fun d => negb (Mongo.has_id i d)) ds.
Proof.
  induction ds as [| d ds IH]; simpl; [reflexivity |].
  intros H. apply andb_prop in H. destruct H as [Hd Hds].
  destruct (Mongo.has_id i d) eqn:E; simpl.
  - rewrite (has_id_doc_id i d E) in Hd. apply negb_true_iff in Hd.
    clear IH Hds E. induction ds as [| x ds IHx]; simpl in *; [reflexivity |].
    apply orb_false_iff in Hd. destruct Hd as [Hx Hrest].
    rewrite Hx. simpl. f_equal. apply IHx, Hrest.
  - f_equal. apply IH, Hds.
Qed.

Lemma remove_first_ext_in (p q : obj -> bool) (ds : list obj) :
  (forall d, In d ds -> p d = q d) ->
  Mongo.remove_first p ds = Mongo.remove_first q ds.
Proof.
  induction ds as [| d ds IH]; intros H; simpl; [reflexivity |].
  rewrite (H d (or_introl eq_refl)), IH; [reflexivity |].
  intros y Hy. apply H. right. exact Hy.
Qed.

Lemma existsb_filter_negb {A : Type} (p : A -> bool) (l : list A) :
  existsb p (filter (fun x => negb (p x)) l) = false.
Proof.
  induction l as [| x l IH]; simpl; [reflexivity |].
  destruct (p x) eqn:E; simpl; [exact IH |]. rewrite E, IH. reflexivity.
Qed.

Lemma forallb_filter {A : Type} (p q : A -> bool) (l : list A) :
  forallb p l = true -> forallb p (filter q l) = true.
Proof.
  induction l as [| x l IH]; simpl; [reflexivity |].
  intros H. apply andb_prop in H. destruct H as [Hx Hl].
  destruct (q x); simpl; [rewrite Hx |]; apply IH, Hl.
Qed.

Lemma existsb_filter_weaken {A : Type} (p q : A -> bool) (l : list A) :
  existsb p l = false -> existsb p (filter q l) = false.
Proof.
  induction l as [| x l IH]; simpl; [reflexivity |].
  intros H. apply orb_false_iff in H. destruct H as [Hx Hl].
  destruct (q x); simpl; [rewrite Hx |]; apply IH, Hl.
Qed.

Lemma distinct_ids_filter (q : obj -> bool) (ds : list obj) :
  distinct_ids ds = true -> distinct_ids (filter q ds) = true.
Proof.
  induction ds as [| d ds IH]; simpl; [reflexivity |].
  intros H. apply andb_prop in H. destruct H as [Hd Hds].
  destruct (q d); simpl; [| apply IH, Hds].
  rewrite (IH Hds), andb_true_r. apply negb_true_iff.
  apply existsb_filter_weaken. apply negb_true_iff, Hd.
Qed.

Lemma well_keyed_filter (q : obj -> bool) (ds : list obj) :
  well_keyed ds = true -> well_keyed (filter q ds) = true.
Proof.
  unfold well_keyed. intros H. apply andb_prop in H. destruct H as [Hk Hd].
  rewrite (forallb_filter keyed q ds Hk), (distinct_ids_filter q ds Hd).
  reflexivity.
Qed.

(** X7.  On a collection with keyed documents and unique identifiers,
    [delete(i)] removes the document stored under [i] and no other, keeps
    that state of the collection, and returns [{_id: i, id: i}] whether or
    not there was such a document; a following [has(i)] returns [false]. *)
Theorem delete_then_absent (st : Mongo.store) (c : string) (tb i : value) :
  identifier i = true ->
  well_keyed (Mongo.docs_of c st) = true ->
  let t := Table.mkBound (VHandle c) tb in
  let r := run Mongo.mongo (Table.del t i) st in
  res r = Returned (VObj [("_id", i); ("id", i)])
  /\ calls r = [DeleteOne c (VObj [("_id", i)])]
  /\ Mongo.docs_of c (final r)
     = filter (fun d => negb (Mongo.has_id i d)) (Mongo.docs_of c st)
  /\ well_keyed (Mongo.docs_of c (final r)) = true
  /\ res (run Mongo.mongo (Table.has t i) (final r)) = Returned (VBool false).
Proof.
  intros Hi Hw t r.
  pose proof Hw as Hw'. unfold well_keyed in Hw'.
  apply andb_prop in Hw'. destruct Hw' as [Hk Hd].
  assert (Hr : r = mkResult (Returned (VObj [("_id", i); ("id", i)]))
                     (Mongo.set_docs c
                        (Mongo.remove_first (Mongo.matches [("_id", i)])
                                            (Mongo.docs_of c st)) st)
                     [DeleteOne c (VObj [("_id", i)])] []).
  { subst r t.
    change (Table.del (Table.mkBound (VHandle c) tb) i)
      with (_ <- await (DeleteOne c (VObj [("_id", i)])) ;;
            Ret (VObj [("_id", i); ("id", i)]))%prog.
    rewrite run_bind, run_await.
    change (Mongo.mongo (DeleteOne c ?f) st) with (Mongo.deleteOne c f st).
    unfold Mongo.deleteOne. rewrite (id_filter_valid i Hi). reflexivity. }
  assert (Hdocs : Mongo.docs_of c (final r)
                  = filter (fun d => negb (Mongo.has_id i d)) (Mongo.docs_of c st)).
  { rewrite Hr. cbn [final]. rewrite docs_of_set_docs.
    - rewrite (remove_first_ext_in _ (Mongo.has_id i)).
      + apply remove_first_unique, Hd.
      + intros d Hin. rewrite forallb_forall in Hk.
        apply matches_id_keyed; auto.
    - intros Hn. rewrite (docs_of_missing c st Hn). reflexivity. }
  split; [rewrite Hr; reflexivity |].
  split; [rewrite Hr; reflexivity |].
  split; [exact Hdocs |].
  split; [rewrite Hdocs; apply well_keyed_filter, Hw |].
  unfold t. rewrite (run_has (final r) c tb i Hi). cbn [res].
  rewrite find_by_id_keyed, find_existsb, Hdocs; auto.
  - rewrite existsb_filter_negb. reflexivity.
  - rewrite Hdocs. apply forallb_filter, Hk.
Qed.

Lemma delete_then_absent_witness :
  identifier (VStr "ann") = true
  /\ well_keyed (Mongo.docs_of "users" two_users) = true
  /\ Mongo.docs_of "users"
       (final (run Mongo.mongo (Table.del users_table (VStr "ann")) two_users))
     = [bob].
Proof.
  repeat (split; [reflexivity |]).
  destruct (delete_then_absent two_users "users" VUndefined (VStr "ann")
              eq_refl eq_refl) as (_ & _ & H & _).
  exact H.
Defined.

(** ** Storing under an identifier *)

Lemma replace_first_ext_in (p p' : obj -> bool) (f g : obj -> obj) (ds : list obj) :
  (forall d, In d ds -> p d = p' d) ->
  (forall d, In d ds -> p d = true -> f d = g d) ->
  Mongo.replace_first p f ds = Mongo.replace_first p' g ds.
Proof.
  induction ds as [| d ds IH]; intros Hp Hf; simpl; [reflexivity |].
  rewrite <- (Hp d (or_introl eq_refl)).
  destruct (p d) eqn:E.
  - rewrite (Hf d (or_introl eq_refl) E). reflexivity.
  - f_equal. apply IH; intros x Hx; [apply Hp | apply Hf]; right; exact Hx.
Qed.

Lemma replace_first_fixed (p : obj -> bool) (f : obj -> obj) (ds : list obj) (d : obj) :
  List.find p ds = Some d -> f d = d -> Mongo.replace_first p f ds = ds.
Proof.
  induction ds as [| x ds IH]; simpl; [discriminate |].
  destruct (p x).
  - intros [= ->] ->. reflexivity.
  - intros Hf Hd. f_equal. apply IH; assumption.
Qed.

Lemma put_coll_twice (c : string) (x y : Mongo.collection) (st : Mongo.store) :
  Mongo.put_coll c y (Mongo.put_coll c x st) = Mongo.put_coll c y st.
Proof.
  induction st as [| [c' x'] st IH]; simpl.
  - rewrite String.eqb_refl. reflexivity.
  - destruct (String.eqb c c') eqn:E; simpl.
    + rewrite String.eqb_refl. reflexivity.
    + rewrite E, IH. reflexivity.
Qed.

Lemma the_coll_put (c : string) (x : Mongo.collection) (st : Mongo.store) :
  Mongo.the_coll c (Mongo.put_coll c x st) = x.
Proof. unfold Mongo.the_coll. rewrite find_coll_put_same. reflexivity. Qed.

Lemma well_keyed_parts (ds : list obj) :
  well_keyed ds = true -> forallb keyed ds = true /\ distinct_ids ds = true.
Proof. unfold well_keyed. apply andb_prop. Qed.

Lemma keyed_ids_ok (ds : list obj) : forallb keyed ds = true -> ids_ok ds = true.
Proof.
  unfold ids_ok. induction ds as [| d ds IH]; simpl; [reflexivity |].
  intros H. apply andb_prop in H. destruct H as [Hd Hds].
  rewrite (IH Hds), andb_true_r.
  unfold keyed, Mongo.doc_id in *. destruct (lookup "_id" d); [exact Hd | discriminate].
Qed.

Lemma has_id_with_id (i j : value) (d : obj) :
  Mongo.has_id j (Mongo.with_id i d) = Mongo.value_eqb i j.
Proof. reflexivity. Qed.

Lemma value_eqb_sym (a b : value) : Mongo.value_eqb a b = Mongo.value_eqb b a.
Proof.
  destruct (Mongo.value_eqb a b) eqn:E1, (Mongo.value_eqb b a) eqn:E2; try reflexivity.
  - apply value_eqb_eq in E1. subst b. rewrite value_eqb_refl in E2. discriminate.
  - apply value_eqb_eq in E2. subst b. rewrite value_eqb_refl in E1. discriminate.
Qed.

Lemma has_id_keyed (j : value) (d : obj) :
  keyed d = true -> Mongo.has_id j d = Mongo.value_eqb (Mongo.doc_id d) j.
Proof.
  unfold keyed, Mongo.has_id, Mongo.doc_id.
  destruct (lookup "_id" d); [reflexivity | discriminate].
Qed.

(** What an upserting replace does to the store. *)
Lemma replaceOne_store (st : Mongo.store) (c : string) (i : value) (d : obj) :
  truthy i = true ->
  identifier i = true ->
  document d = true ->
  Mongo.keeps_id i d = true ->
  forallb keyed (Mongo.docs_of c st) = true ->
  exists v,
    Mongo.replaceOne c (VObj [("_id", i)]) (VObj d) (VObj [("upsert", VBool true)]) st
    = (Resolved v, stored_under c i d st).
Proof.
  intros Ht Hi Hd Hk Hkeyed.
  destruct (identifier_parts i Hi) as (Hs & Ha & Ho).
  unfold document in Hd.
  apply andb_prop in Hd. destruct Hd as [Hd Hst].
  apply andb_prop in Hd. destruct Hd as [Hu Hops].
  unfold Mongo.replaceOne, stored_under.
  rewrite (id_filter_valid i Hi), (to_bson_storable (VObj d) Hst),
    (no_operator_keys d Hops).
  cbv zeta.
  fold (Mongo.docs_of c st).
  rewrite (find_by_id_keyed i _ Hi Hkeyed).
  destruct (List.find (Mongo.has_id i) (Mongo.docs_of c st)) as [d0 |] eqn:Ef.
  - destruct (find_some _ _ Ef) as [Hin Hm].
    rewrite (has_id_doc_id i d0 Hm), Hk.
    eexists. apply f_equal2; [reflexivity |]. do 2 f_equal.
    apply replace_first_ext_in.
    + intros x Hx. rewrite forallb_forall in Hkeyed.
      apply matches_id_keyed; auto.
    + intros x Hx Hmx. rewrite forallb_forall in Hkeyed.
      rewrite (matches_id_keyed i x Hi (Hkeyed x Hx)) in Hmx.
      rewrite (has_id_doc_id i x Hmx). reflexivity.
  - simpl truthy. cbv iota.
    assert (Hfid : Mongo.filter_id [("_id", i)] = Some i).
    { unfold Mongo.filter_id. simpl. rewrite Ho. reflexivity. }
    rewrite Hfid, Hk.
    unfold Mongo.insert_doc. cbv zeta.
    assert (Hl : lookup "_id" (Mongo.with_id i d) = Some i) by reflexivity.
    rewrite Hl, Ha. fold (Mongo.docs_of c st).
    assert (He : existsb (Mongo.has_id i) (Mongo.docs_of c st) = false).
    { rewrite <- find_existsb, Ef. reflexivity. }
    rewrite He.
    assert (Hw : Mongo.with_id i (Mongo.with_id i d) = Mongo.with_id i d).
    { unfold Mongo.with_id. simpl. rewrite obj_remove_idem. reflexivity. }
    rewrite Hw. eexists. reflexivity.
Qed.

Lemma run_set (st : Mongo.store) (c : string) (tb i : value) (d : obj) :
  truthy i = true ->
  identifier i = true ->
  document d = true ->
  Mongo.keeps_id i d = true ->
  forallb keyed (Mongo.docs_of c st) = true ->
  run Mongo.mongo (Table.set (Table.mkBound (VHandle c) tb) i (VObj d) VUndefined) st
  = mkResult (Returned (VObj (assign [("_id", i)] d))) (stored_under c i d st)
      [ReplaceOne c (VObj [("_id", i)]) (VObj d) (VObj [("upsert", VBool true)])] [].
Proof.
  intros Ht Hi Hd Hk Hkeyed.
  destruct (replaceOne_store st c i d Ht Hi Hd Hk Hkeyed) as [v Hr].
  assert (Hset :
    Table.set (Table.mkBound (VHandle c) tb) i (VObj d) VUndefined
    = (_ <- await (ReplaceOne c (VObj [("_id", i)]) (VObj d)
                              (VObj [("upsert", VBool true)])) ;;
       Ret (VObj (assign [("_id", i)] d)))%prog).
  { unfold Table.set. rewrite Ht. reflexivity. }
  rewrite Hset, run_bind, run_await.
  change (Mongo.mongo (ReplaceOne c ?f ?p ?o) st) with (Mongo.replaceOne c f p o st).
  rewrite Hr. reflexivity.
Qed.

(** The documents of the collection once [d] is stored under [i]. *)
Lemma docs_of_stored_under (c : string) (i : value) (d : obj) (st : Mongo.store) :
  Mongo.docs_of c (stored_under c i d st)
  = match List.find (Mongo.has_id i) (Mongo.docs_of c st) with
    | Some _ =>
        Mongo.replace_first (Mongo.has_id i) (fun _ => Mongo.with_id i d)
                            (Mongo.docs_of c st)
    | None => Mongo.docs_of c st ++ [Mongo.with_id i d]
    end.
Proof. unfold stored_under. cbv zeta. rewrite docs_of_put. reflexivity. Qed.

Lemma filter_replace_first (p q : obj -> bool) (y : obj) (ds : list obj) :
  (forall x, p x = true -> q x = false) -> q y = false ->
  filter q (Mongo.replace_first p (fun _ => y) ds) = filter q ds.
Proof.
  intros Hpq Hy. induction ds as [| x ds IH]; simpl; [reflexivity |].
  destruct (p x) eqn:E; simpl.
  - rewrite Hy, (Hpq x E). reflexivity.
  - rewrite IH. reflexivity.
Qed.

Lemma filter_none {A : Type} (p : A -> bool) (l : list A) :
  existsb p l = false -> filter p l = [].
Proof.
  induction l as [| x l IH]; simpl; [reflexivity |].
  intros H. apply orb_false_iff in H. destruct H as [Hx Hl].
  rewrite Hx. apply IH, Hl.
Qed.

(** With unique identifiers, the document found under an identifier is the
    only one. *)
Lemma filter_unique (i : value) (ds : list obj) (d : obj) :
  distinct_ids ds = true ->
  List.find (Mongo.has_id i) ds = Some d ->
  filter (Mongo.has_id i) ds = [d].
Proof.
  induction ds as [| x ds IH]; simpl; [discriminate |].
  intros H. apply andb_prop in H. destruct H as [Hx Hds].
  destruct (Mongo.has_id i x) eqn:E.
  - intros [= ->]. f_equal. apply filter_none.
    rewrite (has_id_doc_id i d E) in Hx. apply negb_true_iff, Hx.
  - intros Hf. apply IH; assumption.
Qed.

Lemma existsb_replace_first (p q : obj -> bool) (f : obj -> obj) (ds : list obj) :
  (forall x, p x = true -> q (f x) = q x) ->
  existsb q (Mongo.replace_first p f ds) = existsb q ds.
Proof.
  intros H. induction ds as [| x ds IH]; simpl; [reflexivity |].
  destruct (p x) eqn:E; simpl; [rewrite (H x E) | rewrite IH]; reflexivity.
Qed.

Lemma forallb_replace_first (p q : obj -> bool) (f : obj -> obj) (ds : list obj) :
  (forall x, p x = true -> q (f x) = true) ->
  forallb q ds = true -> forallb q (Mongo.replace_first p f ds) = true.
Proof.
  intros H. induction ds as [| x ds IH]; simpl; [reflexivity |].
  intros Hq. apply andb_prop in Hq. destruct Hq as [Hx Hds].
  destruct (p x) eqn:E; simpl.
  - rewrite (H x E), Hds. reflexivity.
  - rewrite Hx, (IH Hds). reflexivity.
Qed.

Lemma distinct_ids_replace_first (i : value) (y : obj) (ds : list obj) :
  Mongo.doc_id y = i ->
  (forall j, Mongo.has_id j y = Mongo.value_eqb i j) ->
  forallb keyed ds = true ->
  distinct_ids ds = true ->
  distinct_ids (Mongo.replace_first (Mongo.has_id i) (fun _ => y) ds) = true.
Proof.
  intros Hy Hhas. induction ds as [| x ds IH]; simpl; [reflexivity |].
  intros Hk Hd.
  apply andb_prop in Hk. destruct Hk as [Hkx Hkds].
  apply andb_prop in Hd. destruct Hd as [Hx Hds].
  destruct (Mongo.has_id i x) eqn:E; simpl.
  - rewrite Hy, Hds, andb_true_r. rewrite (has_id_doc_id i x E) in Hx. exact Hx.
  - rewrite (IH Hkds Hds), andb_true_r.
    rewrite existsb_replace_first; [exact Hx |].
    intros z Hz. rewrite Hhas.
    rewrite (has_id_keyed i x Hkx) in E.
    assert (Hkz : Mongo.has_id (Mongo.doc_id x) z = false).
    { destruct (Mongo.has_id (Mongo.doc_id x) z) eqn:Ez; [| reflexivity].
      apply has_id_doc_id in Ez. apply has_id_doc_id in Hz.
      rewrite <- Ez, Hz, value_eqb_refl in E. discriminate. }
    rewrite Hkz, value_eqb_sym. exact E.
Qed.

Lemma distinct_ids_app_new (y : obj) (ds : list obj) :
  forallb keyed ds = true ->
  distinct_ids ds = true ->
  (forall j, Mongo.has_id j y = Mongo.value_eqb (Mongo.doc_id y) j) ->
  existsb (Mongo.has_id (Mongo.doc_id y)) ds = false ->
  distinct_ids (ds ++ [y]) = true.
Proof.
  intros Hk Hd Hy He. induction ds as [| x ds IH]; simpl in *; [reflexivity |].
  apply andb_prop in Hk. destruct Hk as [Hkx Hkds].
  apply andb_prop in Hd. destruct Hd as [Hx Hds].
  apply orb_false_iff in He. destruct He as [Hex Heds].
  rewrite (IH Hkds Hds Heds), andb_true_r.
  rewrite existsb_app. simpl. rewrite orb_false_r.
  apply negb_true_iff in Hx. rewrite Hx. simpl.
  rewrite Hy, value_eqb_sym, <- (has_id_keyed _ x Hkx), Hex. reflexivity.
Qed.

Lemma well_keyed_stored_under (c : string) (i : value) (d : obj) (st : Mongo.store) :
  identifier i = true ->
  well_keyed (Mongo.docs_of c st) = true ->
  well_keyed (Mongo.docs_of c (stored_under c i d st)) = true.
Proof.
  intros Hi Hw. destruct (well_keyed_parts _ Hw) as [Hk Hd].
  destruct (identifier_parts i Hi) as (_ & Ha & _).
  assert (Hky : keyed (Mongo.with_id i d) = true).
  { unfold keyed. simpl. rewrite Ha. reflexivity. }
  rewrite docs_of_stored_under. unfold well_keyed.
  destruct (List.find (Mongo.has_id i) (Mongo.docs_of c st)) eqn:Ef.
  - rewrite forallb_replace_first; auto.
    rewrite distinct_ids_replace_first; auto.
  - rewrite forallb_app, Hk. simpl. rewrite Hky. simpl.
    apply distinct_ids_app_new; auto.
    change (Mongo.doc_id (Mongo.with_id i d)) with i.
    rewrite <- find_existsb, Ef. reflexivity.
Qed.

Lemma find_stored_under (c : string) (i : value) (d : obj) (st : Mongo.store) :
  List.find (Mongo.has_id i) (Mongo.docs_of c (stored_under c i d st))
  = Some (Mongo.with_id i d).
Proof.
  rewrite docs_of_stored_under.
  assert (Hy : Mongo.has_id i (Mongo.with_id i d) = true).
  { rewrite has_id_with_id. apply value_eqb_refl. }
  destruct (List.find (Mongo.has_id i) (Mongo.docs_of c st)) eqn:Ef.
  - apply (find_replace_first _ (fun _ => Mongo.with_id i d) _ o Ef Hy).
  - apply find_app_new; assumption.
Qed.

(** Storing the same document under the same identifier again changes
    nothing. *)
Lemma stored_under_twice (c : string) (i : value) (d : obj) (st : Mongo.store) :
  stored_under c i d (stored_under c i d st) = stored_under c i d st.
Proof.
  pose proof (find_stored_under c i d st) as Hf.
  unfold stored_under at 1. cbv zeta.
  fold (Mongo.docs_of c (stored_under c i d st)). rewrite Hf.
  rewrite (replace_first_fixed _ (fun _ => Mongo.with_id i d) _ _ Hf eq_refl).
  unfold stored_under. cbv zeta.
  rewrite the_coll_put, put_coll_twice, docs_of_put.
  unfold Mongo.with_docs. simpl. reflexivity.
Qed.

Lemma has_id_other (i j : value) (x : obj) :
  Mongo.value_eqb i j = false -> Mongo.has_id i x = true -> Mongo.has_id j x = false.
Proof.
  unfold Mongo.has_id. destruct (lookup "_id" x) as [v |]; [| discriminate].
  intros Hij Hv. apply value_eqb_eq in Hv. subst v. exact Hij.
Qed.

Lemma find_replace_first_other (p q : obj -> bool) (y : obj) (ds : list obj) :
  (forall x, p x = true -> q x = false) -> q y = false ->
  List.find q (Mongo.replace_first p (fun _ => y) ds) = List.find q ds.
Proof.
  intros Hpq Hy. induction ds as [| x ds IH]; simpl; [reflexivity |].
  destruct (p x) eqn:E; simpl.
  - rewrite Hy, (Hpq x E). reflexivity.
  - rewrite IH. reflexivity.
Qed.

Lemma find_app_other (q : obj -> bool) (y : obj) (ds : list obj) :
  q y = false -> List.find q (ds ++ [y]) = List.find q ds.
Proof.
  intros Hy. induction ds as [| x ds IH]; simpl; [rewrite Hy; reflexivity |].
  destruct (q x); [reflexivity | exact IH].
Qed.

Lemma document_unique_keys (d : obj) : document d = true -> unique_keys d = true.
Proof.
  unfold document. intros H.
  apply andb_prop in H. destruct H as [H _].
  apply andb_prop in H. tauto.
Qed.

(** X8.  On a collection with keyed documents and unique identifiers, for a
    non-empty (truthy) identifier [i] that is plain data and not an array,
    and a document [d] of plain data that carries no [_id] other than [i]:
    after [set(i, d)] the collection holds exactly one document under [i],
    which is [{_id: i, ...d}]; the documents under other identifiers are
    those of before; identifiers are still unique; and the other
    collections are untouched. *)
Theorem set_stores_exactly_one_document
        (st : Mongo.store) (c : string) (tb i : value) (d : obj) :
  truthy i = true ->
  literal i = true ->
  isArray i = false ->
  unique_keys d = true ->
  literal (VObj d) = true ->
  Mongo.keeps_id i d = true ->
  well_keyed (Mongo.docs_of c st) = true ->
  let t := Table.mkBound (VHandle c) tb in
  let r := run Mongo.mongo (Table.set t i (VObj d) VUndefined) st in
  filter (Mongo.has_id i) (Mongo.docs_of c (final r)) = [assign [("_id", i)] d]
  /\ filter (fun x => negb (Mongo.has_id i x)) (Mongo.docs_of c (final r))
     = filter (fun x => negb (Mongo.has_id i x)) (Mongo.docs_of c st)
  /\ well_keyed (Mongo.docs_of c (final r)) = true
  /\ (forall c', c' <> c -> Mongo.find_coll c' (final r) = Mongo.find_coll c' st).
Proof.
  intros Ht Hl Ha Hu Hld Hk Hw t r.
  pose proof (literal_identifier i Hl Ha) as Hi.
  pose proof (literal_document d Hu Hld) as Hd.
  destruct (well_keyed_parts _ Hw) as [Hkeyed Hdist].
  assert (Hr : final r = stored_under c i d st).
  { subst r t. rewrite (run_set st c tb i d Ht Hi Hd Hk Hkeyed). reflexivity. }
  rewrite Hr.
  pose proof (well_keyed_stored_under c i d st Hi Hw) as Hw'.
  destruct (well_keyed_parts _ Hw') as [_ Hdist'].
  split; [| split; [| split]].
  - rewrite (spread_onto_id i d (document_unique_keys d Hd) Hk).
    apply filter_unique; [exact Hdist' | apply find_stored_under].
  - rewrite docs_of_stored_under.
    assert (Hy : negb (Mongo.has_id i (Mongo.with_id i d)) = false).
    { rewrite has_id_with_id, value_eqb_refl. reflexivity. }
    destruct (List.find (Mongo.has_id i) (Mongo.docs_of c st)).
    + apply filter_replace_first; [| exact Hy].
      intros x Hx. rewrite Hx. reflexivity.
    + rewrite filter_app. simpl. rewrite Hy. apply app_nil_r.
  - exact Hw'.
  - intros c' Hne. unfold stored_under. cbv zeta.
    apply find_coll_put_other. exact Hne.
Qed.

Lemma set_stores_exactly_one_document_witness :
  truthy (VStr "ann") = true
  /\ literal (VStr "ann") = true
  /\ isArray (VStr "ann") = false
  /\ unique_keys [("age", VNum 40)] = true
  /\ literal (VObj [("age", VNum 40)]) = true
  /\ Mongo.keeps_id (VStr "ann") [("age", VNum 40)] = true
  /\ well_keyed (Mongo.docs_of "users" two_users) = true
  /\ filter (Mongo.has_id (VStr "ann"))
       (Mongo.docs_of "users"
          (final (run Mongo.mongo
                    (Table.set users_table (VStr "ann") (VObj [("age", VNum 40)])
                               VUndefined) two_users)))
     = [[("_id", VStr "ann"); ("age", VNum 40)]].
Proof.
  repeat (split; [reflexivity |]).
  apply (set_stores_exactly_one_document two_users "users" VUndefined (VStr "ann")
           [("age", VNum 40)] eq_refl eq_refl eq_refl eq_refl eq_refl eq_refl eq_refl).
Defined.

(** X9.  [upsert] is idempotent: on a collection with keyed documents and
    unique identifiers, upserting twice a document of plain data whose [id]
    property is a non-empty (truthy) identifier, not an array, and which
    carries no [_id] other than that identifier, succeeds both times with
    the same result, and the second call leaves the store exactly as the
    first left it, with one document under that identifier. *)
Theorem upsert_twice (st : Mongo.store) (c : string) (tb i : value) (d : obj) :
  lookup "id" d = Some i ->
  truthy i = true ->
  literal i = true ->
  isArray i = false ->
  unique_keys d = true ->
  literal (VObj d) = true ->
  Mongo.keeps_id i d = true ->
  well_keyed (Mongo.docs_of c st) = true ->
  let t := Table.mkBound (VHandle c) tb in
  let r1 := run Mongo.mongo (Table.upsert t (VObj d) VUndefined) st in
  let r2 := run Mongo.mongo (Table.upsert t (VObj d) VUndefined) (final r1) in
  res r1 = Returned (VObj (assign [("_id", i)] d))
  /\ res r2 = res r1
  /\ final r2 = final r1
  /\ filter (Mongo.has_id i) (Mongo.docs_of c (final r2)) = [assign [("_id", i)] d].
Proof.
  intros Hid Ht Hl Ha Hu Hld Hk Hw t r1 r2.
  pose proof (literal_identifier i Hl Ha) as Hi.
  pose proof (literal_document d Hu Hld) as Hd.
  destruct (well_keyed_parts _ Hw) as [Hkeyed Hdist].
  assert (Hup : Table.upsert t (VObj d) VUndefined = Table.set t i (VObj d) VUndefined).
  { unfold Table.upsert, Table.set, read. simpl. rewrite Hid, Ht. reflexivity. }
  pose proof (well_keyed_stored_under c i d st Hi Hw) as Hw'.
  destruct (well_keyed_parts _ Hw') as [Hkeyed' Hdist'].
  assert (H1 : r1 = mkResult (Returned (VObj (assign [("_id", i)] d)))
                      (stored_under c i d st)
                      [ReplaceOne c (VObj [("_id", i)]) (VObj d)
                                  (VObj [("upsert", VBool true)])] []).
  { subst r1 t. rewrite Hup. apply run_set; assumption. }
  assert (H2 : r2 = mkResult (Returned (VObj (assign [("_id", i)] d)))
                      (stored_under c i d st)
                      [ReplaceOne c (VObj [("_id", i)]) (VObj d)
                                  (VObj [("upsert", VBool true)])] []).
  { subst r2 t. rewrite Hup, H1. cbn [final].
    rewrite (run_set _ c tb i d Ht Hi Hd Hk Hkeyed'), stored_under_twice.
    reflexivity. }
  rewrite H2, H1. cbn [res final].
  repeat split.
  rewrite (spread_onto_id i d (document_unique_keys d Hd) Hk).
  apply filter_unique; [exact Hdist' | apply find_stored_under].
Qed.

Lemma upsert_twice_witness :
  lookup "id" [("id", VStr "cy"); ("age", VNum 20)] = Some (VStr "cy")
  /\ truthy (VStr "cy") = true
  /\ literal (VStr "cy") = true
  /\ isArray (VStr "cy") = false
  /\ unique_keys [("id", VStr "cy"); ("age", VNum 20)] = true
  /\ literal (VObj [("id", VStr "cy"); ("age", VNum 20)]) = true
  /\ Mongo.keeps_id (VStr "cy") [("id", VStr "cy"); ("age", VNum 20)] = true
  /\ well_keyed (Mongo.docs_of "users" two_users) = true
  /\ res (run Mongo.mongo
            (Table.upsert users_table (VObj [("id", VStr "cy"); ("age", VNum 20)])
                          VUndefined) two_users)
     = Returned (VObj [("_id", VStr "cy"); ("id", VStr "cy"); ("age", VNum 20)]).
Proof.
  repeat (split; [reflexivity |]).
  apply (upsert_twice two_users "users" VUndefined (VStr "cy")
           [("id", VStr "cy"); ("age", VNum 20)]
           eq_refl eq_refl eq_refl eq_refl eq_refl eq_refl eq_refl eq_refl).
Defined.

(** X10.  [set] under one identifier does not disturb another: on a
    collection with keyed documents and unique identifiers, for non-empty
    (truthy) identifiers [i] and [j] that are plain data, not arrays and
    different, and a document [d] of plain data that carries no [_id] other
    than [i], [get(j)] returns after [set(i, d)] what it returned
    before. *)
Theorem set_leaves_other_identifiers
        (st : Mongo.store) (c : string) (tb i j : value) (d : obj) :
  truthy i = true ->
  literal i = true ->
  isArray i = false ->
  unique_keys d = true ->
  literal (VObj d) = true ->
  Mongo.keeps_id i d = true ->
  well_keyed (Mongo.docs_of c st) = true ->
  truthy j = true ->
  literal j = true ->
  isArray j = false ->
  Mongo.value_eqb i j = false ->
  let t := Table.mkBound (VHandle c) tb in
  let r := run Mongo.mongo (Table.set t i (VObj d) VUndefined) st in
  res (run Mongo.mongo (Table.get t j) (final r))
  = res (run Mongo.mongo (Table.get t j) st).
Proof.
  intros Ht Hl Ha Hu Hld Hk Hw Htj Hlj Haj Hij t r.
  pose proof (literal_identifier i Hl Ha) as Hi.
  pose proof (literal_document d Hu Hld) as Hd.
  pose proof (literal_identifier j Hlj Haj) as Hj.
  destruct (well_keyed_parts _ Hw) as [Hkeyed Hdist].
  pose proof (well_keyed_stored_under c i d st Hi Hw) as Hw'.
  destruct (well_keyed_parts _ Hw') as [Hkeyed' _].
  assert (Hr : final r = stored_under c i d st).
  { subst r t. rewrite (run_set st c tb i d Ht Hi Hd Hk Hkeyed). reflexivity. }
  unfold t. rewrite Hr, !run_get by assumption. cbn [res].
  rewrite !find_by_id_keyed by assumption.
  rewrite docs_of_stored_under.
  assert (Hy : Mongo.has_id j (Mongo.with_id i d) = false).
  { rewrite has_id_with_id. exact Hij. }
  destruct (List.find (Mongo.has_id i) (Mongo.docs_of c st)).
  - rewrite find_replace_first_other; auto.
    intros x Hx. apply (has_id_other i j x Hij Hx).
  - rewrite find_app_other; auto.
Qed.

Lemma set_leaves_other_identifiers_witness :
  truthy (VStr "ann") = true
  /\ literal (VStr "ann") = true
  /\ isArray (VStr "ann") = false
  /\ unique_keys [("age", VNum 40)] = true
  /\ literal (VObj [("age", VNum 40)]) = true
  /\ Mongo.keeps_id (VStr "ann") [("age", VNum 40)] = true
  /\ well_keyed (Mongo.docs_of "users" two_users) = true
  /\ truthy (VStr "bob") = true
  /\ literal (VStr "bob") = true
  /\ isArray (VStr "bob") = false
  /\ Mongo.value_eqb (VStr "ann") (VStr "bob") = false
  /\ res (run Mongo.mongo (Table.get users_table (VStr "bob"))
            (final (run Mongo.mongo
                      (Table.set users_table (VStr "ann") (VObj [("age", VNum 40)])
                                 VUndefined) two_users)))
     = Returned (VObj bob).
Proof.
  repeat (split; [reflexivity |]).
  transitivity (res (run Mongo.mongo (Table.get users_table (VStr "bob")) two_users));
    [| reflexivity].
  apply (set_leaves_other_identifiers two_users "users" VUndefined
           (VStr "ann") (VStr "bob") [("age", VNum 40)]
           eq_refl eq_refl eq_refl eq_refl eq_refl eq_refl eq_refl eq_refl
           eq_refl eq_refl eq_refl).
Defined.

(** ** Queries *)

Lemma filter_true {A : Type} (p : A -> bool) (l : list A) :
  (forall x, In x l -> p x = true) -> filter p l = l.
Proof.
  induction l as [| x l IH]; intros H; simpl; [reflexivity |].
  rewrite (H x (or_introl eq_refl)). f_equal. apply IH.
  intros y Hy. apply H. right. exact Hy.
Qed.

Lemma find_docs_plain (q : obj) (ds : list obj) :
  Mongo.find_docs q VUndefined ds = filter (Mongo.matches q) ds.
Proof. unfold Mongo.find_docs. simpl. apply map_id. Qed.

Lemma run_find (st : Mongo.store) (c : string) (f : value) (q : obj) :
  Mongo.valid_filter f = Some q ->
  run Mongo.mongo (await (Find c f VUndefined)) st
  = mkResult (Returned (VArr (map VObj (filter (Mongo.matches q) (Mongo.docs_of c st)))))
      st [Find c f VUndefined] [].
Proof.
  intros Hv. rewrite run_await.
  change (Mongo.mongo (Find c f VUndefined) st)
    with (Mongo.find_toArray c f VUndefined st).
  unfold Mongo.find_toArray. rewrite Hv, find_docs_plain. reflexivity.
Qed.

Lemma plain_parts (v : value) :
  plain v = true -> Mongo.storable v = true /\ Mongo.operator_expr v = None.
Proof.
  unfold plain. intros H. apply andb_prop in H. destruct H as [H1 H2].
  destruct (Mongo.operator_expr v); [discriminate | auto].
Qed.

Lemma identifier_plain (i : value) : identifier i = true -> plain i = true.
Proof.
  intros H. destruct (identifier_parts i H) as (Hs & _ & Ho).
  unfold plain. rewrite Hs, Ho. reflexivity.
Qed.

Lemma equality_filter_valid (index : string) (v : value) :
  plain v = true -> Mongo.is_operator index = false ->
  Mongo.valid_filter (VObj [(index, v)]) = Some [(index, v)].
Proof.
  intros Hp Hop. destruct (plain_parts v Hp) as [Hs Ho].
  unfold Mongo.valid_filter. simpl. rewrite (to_bson_storable v Hs).
  unfold Mongo.valid_fields, Mongo.cond_valid. simpl. rewrite Hop, Ho. reflexivity.
Qed.

Lemma equality_matches (index : string) (v : value) (d : obj) :
  plain v = true ->
  Mongo.matches [(index, v)] d = Mongo.eq_match (lookup index d) v.
Proof.
  intros Hp. destruct (plain_parts v Hp) as [_ Ho].
  unfold Mongo.matches, Mongo.cond_holds. simpl. rewrite Ho. apply andb_true_r.
Qed.

(** X11.  For a plain value [v] and the name [index] of a top-level field,
    [getBy(index, v)], called without options, issues one [find] with the
    filter [{[index]: v}] and returns, in some order, exactly the documents
    whose field [index] equals [v] or is an array holding it (a missing
    field counts as [null]), each once; the store is left as it is. *)
Theorem getBy_selects_by_equality
        (st : Mongo.store) (c : string) (tb v : value) (index : string) :
  literal v = true ->
  field_name index = true ->
  let t := Table.mkBound (VHandle c) tb in
  exists l,
    Permutation l
      (filter (fun d => Mongo.eq_match (lookup index d) v) (Mongo.docs_of c st))
    /\ run Mongo.mongo (Table.getBy t index v VUndefined) st
       = mkResult (Returned (VArr (map VObj l))) st
           [Find c (VObj [(index, v)]) VUndefined] [].
Proof.
  intros Hl Hn t.
  pose proof (literal_plain v Hl) as Hp.
  destruct (field_name_parts index Hn) as [Hop _].
  eexists. split; [apply Permutation_refl |].
  change (Table.getBy t index v VUndefined)
    with (await (Find c (VObj [(index, v)]) VUndefined)).
  rewrite (run_find st c _ _ (equality_filter_valid index v Hp Hop)).
  do 4 f_equal. apply filter_ext. intros d. apply equality_matches, Hp.
Qed.

Lemma getBy_selects_by_equality_witness :
  literal (VNum 27) = true
  /\ field_name "age" = true
  /\ exists l,
       Permutation l [bob]
       /\ run Mongo.mongo (Table.getBy users_table "age" (VNum 27) VUndefined) two_users
          = mkResult (Returned (VArr (map VObj l))) two_users
              [Find "users" (VObj [("age", VNum 27)]) VUndefined] [].
Proof.
  repeat (split; [reflexivity |]).
  apply (getBy_selects_by_equality two_users "users" VUndefined (VNum 27) "age"
           eq_refl eq_refl).
Defined.

Lemma in_filter_valid (op : string) (l : list value) :
  (op = "$in" \/ op = "$all") ->
  Mongo.storable (VArr l) = true ->
  Mongo.valid_filter (VObj [("_id", VObj [(op, VArr l)])])
  = Some [("_id", VObj [(op, VArr l)])].
Proof.
  intros Hop Hs.
  assert (Hb : Mongo.to_bson (VObj [("_id", VObj [(op, VArr l)])])
               = VObj [("_id", VObj [(op, VArr l)])]).
  { apply to_bson_storable. simpl in *. rewrite Hs. reflexivity. }
  unfold Mongo.valid_filter. rewrite Hb.
  destruct Hop as [-> | ->]; reflexivity.
Qed.

Lemma eq_match_keyed (i : value) (d : obj) :
  keyed d = true -> Mongo.eq_match (lookup "_id" d) i = Mongo.has_id i d.
Proof.
  unfold keyed, Mongo.has_id, Mongo.eq_match.
  destruct (lookup "_id" d) as [v |]; [| discriminate].
  destruct v; simpl; try discriminate; intros _; apply orb_false_r.
Qed.

Lemma existsb_ext_in {A : Type} (p q : A -> bool) (l : list A) :
  (forall x, In x l -> p x = q x) -> existsb p l = existsb q l.
Proof.
  induction l as [| x l IH]; intros H; simpl; [reflexivity |].
  rewrite (H x (or_introl eq_refl)), IH; [reflexivity |].
  intros y Hy. apply H. right. exact Hy.
Qed.

Lemma forallb_ext_in {A : Type} (p q : A -> bool) (l : list A) :
  (forall x, In x l -> p x = q x) -> forallb p l = forallb q l.
Proof.
  induction l as [| x l IH]; intros H; simpl; [reflexivity |].
  rewrite (H x (or_introl eq_refl)), IH; [reflexivity |].
  intros y Hy. apply H. right. exact Hy.
Qed.

Lemma filter_ext_in_obj (p q : obj -> bool) (l : list obj) :
  (forall x, In x l -> p x = q x) -> filter p l = filter q l.
Proof.
  induction l as [| x l IH]; intros H; simpl; [reflexivity |].
  rewrite (H x (or_introl eq_refl)), IH; [reflexivity |].
  intros y Hy. apply H. right. exact Hy.
Qed.

(** X12.  On a collection with keyed documents, for a list [ids] of plain
    values, [getAll(ids)] issues one [find] with [{_id: {$in: ids}}] and
    returns, in some order, exactly the stored documents whose [_id] is an
    element of [ids], each once; identifiers that are not stored are passed
    over; and [getAll()] returns the empty list. *)
Theorem getAll_selects_by_membership
        (st : Mongo.store) (c : string) (tb : value) (ids : list value) :
  literal (VArr ids) = true ->
  forallb keyed (Mongo.docs_of c st) = true ->
  let t := Table.mkBound (VHandle c) tb in
  (exists l,
     Permutation l
       (filter (fun d => existsb (fun i => Mongo.has_id i d) ids) (Mongo.docs_of c st))
     /\ run Mongo.mongo (Table.getAll t (VArr ids)) st
        = mkResult (Returned (VArr (map VObj l))) st
            [Find c (VObj [("_id", VObj [("$in", VArr ids)])]) VUndefined] [])
  /\ res (run Mongo.mongo (Table.getAll t VUndefined) st) = Returned (VArr []).
Proof.
  intros Hl Hk t.
  pose proof (literal_storable (VArr ids) Hl) as Hs.
  split.
  - eexists. split; [apply Permutation_refl |].
    change (Table.getAll t (VArr ids))
      with (await (Find c (VObj [("_id", VObj [("$in", VArr ids)])]) VUndefined)).
    rewrite (run_find st c _ _ (in_filter_valid "$in" ids (or_introl eq_refl) Hs)).
    do 4 f_equal. apply filter_ext_in_obj. intros d Hd.
    rewrite forallb_forall in Hk.
    unfold Mongo.matches, Mongo.cond_holds. simpl. unfold Mongo.op_holds. simpl.
    rewrite !andb_true_r. apply existsb_ext_in. intros i _.
    apply eq_match_keyed, Hk, Hd.
  - change (Table.getAll t VUndefined)
      with (await (Find c (VObj [("_id", VObj [("$in", VArr [])])]) VUndefined)).
    rewrite (run_find st c _ _ (in_filter_valid "$in" [] (or_introl eq_refl) eq_refl)).
    cbn [res]. do 2 f_equal. clear Hk.
    induction (Mongo.docs_of c st) as [| d ds IH]; [reflexivity | exact IH].
Qed.

Lemma getAll_selects_by_membership_witness :
  literal (VArr [VStr "bob"; VStr "zed"]) = true
  /\ forallb keyed (Mongo.docs_of "users" two_users) = true
  /\ exists l,
       Permutation l [bob]
       /\ run Mongo.mongo
            (Table.getAll users_table (VArr [VStr "bob"; VStr "zed"])) two_users
          = mkResult (Returned (VArr (map VObj l))) two_users
              [Find "users" (VObj [("_id", VObj [("$in", VArr [VStr "bob"; VStr "zed"])])])
                    VUndefined] [].
Proof.
  repeat (split; [reflexivity |]).
  apply (getAll_selects_by_membership two_users "users" VUndefined
           [VStr "bob"; VStr "zed"] eq_refl eq_refl).
Defined.

(** ** Bulk deletion *)

Lemma run_deleteMany (st : Mongo.store) (c : string) (f : value) (q : obj) :
  Mongo.valid_filter f = Some q ->
  run Mongo.mongo (await (DeleteMany c f)) st
  = mkResult
      (Returned (VObj [("acknowledged", VBool true);
                       ("deletedCount",
                        VNum (Z.of_nat (List.length
                                (filter (Mongo.matches q) (Mongo.docs_of c st)))))]))
      (Mongo.set_docs c (filter (fun d => negb (Mongo.matches q d)) (Mongo.docs_of c st)) st)
      [DeleteMany c f] [].
Proof.
  intros Hv. rewrite run_await.
  change (Mongo.mongo (DeleteMany c f) st) with (Mongo.deleteMany c f st).
  unfold Mongo.deleteMany. rewrite Hv. reflexivity.
Qed.

Lemma docs_after_deleteMany (st : Mongo.store) (c : string) (p : obj -> bool) :
  Mongo.docs_of c (Mongo.set_docs c (filter p (Mongo.docs_of c st)) st)
  = filter p (Mongo.docs_of c st).
Proof.
  apply docs_of_set_docs. intros Hn. rewrite (docs_of_missing c st Hn). reflexivity.
Qed.

(** The documents [{ $all: ids }] selects on [_id]. *)
Lemma all_matches_keyed (ids : list value) (d : obj) :
  keyed d = true ->
  Mongo.matches [("_id", VObj [("$all", VArr ids)])] d
  = match ids with
    | [] => false
    | _ => forallb (fun i => Mongo.has_id i d) ids
    end.
Proof.
  intros Hk. unfold Mongo.matches, Mongo.cond_holds. simpl.
  unfold Mongo.op_holds. simpl. rewrite !andb_true_r.
  destruct ids as [| a ids]; [reflexivity |].
  apply forallb_ext_in. intros i _. apply eq_match_keyed, Hk.
Qed.

Lemma no_document_under_two_identifiers (ids : list value) (a b : value) (d : obj) :
  In a ids -> In b ids -> Mongo.value_eqb a b = false ->
  forallb (fun i => Mongo.has_id i d) ids = false.
Proof.
  intros Ha Hb Hab.
  destruct (forallb (fun i => Mongo.has_id i d) ids) eqn:E; [| reflexivity].
  rewrite forallb_forall in E.
  pose proof (has_id_doc_id a d (E a Ha)) as H1.
  pose proof (has_id_doc_id b d (E b Hb)) as H2.
  rewrite <- H1, <- H2, value_eqb_refl in Hab. discriminate.
Qed.

(** X13.  On a collection with keyed documents, [deleteAll(ids)] issues one
    [deleteMany] that removes the documents whose [_id] equals every element
    of [ids], and no other: the documents under [i] when [ids] is [[i]],
    none when [ids] is empty or holds two different identifiers. *)
Theorem deleteAll_removes_what_equals_every_identifier
        (st : Mongo.store) (c : string) (tb : value) (ids : list value) :
  Mongo.storable (VArr ids) = true ->
  forallb keyed (Mongo.docs_of c st) = true ->
  let t := Table.mkBound (VHandle c) tb in
  let r := run Mongo.mongo (Table.deleteAll t (VArr ids)) st in
  let hit d := match ids with
               | [] => false
               | _ => forallb (fun i => Mongo.has_id i d) ids
               end in
  calls r = [DeleteMany c (VObj [("_id", VObj [("$all", VArr ids)])])]
  /\ Mongo.docs_of c (final r) = filter (fun d => negb (hit d)) (Mongo.docs_of c st)
  /\ (forall i, ids = [i] ->
        Mongo.docs_of c (final r)
        = filter (fun d => negb (Mongo.has_id i d)) (Mongo.docs_of c st))
  /\ (ids = [] -> Mongo.docs_of c (final r) = Mongo.docs_of c st)
  /\ (forall a b, In a ids -> In b ids -> Mongo.value_eqb a b = false ->
        Mongo.docs_of c (final r) = Mongo.docs_of c st).
Proof.
  intros Hs Hk t r hit.
  assert (Hr : Mongo.docs_of c (final r)
               = filter (fun d => negb (hit d)) (Mongo.docs_of c st)).
  { subst r.
    change (Table.deleteAll t (VArr ids))
      with (await (DeleteMany c (VObj [("_id", VObj [("$all", VArr ids)])]))).
    rewrite (run_deleteMany st c _ _ (in_filter_valid "$all" ids (or_intror eq_refl) Hs)).
    cbn [final]. rewrite docs_after_deleteMany.
    apply filter_ext_in_obj. intros d Hd. rewrite forallb_forall in Hk.
    rewrite (all_matches_keyed ids d (Hk d Hd)). reflexivity. }
  split; [| split; [exact Hr | split; [| split]]].
  - subst r.
    change (Table.deleteAll t (VArr ids))
      with (await (DeleteMany c (VObj [("_id", VObj [("$all", VArr ids)])]))).
    rewrite (run_deleteMany st c _ _ (in_filter_valid "$all" ids (or_intror eq_refl) Hs)).
    reflexivity.
  - intros i Hi. rewrite Hr. subst hit. rewrite Hi.
    apply filter_ext. intros d. simpl. rewrite andb_true_r. reflexivity.
  - intros Hi. rewrite Hr. subst hit. rewrite Hi. apply filter_true. reflexivity.
  - intros a b Ha Hb Hab. rewrite Hr. apply filter_true. intros d _.
    subst hit. cbv beta. destruct ids as [| i ids]; [reflexivity |].
    rewrite (no_document_under_two_identifiers (i :: ids) a b d Ha Hb Hab).
    reflexivity.
Qed.

Lemma deleteAll_removes_what_equals_every_identifier_witness :
  Mongo.storable (VArr [VStr "ann"]) = true
  /\ forallb keyed (Mongo.docs_of "users" two_users) = true
  /\ Mongo.docs_of "users"
       (final (run Mongo.mongo (Table.deleteAll users_table (VArr [VStr "ann"]))
                   two_users))
     = [bob].
Proof.
  repeat (split; [reflexivity |]).
  destruct (deleteAll_removes_what_equals_every_identifier two_users "users"
              VUndefined [VStr "ann"] eq_refl eq_refl) as (_ & _ & H & _).
  apply (H (VStr "ann") eq_refl).
Defined.

(** ** Listing *)

(** X14.  [list()] issues one [find] with the empty filter and returns every
    document of the collection, in some order, leaving the store as it is.
    After [drop(filter)], for a filter of equality conditions on top-level
    fields (or no filter), it returns exactly the documents that did not
    agree with the filter, and after [drop()] the empty list. *)
Theorem list_after_drop (st : Mongo.store) (c : string) (tb q : value) (f : obj) :
  default_arg q (VObj []) = VObj f ->
  equalities f = true ->
  let t := Table.mkBound (VHandle c) tb in
  let after := final (run Mongo.mongo (Table.drop t q) st) in
  (exists l,
     Permutation l (Mongo.docs_of c st)
     /\ run Mongo.mongo (Table.list t) st
        = mkResult (Returned (VArr (map VObj l))) st [Find c (VObj []) VUndefined] [])
  /\ (exists l,
        Permutation l (filter (fun d => negb (agrees f d)) (Mongo.docs_of c st))
        /\ res (run Mongo.mongo (Table.list t) after) = Returned (VArr (map VObj l)))
  /\ (q = VUndefined ->
      res (run Mongo.mongo (Table.list t) after) = Returned (VArr [])).
Proof.
  intros Hq Heq t after.
  assert (Hf : Mongo.valid_filter (default_arg q (VObj [])) = Some f).
  { rewrite Hq. apply equalities_valid, Heq. }
  assert (Hlist : forall st0,
    run Mongo.mongo (Table.list t) st0
    = mkResult (Returned (VArr (map VObj (Mongo.docs_of c st0)))) st0
        [Find c (VObj []) VUndefined] []).
  { intros st0.
    change (Table.list t) with (await (Find c (VObj []) VUndefined)).
    rewrite (run_find st0 c (VObj []) [] eq_refl).
    rewrite filter_true by reflexivity. reflexivity. }
  assert (Hdrop : Mongo.docs_of c after
                  = filter (fun d => negb (agrees f d)) (Mongo.docs_of c st)).
  { subst after.
    change (Table.drop t q) with (await (DeleteMany c (default_arg q (VObj [])))).
    rewrite (run_deleteMany st c _ f Hf). cbn [final].
    rewrite docs_after_deleteMany.
    apply filter_ext. intros d. rewrite (equalities_matches f d Heq). reflexivity. }
  split; [| split].
  - eexists. split; [apply Permutation_refl | apply Hlist].
  - eexists. split; [apply Permutation_refl |].
    rewrite Hlist. cbn [res]. rewrite Hdrop. reflexivity.
  - intros ->. simpl in Hq. injection Hq as <-.
    rewrite Hlist. cbn [res]. rewrite Hdrop. do 2 f_equal. clear.
    induction (Mongo.docs_of c st) as [| d ds IH]; [reflexivity | exact IH].
Qed.

Lemma list_after_drop_witness :
  default_arg (VObj [("age", VNum 27)]) (VObj []) = VObj [("age", VNum 27)]
  /\ equalities [("age", VNum 27)] = true
  /\ exists l,
       Permutation l [ann]
       /\ res (run Mongo.mongo (Table.list users_table)
                 (final (run Mongo.mongo
                           (Table.drop users_table (VObj [("age", VNum 27)]))
                           two_users)))
          = Returned (VArr (map VObj l)).
Proof.
  repeat (split; [reflexivity |]).
  destruct (list_after_drop two_users "users" VUndefined (VObj [("age", VNum 27)])
              [("age", VNum 27)] eq_refl eq_refl) as (_ & H & _).
  exact H.
Defined.

(** ** Partial update *)

Lemma lookup_assign (k : string) (f acc : obj) :
  unique_keys f = true ->
  lookup k (assign acc f)
  = match lookup k f with Some v => Some v | None => lookup k acc end.
Proof.
  revert acc. induction f as [| [k1 v1] f IH]; intros acc Hu; [reflexivity |].
  cbn [unique_keys] in Hu. destruct (lookup k1 f) eqn:E1; [discriminate |].
  change (assign acc ((k1, v1) :: f)) with (assign (obj_set k1 v1 acc) f).
  rewrite (IH _ Hu), lookup_obj_set. cbn [lookup].
  destruct (String.eqb_spec k k1); [| reflexivity].
  subst k. rewrite E1. reflexivity.
Qed.

Lemma replace_first_const (p : obj -> bool) (f : obj -> obj) (ds : list obj) (d : obj) :
  List.find p ds = Some d ->
  Mongo.replace_first p f ds = Mongo.replace_first p (fun _ => f d) ds.
Proof.
  induction ds as [| x ds IH]; simpl; [discriminate |].
  destruct (p x).
  - intros [= ->]. reflexivity.
  - intros Hf. f_equal. apply IH, Hf.
Qed.

Lemma replace_first_matches_keyed (i : value) (y : obj) (ds : list obj) :
  identifier i = true -> forallb keyed ds = true ->
  Mongo.replace_first (Mongo.matches [("_id", i)]) (fun _ => y) ds
  = Mongo.replace_first (Mongo.has_id i) (fun _ => y) ds.
Proof.
  intros Hi Hk. apply replace_first_ext_in; [| reflexivity].
  intros d Hd. rewrite forallb_forall in Hk. apply matches_id_keyed; auto.
Qed.

Lemma has_id_lookup (i : value) (d : obj) :
  Mongo.has_id i d = true -> lookup "_id" d = Some i.
Proof.
  unfold Mongo.has_id. destruct (lookup "_id" d) as [v |]; [| discriminate].
  intros H. apply value_eqb_eq in H. congruence.
Qed.

Lemma lookup_id_assign (i : value) (d props : obj) :
  unique_keys props = true ->
  Mongo.keeps_id i props = true ->
  lookup "_id" d = Some i ->
  lookup "_id" (assign d props) = Some i.
Proof.
  intros Hu Hk Hd. rewrite (lookup_assign "_id" props d Hu).
  destruct (keeps_id_cases i props Hk) as [H | H]; rewrite H; [exact Hd | reflexivity].
Qed.

Lemma update_program (c : string) (tb i props : value) :
  truthy i = true ->
  Table.update (Table.mkBound (VHandle c) tb) i props VUndefined
  = (row <- await (FindOneAndUpdate c (VObj [("_id", i)]) (VObj [("$set", props)])
                     (VObj [("upsert", VBool true); ("returnNewDocument", VBool true)])) ;;
     read row "value")%prog.
Proof.
  intros Ht. unfold Table.update, assert. rewrite Ht. reflexivity.
Qed.

(** X15.  On a collection with keyed documents and unique identifiers, for
    a non-empty (truthy) identifier [i] that is plain data, not an array,
    under which a document is stored, and a non-empty object [props] of
    plain data that carries no [_id] other than [i]: [update(i, props)]
    merges.  In the stored document the fields named in [props] take the
    values of [props] and every other field keeps its value; the other
    documents are untouched; and the call returns the document as it was
    before the merge. *)
Theorem update_merges_into_the_stored_document
        (st : Mongo.store) (c : string) (tb i : value) (props d0 : obj) :
  truthy i = true ->
  literal i = true ->
  isArray i = false ->
  props <> [] ->
  unique_keys props = true ->
  literal (VObj props) = true ->
  Mongo.keeps_id i props = true ->
  well_keyed (Mongo.docs_of c st) = true ->
  List.find (Mongo.has_id i) (Mongo.docs_of c st) = Some d0 ->
  let t := Table.mkBound (VHandle c) tb in
  let r := run Mongo.mongo (Table.update t i (VObj props) VUndefined) st in
  res r = Returned (VObj d0)
  /\ exists d1,
       Mongo.docs_of c (final r)
       = Mongo.replace_first (Mongo.has_id i) (fun _ => d1) (Mongo.docs_of c st)
       /\ List.find (Mongo.has_id i) (Mongo.docs_of c (final r)) = Some d1
       /\ (forall k, lookup k d1
                     = match lookup k props with
                       | Some v => Some v
                       | None => lookup k d0
                       end).
Proof.
  intros Ht Hl Ha _ Hu Hlp Hk Hw Hf t r.
  pose proof (literal_identifier i Hl Ha) as Hi.
  pose proof (literal_storable (VObj props) Hlp) as Hs.
  destruct (well_keyed_parts _ Hw) as [Hkeyed _].
  destruct (find_some _ _ Hf) as [Hin Hm].
  pose proof (has_id_doc_id i d0 Hm) as Hid.
  assert (Hr : r = mkResult (Returned (VObj d0))
                     (Mongo.put_coll c
                        (Mongo.with_docs (Mongo.the_coll c st)
                           (Mongo.replace_first (Mongo.has_id i)
                              (fun _ => assign d0 props) (Mongo.docs_of c st))) st)
                     [FindOneAndUpdate c (VObj [("_id", i)])
                        (VObj [("$set", VObj props)])
                        (VObj [("upsert", VBool true);
                               ("returnNewDocument", VBool true)])] []).
  { subst r t. rewrite (update_program c tb i (VObj props) Ht), run_bind, run_await.
    change (Mongo.mongo (FindOneAndUpdate c ?f ?u ?o) st)
      with (Mongo.findOneAndUpdate c f u o st).
    unfold Mongo.findOneAndUpdate.
    assert (Hb : Mongo.to_bson (VObj [("$set", VObj props)])
                 = VObj [("$set", VObj props)]).
    { apply to_bson_storable. simpl in *. rewrite Hs. reflexivity. }
    rewrite (id_filter_valid i Hi), Hb. cbv zeta.
    fold (Mongo.docs_of c st).
    rewrite (find_by_id_keyed i _ Hi Hkeyed), Hf, Hid, Hk.
    rewrite (replace_first_const _ (fun d => assign d props) _ d0).
    - rewrite (replace_first_matches_keyed i _ _ Hi Hkeyed). reflexivity.
    - rewrite (find_by_id_keyed i _ Hi Hkeyed). exact Hf. }
  rewrite Hr. cbn [res final]. rewrite docs_of_put. cbn [Mongo.c_docs Mongo.with_docs].
  split; [reflexivity |].
  exists (assign d0 props). split; [reflexivity | split].
  - apply (find_replace_first _ (fun _ => assign d0 props) _ d0 Hf).
    unfold Mongo.has_id.
    rewrite (lookup_id_assign i d0 props Hu Hk (has_id_lookup i d0 Hm)).
    apply value_eqb_refl.
  - intros k. apply lookup_assign, Hu.
Qed.

Lemma update_merges_into_the_stored_document_witness :
  truthy (VStr "ann") = true
  /\ literal (VStr "ann") = true
  /\ isArray (VStr "ann") = false
  /\ [("age", VNum 32)] <> []
  /\ unique_keys [("age", VNum 32)] = true
  /\ literal (VObj [("age", VNum 32)]) = true
  /\ Mongo.keeps_id (VStr "ann") [("age", VNum 32)] = true
  /\ well_keyed (Mongo.docs_of "users" two_users) = true
  /\ List.find (Mongo.has_id (VStr "ann")) (Mongo.docs_of "users" two_users) = Some ann
  /\ res (run Mongo.mongo
            (Table.update users_table (VStr "ann") (VObj [("age", VNum 32)]) VUndefined)
            two_users)
     = Returned (VObj ann).
Proof.
  assert (Hne : [("age", VNum 32)] <> @nil (string * value)) by discriminate.
  repeat (split; [reflexivity || exact Hne |]).
  apply (update_merges_into_the_stored_document two_users "users" VUndefined
           (VStr "ann") [("age", VNum 32)] ann
           eq_refl eq_refl eq_refl Hne eq_refl eq_refl eq_refl eq_refl eq_refl).
Defined.

Lemma findOneAndUpdate_missing (st : Mongo.store) (c : string) (i : value) (props : obj) :
  identifier i = true ->
  unique_keys props = true ->
  Mongo.storable (VObj props) = true ->
  Mongo.keeps_id i props = true ->
  forallb keyed (Mongo.docs_of c st) = true ->
  List.find (Mongo.has_id i) (Mongo.docs_of c st) = None ->
  Mongo.findOneAndUpdate c (VObj [("_id", i)]) (VObj [("$set", VObj props)])
    (VObj [("upsert", VBool true); ("returnNewDocument", VBool true)]) st
  = (Mongo.modify_result VNull false,
     Mongo.put_coll c
       (Mongo.with_docs (Mongo.the_coll c st)
          (Mongo.docs_of c st ++ [assign [("_id", i)] props])) st)
  /\ Mongo.findOneAndUpdate c (VObj [("_id", i)]) (VObj [("$set", VObj props)])
       (VObj [("upsert", VBool false); ("returnNewDocument", VBool true)]) st
     = (Resolved (VObj [("lastErrorObject",
                         VObj [("n", VNum 0); ("updatedExisting", VBool false)]);
                        ("value", VNull); ("ok", VNum 1)]), st).
Proof.
  intros Hi Hu Hs Hk Hkeyed Hf.
  destruct (identifier_parts i Hi) as (Hsi & Ha & Ho).
  assert (Hb : Mongo.to_bson (VObj [("$set", VObj props)])
               = VObj [("$set", VObj props)]).
  { apply to_bson_storable. simpl in *. rewrite Hs. reflexivity. }
  assert (He : existsb (Mongo.has_id i) (Mongo.docs_of c st) = false).
  { rewrite <- find_existsb, Hf. reflexivity. }
  assert (Hd : assign [("_id", i)] props = Mongo.with_id i props).
  { apply spread_onto_id; assumption. }
  assert (Heq : Mongo.equality_fields [("_id", i)] = [("_id", i)]).
  { unfold Mongo.equality_fields. simpl. rewrite Ho. reflexivity. }
  assert (Hfid : Mongo.filter_id [("_id", i)] = Some i).
  { unfold Mongo.filter_id. simpl. rewrite Ho. reflexivity. }
  assert (Hw : Mongo.with_id i (Mongo.with_id i props) = Mongo.with_id i props).
  { unfold Mongo.with_id. simpl. rewrite obj_remove_idem. reflexivity. }
  assert (Hins : Mongo.insert_doc c (Mongo.with_id i props) st
                 = (inr i,
                    Mongo.put_coll c
                      (Mongo.with_docs (Mongo.the_coll c st)
                         (Mongo.docs_of c st ++ [Mongo.with_id i props])) st)).
  { unfold Mongo.insert_doc. cbv zeta. fold (Mongo.docs_of c st).
    change (lookup "_id" (Mongo.with_id i props)) with (Some i).
    cbv iota. rewrite Ha, He, Hw. reflexivity. }
  split.
  - unfold Mongo.findOneAndUpdate.
    rewrite (id_filter_valid i Hi), Hb. cbv zeta.
    fold (Mongo.docs_of c st).
    rewrite (find_by_id_keyed i _ Hi Hkeyed), Hf, Heq, Hfid, Hk, Hd, Hins.
    reflexivity.
  - unfold Mongo.findOneAndUpdate.
    rewrite (id_filter_valid i Hi), Hb. cbv zeta.
    fold (Mongo.docs_of c st).
    rewrite (find_by_id_keyed i _ Hi Hkeyed), Hf. reflexivity.
Qed.

(** X16.  On a collection with keyed documents and unique identifiers, for
    a non-empty (truthy) identifier [i] that is plain data, not an array,
    under which no document is stored, and a non-empty object [props] of
    plain data that carries no [_id] other than [i]: [update(i, props)]
    returns [null] and, with its default options, adds one document to the
    collection, which has [i] for [_id] and otherwise the fields of
    [props]; with the options [{upsert: false}] it returns [null] as well
    and leaves the store as it is. *)
Theorem update_of_a_missing_identifier
        (st : Mongo.store) (c : string) (tb i : value) (props : obj) :
  truthy i = true ->
  literal i = true ->
  isArray i = false ->
  props <> [] ->
  unique_keys props = true ->
  literal (VObj props) = true ->
  Mongo.keeps_id i props = true ->
  well_keyed (Mongo.docs_of c st) = true ->
  List.find (Mongo.has_id i) (Mongo.docs_of c st) = None ->
  let t := Table.mkBound (VHandle c) tb in
  let r := run Mongo.mongo (Table.update t i (VObj props) VUndefined) st in
  let r' := run Mongo.mongo
              (Table.update t i (VObj props) (VObj [("upsert", VBool false)])) st in
  res r = Returned VNull
  /\ (exists d1,
        Permutation (Mongo.docs_of c (final r)) (d1 :: Mongo.docs_of c st)
        /\ forall k, lookup k d1
                     = if String.eqb k "_id" then Some i else lookup k props)
  /\ res r' = Returned VNull
  /\ final r' = st.
Proof.
  intros Ht Hl Ha _ Hu Hlp Hk Hw Hf t r r'.
  pose proof (literal_identifier i Hl Ha) as Hi.
  pose proof (literal_storable (VObj props) Hlp) as Hs.
  destruct (well_keyed_parts _ Hw) as [Hkeyed _].
  destruct (findOneAndUpdate_missing st c i props Hi Hu Hs Hk Hkeyed Hf) as [H1 H2].
  assert (Hr : r = mkResult (Returned VNull)
                     (Mongo.put_coll c
                        (Mongo.with_docs (Mongo.the_coll c st)
                           (Mongo.docs_of c st ++ [assign [("_id", i)] props])) st)
                     [FindOneAndUpdate c (VObj [("_id", i)])
                        (VObj [("$set", VObj props)])
                        (VObj [("upsert", VBool true);
                               ("returnNewDocument", VBool true)])] []).
  { subst r t. rewrite (update_program c tb i (VObj props) Ht), run_bind, run_await.
    change (Mongo.mongo (FindOneAndUpdate c ?f ?u ?o) st)
      with (Mongo.findOneAndUpdate c f u o st).
    rewrite H1. reflexivity. }
  assert (Hr' : r' = mkResult (Returned VNull) st
                      [FindOneAndUpdate c (VObj [("_id", i)])
                         (VObj [("$set", VObj props)])
                         (VObj [("upsert", VBool false);
                                ("returnNewDocument", VBool true)])] []).
  { subst r' t.
    assert (Hp : Table.update (Table.mkBound (VHandle c) tb) i (VObj props)
                              (VObj [("upsert", VBool false)])
                 = (row <- await (FindOneAndUpdate c (VObj [("_id", i)])
                                    (VObj [("$set", VObj props)])
                                    (VObj [("upsert", VBool false);
                                           ("returnNewDocument", VBool true)])) ;;
                    read row "value")%prog).
    { unfold Table.update, assert. rewrite Ht. reflexivity. }
    rewrite Hp, run_bind, run_await.
    change (Mongo.mongo (FindOneAndUpdate c ?f ?u ?o) st)
      with (Mongo.findOneAndUpdate c f u o st).
    rewrite H2. reflexivity. }
  rewrite Hr, Hr'. cbn [res final]. rewrite docs_of_put.
  cbn [Mongo.c_docs Mongo.with_docs].
  split; [reflexivity | split; [| split; reflexivity]].
  exists (assign [("_id", i)] props). split.
  - apply Permutation_sym, Permutation_cons_append.
  - intros k. rewrite (lookup_assign k props [("_id", i)] Hu). cbn [lookup].
    destruct (String.eqb_spec k "_id") as [-> | Hne].
    + destruct (keeps_id_cases i props Hk) as [H | H]; rewrite H; reflexivity.
    + destruct (lookup k props); reflexivity.
Qed.

Lemma update_of_a_missing_identifier_witness :
  truthy (VStr "cy") = true
  /\ literal (VStr "cy") = true
  /\ isArray (VStr "cy") = false
  /\ [("age", VNum 20)] <> []
  /\ unique_keys [("age", VNum 20)] = true
  /\ literal (VObj [("age", VNum 20)]) = true
  /\ Mongo.keeps_id (VStr "cy") [("age", VNum 20)] = true
  /\ well_keyed (Mongo.docs_of "users" two_users) = true
  /\ List.find (Mongo.has_id (VStr "cy")) (Mongo.docs_of "users" two_users) = None
  /\ res (run Mongo.mongo
            (Table.update users_table (VStr "cy") (VObj [("age", VNum 20)]) VUndefined)
            two_users)
     = Returned VNull.
Proof.
  assert (Hne : [("age", VNum 20)] <> @nil (string * value)) by discriminate.
  repeat (split; [reflexivity || exact Hne |]).
  apply (update_of_a_missing_identifier two_users "users" VUndefined
           (VStr "cy") [("age", VNum 20)]
           eq_refl eq_refl eq_refl Hne eq_refl eq_refl eq_refl eq_refl eq_refl).
Defined.

(* ================================================================== *)
(** * Further properties of provisioning *)
(* ================================================================== *)

(** ** A failed index creation *)

Section IndexFailure.

Context {S : Type} (h : handler S).

Lemma served_app (cs1 cs2 : list call) (s : S) :
  served h (cs1 ++ cs2) s = served h cs2 (served h cs1 s).
Proof. unfold served. apply fold_left_app. Qed.

Lemma fails_at_last_call_ret {A : Type} (a : A) (s : S) :
  fails_at_last_call h s (run h (Ret a) s).
Proof. intros e He. discriminate He. Qed.

Lemma fails_at_last_call_await (c : string) (keys opts : value) (s : S) :
  fails_at_last_call h s (run h (await (CreateIndex c keys opts)) s).
Proof.
  intros e. rewrite run_await.
  destruct (fst (h (CreateIndex c keys opts) s)) eqn:E; simpl; [discriminate |].
  intros [= ->]. exists [], (CreateIndex c keys opts).
  split; [reflexivity | split; [do 3 eexists; reflexivity | exact E]].
Qed.

Lemma fails_at_last_call_bind {A B : Type} (p : prog A) (f : A -> prog B) (s : S) :
  fails_at_last_call h s (run h p s) ->
  (forall a s', fails_at_last_call h s' (run h (f a) s')) ->
  fails_at_last_call h s (run h (bind p f) s).
Proof.
  intros Hp Hf e. rewrite run_bind.
  destruct (res (run h p s)) as [a | e0] eqn:E.
  - cbv zeta. cbn [res calls]. intros He.
    destruct (Hf a (final (run h p s)) e He) as (cs & k & Hc & Hk & Hrej).
    exists (calls (run h p s) ++ cs), k.
    split; [rewrite Hc; apply app_assoc | split; [exact Hk |]].
    rewrite served_app, <- run_served. exact Hrej.
  - cbn [res calls]. intros [= ->]. apply (Hp e E).
Qed.

Lemma fails_at_last_call_mapSeries {A : Type} (f : A -> prog value) (l : list A) :
  (forall x, exists c keys opts, f x = await (CreateIndex c keys opts)) ->
  forall s, fails_at_last_call h s (run h (mapSeries f l) s).
Proof.
  intros Hf. induction l as [| x l IH]; intros s.
  - apply fails_at_last_call_ret.
  - simpl mapSeries. apply fails_at_last_call_bind.
    + destruct (Hf x) as (c & keys & opts & ->). apply fails_at_last_call_await.
    + intros v s'. apply fails_at_last_call_bind; [apply IH |].
      intros vs s''. apply fails_at_last_call_ret.
Qed.

Lemma fails_at_last_call_mapSeries_in {A : Type} (f : A -> prog value) (l : list A) :
  (forall x, In x l -> exists c keys opts, f x = await (CreateIndex c keys opts)) ->
  forall s, fails_at_last_call h s (run h (mapSeries f l) s).
Proof.
  induction l as [| x l IH]; intros Hf s.
  - apply fails_at_last_call_ret.
  - simpl mapSeries. apply fails_at_last_call_bind.
    + destruct (Hf x (or_introl eq_refl)) as (c & keys & opts & ->).
      apply fails_at_last_call_await.
    + intros v s'. apply fails_at_last_call_bind.
      * apply IH. intros y Hy. apply Hf. right. exact Hy.
      * intros vs s''. apply fails_at_last_call_ret.
Qed.

Lemma fails_at_last_call_index_steps (c : string) (sc : schema) (s : S) :
  forallb (fun io => ttl_ok (snd io)) (ttl sc) = true ->
  fails_at_last_call h s (run h (index_steps (VHandle c) sc) s).
Proof.
  intros Httl. unfold index_steps.
  apply fails_at_last_call_bind.
  { apply fails_at_last_call_mapSeries. intros x. do 3 eexists. reflexivity. }
  intros _ s1. apply fails_at_last_call_bind.
  { apply fails_at_last_call_mapSeries. intros x. do 3 eexists. reflexivity. }
  intros _ s2. apply fails_at_last_call_bind.
  { apply fails_at_last_call_mapSeries. intros x. do 3 eexists. reflexivity. }
  intros _ s3. apply fails_at_last_call_bind.
  { apply fails_at_last_call_mapSeries_in. intros x Hx.
    destruct (ttl_entries_ok c (ttl sc) Httl x Hx) as (c0 & keys & opts & _ & Hf).
    do 3 eexists. exact Hf. }
  intros _ s4. apply fails_at_last_call_ret.
Qed.

End IndexFailure.

(** X17.  When the collection opens and the TTL entries are well formed,
    provisioning can only fail on an index creation: the error it fails
    with is the one the store rejected the last issued call with, that call
    is a [createIndex], and nothing is issued after it. *)
Theorem index_failure_aborts_provisioning {S : Type} (h : handler S) (s : S)
        (sc : schema) (c : string) (e : exn) :
  opens h s sc c ->
  forallb (fun io => ttl_ok (snd io)) (ttl sc) = true ->
  let r := run h (Table.provision sc) s in
  res r = Thrown e ->
  exists cs k,
    calls r = cs ++ [k]
    /\ is_index_call k
    /\ fst (h k (served h cs s)) = Rejected e
    /\ prefix_of (cs ++ [k]) (provisioning_plan c sc).
Proof.
  intros Hopen Httl r He.
  destruct (provision_opened h sc s c Hopen) as [Hc Hr].
  fold r in Hc, Hr. rewrite Hr in He.
  destruct (fails_at_last_call_index_steps h c sc _ Httl e He)
    as (cs & k & Hcs & Hk & Hrej).
  exists (creation_call sc :: Collection (collection_name sc) :: cs), k.
  split; [rewrite Hc, Hcs; reflexivity | split; [exact Hk | split]].
  - exact Hrej.
  - change ((creation_call sc :: Collection (collection_name sc) :: cs) ++ [k])
      with (creation_call sc :: Collection (collection_name sc) :: (cs ++ [k])).
    rewrite <- Hcs. unfold provisioning_plan, plan_upto.
    do 2 apply prefix_of_cons. apply follows_index_steps.
Qed.

Lemma index_failure_aborts_provisioning_witness :
  let clash := mkSchema (VStr "users") VUndefined ["email"] [] []
                        [("email", VObj [("expireAfterSeconds", VNum 60)])] [] in
  opens Mongo.mongo [] clash "users"
  /\ forallb (fun io => ttl_ok (snd io)) (ttl clash) = true
  /\ res (run Mongo.mongo (Table.provision clash) [])
     = Thrown (MongoError 85 "Index already exists with different options")
  /\ exists cs k,
       calls (run Mongo.mongo (Table.provision clash) []) = cs ++ [k]
       /\ is_index_call k.
Proof.
  intros clash. repeat (split; [reflexivity |]).
  destruct (index_failure_aborts_provisioning Mongo.mongo [] clash "users"
              (MongoError 85 "Index already exists with different options")
              eq_refl eq_refl eq_refl) as (cs & k & H1 & H2 & _).
  exists cs, k. split; assumption.
Defined.

(** ** Provisioning again *)

Lemma put_coll_found (c : string) (x : Mongo.collection) (st : Mongo.store) :
  Mongo.find_coll c st = Some x -> Mongo.put_coll c x st = st.
Proof.
  induction st as [| [c' x'] st IH]; simpl; [discriminate |].
  destruct (String.eqb c c') eqn:E.
  - intros [= ->]. apply String.eqb_eq in E. subst c'. reflexivity.
  - intros H. rewrite (IH H). reflexivity.
Qed.

Lemma the_coll_found (c : string) (x : Mongo.collection) (st : Mongo.store) :
  Mongo.find_coll c st = Some x -> Mongo.the_coll c st = x.
Proof. unfold Mongo.the_coll. intros ->. reflexivity. Qed.

Lemma find_app_some {A : Type} (p : A -> bool) (l : list A) (z x : A) :
  List.find p l = Some x -> List.find p (l ++ [z]) = Some x.
Proof.
  induction l as [| y l IH]; simpl; [discriminate |].
  destruct (p y); [auto | exact IH].
Qed.

Lemma find_app_none {A : Type} (p : A -> bool) (l : list A) (z : A) :
  List.find p l = None -> p z = true -> List.find p (l ++ [z]) = Some z.
Proof.
  induction l as [| y l IH]; simpl.
  - intros _ ->. reflexivity.
  - destruct (p y); [discriminate | exact IH].
Qed.

Lemma find_coll_put_not_none (c c' : string) (x : Mongo.collection) (st : Mongo.store) :
  Mongo.find_coll c' st <> None -> Mongo.find_coll c' (Mongo.put_coll c x st) <> None.
Proof.
  intros H. destruct (String.eqb_spec c' c) as [-> | Hne].
  - rewrite find_coll_put_same. discriminate.
  - rewrite find_coll_put_other; assumption.
Qed.

Lemma grows_refl (st : Mongo.store) : grows st st.
Proof. split; auto. Qed.

Lemma grows_trans (s1 s2 s3 : Mongo.store) :
  grows s1 s2 -> grows s2 s3 -> grows s1 s3.
Proof. intros [H1 H2] [H3 H4]. split; auto. Qed.

(** Putting back a collection with the same or more indexes keeps what was
    provided. *)
Lemma grows_put (c : string) (x' : Mongo.collection) (st : Mongo.store) :
  (forall p ix,
     List.find p (Mongo.c_indexes (Mongo.the_coll c st)) = Some ix ->
     List.find p (Mongo.c_indexes x') = Some ix) ->
  grows st (Mongo.put_coll c x' st).
Proof.
  intros Hx. split.
  - intros [ | | c0 keys opts | | | | | | | ]; simpl; try contradiction.
    intros (kv & ks & Hk & x0 & ix & Hf & Hfind & Ho).
    exists kv, ks. split; [exact Hk |].
    destruct (String.eqb_spec c0 c) as [-> | Hne].
    + exists x', ix. rewrite find_coll_put_same.
      split; [reflexivity | split; [| exact Ho]].
      apply Hx. rewrite (the_coll_found c x0 st Hf). exact Hfind.
    + exists x0, ix. rewrite find_coll_put_other by exact Hne. auto.
  - intros c0. apply find_coll_put_not_none.
Qed.

(** A resolved [createIndex] provides its index and keeps the others. *)
Lemma createIndex_resolved (c : string) (keys opts v : value) (st st' : Mongo.store) :
  Mongo.createIndex c keys opts st = (Resolved v, st') ->
  provided (CreateIndex c keys opts) st' /\ grows st st'
  /\ Mongo.find_coll c st' <> None.
Proof.
  unfold Mongo.createIndex.
  destruct (Mongo.to_bson keys) as [| | | | | | [| kv ks] |] eqn:Ek;
    try (unfold Mongo.bad_value; discriminate).
  destruct (List.find (fun ix => Mongo.value_eqb (fst ix) (VObj (kv :: ks)))
                      (Mongo.c_indexes (Mongo.the_coll c st))) as [ix |] eqn:Ef.
  - destruct (Mongo.value_eqb (snd ix) (Mongo.to_bson opts)) eqn:Eo; [| discriminate].
    intros [= _ <-]. split; [| split].
    + simpl. rewrite Ek. exists kv, ks. split; [reflexivity |].
      exists (Mongo.the_coll c st), ix. rewrite find_coll_put_same. auto.
    + apply grows_put. auto.
    + rewrite find_coll_put_same. discriminate.
  - destruct (Mongo.is_text (VObj (kv :: ks))
              && existsb (fun ix => Mongo.is_text (fst ix))
                         (Mongo.c_indexes (Mongo.the_coll c st))); [discriminate |].
    intros [= _ <-]. split; [| split].
    + simpl. rewrite Ek. exists kv, ks. split; [reflexivity |].
      eexists. exists (VObj (kv :: ks), Mongo.to_bson opts).
      rewrite find_coll_put_same. split; [reflexivity |]. simpl.
      split; [| apply value_eqb_refl].
      apply find_app_none; [exact Ef |]. apply (value_eqb_refl (VObj (kv :: ks))).
    + apply grows_put. simpl. intros p ix. apply find_app_some.
    + rewrite find_coll_put_same. discriminate.
Qed.

(** A [createIndex] whose index is there already resolves and changes
    nothing. *)
Lemma createIndex_provided (c : string) (keys opts : value) (st : Mongo.store) :
  provided (CreateIndex c keys opts) st ->
  exists v, Mongo.createIndex c keys opts st = (Resolved v, st).
Proof.
  simpl. intros (kv & ks & Hk & x & ix & Hf & Hfind & Ho).
  unfold Mongo.createIndex. rewrite Hk, (the_coll_found c x st Hf), Hfind, Ho.
  rewrite (put_coll_found c x st Hf). eexists. reflexivity.
Qed.

Lemma run_bind_returned {S A B : Type} (h : handler S) (p : prog A) (f : A -> prog B)
      (s : S) (b : B) :
  res (run h (bind p f) s) = Returned b ->
  exists a,
    res (run h p s) = Returned a
    /\ res (run h (f a) (final (run h p s))) = Returned b
    /\ final (run h (bind p f) s) = final (run h (f a) (final (run h p s))).
Proof.
  rewrite run_bind. destruct (res (run h p s)) as [a | e]; [| discriminate].
  cbv zeta. cbn [res final]. intros H. exists a. auto.
Qed.

(** A series of index creations that returns has provided its indexes. *)
Lemma mapSeries_provides {A : Type} (f : A -> prog value) (g : A -> call) (l : list A) :
  (forall x, (exists c keys opts, g x = CreateIndex c keys opts /\ f x = await (g x))
             \/ exists e, f x = Throw e) ->
  forall st vs,
    res (run Mongo.mongo (mapSeries f l) st) = Returned vs ->
    grows st (final (run Mongo.mongo (mapSeries f l) st))
    /\ forall x, In x l ->
         f x = await (g x)
         /\ provided (g x) (final (run Mongo.mongo (mapSeries f l) st)).
Proof.
  intros Hf. induction l as [| x l IH]; intros st vs Hres.
  - split; [apply grows_refl | intros x []].
  - simpl mapSeries in *.
    destruct (run_bind_returned _ _ _ _ _ Hres) as (v & Hv & Hrest & Hfin).
    destruct (run_bind_returned _ _ _ _ _ Hrest) as (vs' & Hvs & _ & Hfin').
    rewrite Hfin, Hfin'. cbn [run final].
    destruct (Hf x) as [(c & keys & opts & Hg & Hfx) | [e Hfx]];
      [| rewrite Hfx in Hv; discriminate].
    destruct (IH _ _ Hvs) as [Hgrow Hall].
    assert (Hstep : provided (g x) (final (run Mongo.mongo (f x) st))
                    /\ grows st (final (run Mongo.mongo (f x) st))).
    { rewrite Hfx, Hg in *. rewrite run_await in *.
      change (Mongo.mongo (CreateIndex c keys opts) st)
        with (Mongo.createIndex c keys opts st) in *.
      destruct (Mongo.createIndex c keys opts st) as [[w | e] st1] eqn:E;
        [| discriminate].
      cbn [fst snd final]. destruct (createIndex_resolved _ _ _ _ _ _ E) as (H1 & H2 & _).
      auto. }
    destruct Hstep as [Hprov Hg1]. split.
    + apply (grows_trans _ _ _ Hg1 Hgrow).
    + intros y [<- | Hy]; [| apply Hall, Hy].
      split; [exact Hfx | apply Hgrow, Hprov].
Qed.

(** A series of index creations whose indexes are all there returns and
    changes nothing. *)
Lemma mapSeries_provided {A : Type} (f : A -> prog value) (g : A -> call)
      (l : list A) (st : Mongo.store) :
  (forall x, In x l -> f x = await (g x) /\ provided (g x) st) ->
  exists vs,
    run Mongo.mongo (mapSeries f l) st = mkResult (Returned vs) st (map g l) [].
Proof.
  induction l as [| x l IH]; intros Hf.
  - exists []. reflexivity.
  - destruct (Hf x (or_introl eq_refl)) as [Hfx Hp].
    destruct (IH (fun y Hy => Hf y (or_intror Hy))) as [vs Hvs].
    destruct (g x) as [ | | c keys opts | | | | | | | ] eqn:Eg; simpl in Hp;
      try contradiction.
    destruct (createIndex_provided c keys opts st Hp) as [v Hv].
    exists (v :: vs). simpl mapSeries. rewrite run_bind, Hfx, run_await.
    change (Mongo.mongo (CreateIndex c keys opts) st)
      with (Mongo.createIndex c keys opts st).
    rewrite Hv. cbn [fst snd res final calls console]. cbv zeta.
    rewrite run_bind, Hvs. cbn [res final calls console run map app].
    rewrite app_nil_r, Eg. reflexivity.
Qed.

Lemma ttl_step_shape (c : string) (x : string * value) :
  (exists c0 keys opts,
      CreateIndex c (VObj [(fst x, VNum 1)]) (default_arg (snd x) (VObj []))
      = CreateIndex c0 keys opts
      /\ Table.createTtlIndex (VHandle c) (fst x) (snd x)
         = await (CreateIndex c (VObj [(fst x, VNum 1)]) (default_arg (snd x) (VObj []))))
  \/ exists e, Table.createTtlIndex (VHandle c) (fst x) (snd x) = Throw e.
Proof.
  destruct (ttl_ok (snd x)) eqn:E.
  - left. do 3 eexists. split; [reflexivity |]. apply createTtlIndex_ok, E.
  - right. destruct (createTtlIndex_fails (VHandle c) (fst x) (snd x) E) as [msg H].
    eexists. exact H.
Qed.

(** The indexes of a schema are all there in a store. *)
Lemma index_steps_returned (c : string) (sc : schema) (st : Mongo.store)
      (t : Table.bound) :
  res (run Mongo.mongo (index_steps (VHandle c) sc) st) = Returned t ->
  let sF := final (run Mongo.mongo (index_steps (VHandle c) sc) st) in
  grows st sF
  /\ t = Table.mkBound (VHandle c) (table sc)
  /\ (forall x, In x (indices sc) ->
        provided (CreateIndex c (VObj [(x, VNum 1)]) VUndefined) sF)
  /\ (forall x, In x (compound sc) ->
        provided (CreateIndex c (VObj (compound_config x)) VUndefined) sF)
  /\ (forall x, In x (text sc) ->
        provided (CreateIndex c (VObj [(x, VStr "text")]) VUndefined) sF)
  /\ (forall x, In x (ttl sc) ->
        Table.createTtlIndex (VHandle c) (fst x) (snd x)
        = await (CreateIndex c (VObj [(fst x, VNum 1)]) (default_arg (snd x) (VObj [])))
        /\ provided (CreateIndex c (VObj [(fst x, VNum 1)])
                                 (default_arg (snd x) (VObj []))) sF).
Proof.
  unfold index_steps. intros Hres.
  destruct (run_bind_returned _ _ _ _ _ Hres) as (v1 & H1 & Hres1 & F1).
  destruct (run_bind_returned _ _ _ _ _ Hres1) as (v2 & H2 & Hres2 & F2).
  destruct (run_bind_returned _ _ _ _ _ Hres2) as (v3 & H3 & Hres3 & F3).
  destruct (run_bind_returned _ _ _ _ _ Hres3) as (v4 & H4 & Hres4 & F4).
  cbv zeta. rewrite F1, F2, F3, F4. cbn [run final]. cbn [run res] in Hres4.
  destruct (mapSeries_provides
              (fun index => Table.createIndex (VHandle c) index (VNum 1))
              (fun i => CreateIndex c (VObj [(i, VNum 1)]) VUndefined)
              (indices sc)
              (fun x => or_introl (ex_intro _ c (ex_intro _ _ (ex_intro _ _
                                     (conj eq_refl eq_refl)))))
              _ _ H1) as [G1 P1].
  destruct (mapSeries_provides
              (fun index => Table.createCompoundIndex (VHandle c) index)
              (fun fs => CreateIndex c (VObj (compound_config fs)) VUndefined)
              (compound sc)
              (fun x => or_introl (ex_intro _ c (ex_intro _ _ (ex_intro _ _
                                     (conj eq_refl eq_refl)))))
              _ _ H2) as [G2 P2].
  destruct (mapSeries_provides
              (fun index => Table.createIndex (VHandle c) index (VStr "text"))
              (fun i => CreateIndex c (VObj [(i, VStr "text")]) VUndefined)
              (text sc)
              (fun x => or_introl (ex_intro _ c (ex_intro _ _ (ex_intro _ _
                                     (conj eq_refl eq_refl)))))
              _ _ H3) as [G3 P3].
  destruct (mapSeries_provides
              (fun io => Table.createTtlIndex (VHandle c) (fst io) (snd io))
              (fun io => CreateIndex c (VObj [(fst io, VNum 1)])
                                     (default_arg (snd io) (VObj [])))
              (ttl sc) (ttl_step_shape c) _ _ H4) as [G4 P4].
  split; [| split; [| split; [| split; [| split]]]].
  - exact (grows_trans _ _ _ G1 (grows_trans _ _ _ G2 (grows_trans _ _ _ G3 G4))).
  - congruence.
  - intros x Hx. apply G4, G3, G2, (P1 x Hx).
  - intros x Hx. apply G4, G3, (P2 x Hx).
  - intros x Hx. apply G4, (P3 x Hx).
  - intros x Hx. apply (P4 x Hx).
Qed.

(** On a store that has the indexes of a schema, the index steps return and
    change nothing. *)
Lemma index_steps_again (c : string) (sc : schema) (st : Mongo.store) :
  (forall x, In x (indices sc) ->
     provided (CreateIndex c (VObj [(x, VNum 1)]) VUndefined) st) ->
  (forall x, In x (compound sc) ->
     provided (CreateIndex c (VObj (compound_config x)) VUndefined) st) ->
  (forall x, In x (text sc) ->
     provided (CreateIndex c (VObj [(x, VStr "text")]) VUndefined) st) ->
  (forall x, In x (ttl sc) ->
     Table.createTtlIndex (VHandle c) (fst x) (snd x)
     = await (CreateIndex c (VObj [(fst x, VNum 1)]) (default_arg (snd x) (VObj [])))
     /\ provided (CreateIndex c (VObj [(fst x, VNum 1)])
                              (default_arg (snd x) (VObj []))) st) ->
  run Mongo.mongo (index_steps (VHandle c) sc) st
  = mkResult (Returned (Table.mkBound (VHandle c) (table sc))) st
      (index_calls c sc (ttl sc)) [].
Proof.
  intros P1 P2 P3 P4.
  destruct (mapSeries_provided
              (fun index => Table.createIndex (VHandle c) index (VNum 1))
              (fun i => CreateIndex c (VObj [(i, VNum 1)]) VUndefined)
              (indices sc) st (fun x Hx => conj eq_refl (P1 x Hx))) as [v1 H1].
  destruct (mapSeries_provided
              (fun index => Table.createCompoundIndex (VHandle c) index)
              (fun fs => CreateIndex c (VObj (compound_config fs)) VUndefined)
              (compound sc) st (fun x Hx => conj eq_refl (P2 x Hx))) as [v2 H2].
  destruct (mapSeries_provided
              (fun index => Table.createIndex (VHandle c) index (VStr "text"))
              (fun i => CreateIndex c (VObj [(i, VStr "text")]) VUndefined)
              (text sc) st (fun x Hx => conj eq_refl (P3 x Hx))) as [v3 H3].
  destruct (mapSeries_provided
              (fun io => Table.createTtlIndex (VHandle c) (fst io) (snd io))
              (fun io => CreateIndex c (VObj [(fst io, VNum 1)])
                                     (default_arg (snd io) (VObj [])))
              (ttl sc) st P4) as [v4 H4].
  unfold index_steps.
  change (Table.createIndexes (VHandle c) (indices sc))
    with (mapSeries (fun index => Table.createIndex (VHandle c) index (VNum 1)) (indices sc)).
  change (Table.createCompoundIndexes (VHandle c) (compound sc))
    with (mapSeries (fun index => Table.createCompoundIndex (VHandle c) index) (compound sc)).
  change (Table.createTextSearchIndexes (VHandle c) (text sc))
    with (mapSeries (fun index => Table.createIndex (VHandle c) index (VStr "text")) (text sc)).
  change (Table.createTtlIndexes (VHandle c) (ttl sc))
    with (mapSeries (fun io => Table.createTtlIndex (VHandle c) (fst io) (snd io)) (ttl sc)).
  rewrite run_bind, H1. cbn [res final calls console]. cbv zeta.
  rewrite run_bind, H2. cbn [res final calls console]. cbv zeta.
  rewrite run_bind, H3. cbn [res final calls console]. cbv zeta.
  rewrite run_bind, H4. cbn [res final calls console run app]. cbv zeta.
  unfold index_calls, single_calls, compound_calls, text_calls, ttl_calls, compound_config.
  rewrite app_nil_r. reflexivity.
Qed.

(** The whole run of provisioning on the store, for a schema whose
    collection name is the string [c]. *)
Lemma run_provision_mongo (sc : schema) (st : Mongo.store) (c : string) :
  collection_name sc = VStr c ->
  Mongo.name_error c = None ->
  let s0 := snd (Mongo.createCollection (VStr c) (VObj (options sc)) st) in
  let r' := run Mongo.mongo (index_steps (VHandle c) sc) s0 in
  res (run Mongo.mongo (Table.provision sc) st) = res r'
  /\ final (run Mongo.mongo (Table.provision sc) st) = final r'
  /\ calls (run Mongo.mongo (Table.provision sc) st)
     = creation_call sc :: Collection (VStr c) :: calls r'
  /\ console (run Mongo.mongo (Table.provision sc) st)
     = match fst (Mongo.createCollection (VStr c) (VObj (options sc)) st) with
       | Resolved _ => console r'
       | Rejected e =>
           String.append "createCollection.error: " (message e) :: console r'
       end.
Proof.
  intros Hn Hname. cbv zeta. rewrite run_provision.
  unfold creation_call. rewrite Hn.
  change (Mongo.mongo (CreateCollection (VStr c) (VObj (options sc))) st)
    with (Mongo.createCollection (VStr c) (VObj (options sc)) st).
  assert (Hpi : forall s,
    run Mongo.mongo (Table.provisionIndexes sc) s
    = issued (Collection (VStr c)) (run Mongo.mongo (index_steps (VHandle c) sc) s)).
  { intros s. rewrite (run_provisionIndexes Mongo.mongo sc s c).
    - rewrite Hn. simpl. unfold Mongo.db_collection. rewrite Hname. reflexivity.
    - rewrite Hn. simpl. unfold Mongo.db_collection. rewrite Hname. reflexivity. }
  destruct (fst (Mongo.createCollection (VStr c) (VObj (options sc)) st));
    rewrite Hpi; repeat split.
Qed.

Lemma collection_name_of_provisioned (sc : schema) (st : Mongo.store) (t : Table.bound) :
  res (run Mongo.mongo (Table.provision sc) st) = Returned t ->
  exists c, collection_name sc = VStr c /\ Mongo.name_error c = None.
Proof.
  rewrite run_provision.
  assert (H : forall s,
    (forall c, collection_name sc = VStr c -> Mongo.name_error c <> None) ->
    exists e, res (run Mongo.mongo (Table.provisionIndexes sc) s) = Thrown e).
  { intros s Hne. unfold Table.provisionIndexes. fold (collection_name sc).
    rewrite run_bind, run_await.
    change (Mongo.mongo (Collection (collection_name sc)) s)
      with (Mongo.db_collection (collection_name sc) s).
    destruct (collection_name sc) as [| | b | z | c | l | o | nm]; simpl; eauto.
    destruct (Mongo.name_error c) eqn:E; simpl; eauto.
    exfalso. apply (Hne c eq_refl E). }
  intros Hres.
  destruct (collection_name sc) as [| | b | z | c | l | o | nm] eqn:En;
    try (exfalso;
         destruct (H (snd (Mongo.mongo (creation_call sc) st))) as [e He];
         [intros c; discriminate |];
         destruct (fst (Mongo.mongo (creation_call sc) st));
         cbn [issued logged res] in Hres; rewrite He in Hres; discriminate).
  exists c. split; [reflexivity |].
  destruct (Mongo.name_error c) as [msg |] eqn:E; [exfalso | reflexivity].
  destruct (H (snd (Mongo.mongo (creation_call sc) st))) as [e He].
  { intros c0 [= <-]. rewrite E. discriminate. }
  destruct (fst (Mongo.mongo (creation_call sc) st));
    cbn [issued logged res] in Hres; rewrite He in Hres; discriminate.
Qed.

(** Creating a collection that the store has is refused and changes
    nothing. *)
Lemma createCollection_again (c : string) (opts : value) (st : Mongo.store) :
  c = "" \/ Mongo.find_coll c st <> None ->
  exists e, Mongo.createCollection (VStr c) opts st = (Rejected e, st).
Proof.
  intros H. unfold Mongo.createCollection.
  destruct (String.eqb_spec c ""); [eexists; reflexivity |].
  destruct (Mongo.find_coll c st) eqn:E; [eexists; reflexivity |].
  destruct H as [H | H]; [contradiction | congruence].
Qed.

Lemma createCollection_exists (c : string) (opts : value) (st : Mongo.store) :
  c = "" \/ Mongo.find_coll c (snd (Mongo.createCollection (VStr c) opts st)) <> None.
Proof.
  unfold Mongo.createCollection.
  destruct (String.eqb_spec c ""); [left; assumption | right].
  destruct (Mongo.find_coll c st) eqn:E; simpl.
  - rewrite E. discriminate.
  - rewrite find_coll_put_same. discriminate.
Qed.

(** X18.  Provisioning is idempotent on the store: once provisioning of a
    schema has returned, provisioning it again returns the same table,
    issues the same calls and leaves the store exactly as it was; the
    collection being there already is reported with one line on the
    console and is not an error. *)
Theorem reprovisioning_changes_nothing (st : Mongo.store) (sc : schema)
        (t : Table.bound) :
  let r1 := run Mongo.mongo (Table.provision sc) st in
  let r2 := run Mongo.mongo (Table.provision sc) (final r1) in
  res r1 = Returned t ->
  res r2 = Returned t
  /\ final r2 = final r1
  /\ calls r2 = calls r1
  /\ exists line, console r2 = [line].
Proof.
  intros r1 r2 Hres.
  destruct (collection_name_of_provisioned sc st t Hres) as (c & Hn & Hname).
  destruct (run_provision_mongo sc st c Hn Hname) as (R1 & F1 & C1 & _).
  fold r1 in R1, F1, C1.
  rewrite R1 in Hres.
  destruct (index_steps_returned c sc _ t Hres) as (G & Ht & P1 & P2 & P3 & P4).
  cbv zeta in G, P1, P2, P3, P4. rewrite <- F1 in G, P1, P2, P3, P4.
  assert (Hex : c = "" \/ Mongo.find_coll c (final r1) <> None).
  { destruct (createCollection_exists c (VObj (options sc)) st) as [H | H];
      [left; exact H | right; apply (proj2 G c H)]. }
  destruct (createCollection_again c (VObj (options sc)) (final r1) Hex) as [e He].
  destruct (run_provision_mongo sc (final r1) c Hn Hname) as (R2 & F2 & C2 & L2).
  fold r2 in R2, F2, C2, L2.
  rewrite He in R2, F2, C2, L2. cbn [fst snd] in R2, F2, C2, L2.
  rewrite (index_steps_again c sc (final r1) P1 P2 P3 P4) in R2, F2, C2, L2.
  cbn [res final calls console] in R2, F2, C2, L2.
  split; [rewrite R2, Ht; reflexivity |].
  split; [exact F2 |].
  split; [| eexists; exact L2].
  rewrite C2, C1. do 2 f_equal. symmetry.
  apply (proj2 (follows_index_steps Mongo.mongo c sc _) t Hres).
Qed.

Lemma reprovisioning_changes_nothing_witness :
  res (run Mongo.mongo (Table.provision users) []) = Returned users_table
  /\ final (run Mongo.mongo (Table.provision users)
                 (final (run Mongo.mongo (Table.provision users) [])))
     = final (run Mongo.mongo (Table.provision users) []).
Proof.
  split; [reflexivity |].
  apply (reprovisioning_changes_nothing [] users users_table eq_refl).
Defined.

(** X19.  When provisioning returns, the schema's collection name is a
    string, the table is bound to that collection, the store has an index
    for every index-creation call of the plan, with the keys and options
    asked for, and the collection is there (unless its name is empty). *)
Theorem provisioning_provides_every_index (st : Mongo.store) (sc : schema)
        (t : Table.bound) :
  let r := run Mongo.mongo (Table.provision sc) st in
  res r = Returned t ->
  exists c,
    collection_name sc = VStr c
    /\ t = Table.mkBound (VHandle c) (table sc)
    /\ calls r = provisioning_plan c sc
    /\ (forall k, In k (index_calls c sc (ttl sc)) -> provided k (final r))
    /\ (c = "" \/ Mongo.find_coll c (final r) <> None).
Proof.
  intros r Hres.
  destruct (collection_name_of_provisioned sc st t Hres) as (c & Hn & Hname).
  destruct (run_provision_mongo sc st c Hn Hname) as (R1 & F1 & C1 & _).
  fold r in R1, F1, C1. rewrite R1 in Hres.
  destruct (index_steps_returned c sc _ t Hres) as (G & Ht & P1 & P2 & P3 & P4).
  cbv zeta in G, P1, P2, P3, P4. rewrite <- F1 in G, P1, P2, P3, P4.
  exists c. split; [exact Hn | split; [exact Ht | split; [| split]]].
  - rewrite C1. unfold provisioning_plan, plan_upto. rewrite Hn. do 2 f_equal.
    apply (proj2 (follows_index_steps Mongo.mongo c sc _) t Hres).
  - intros k Hk. unfold index_calls in Hk.
    apply in_app_or in Hk. destruct Hk as [Hk | Hk].
    { apply in_map_iff in Hk. destruct Hk as (x & <- & Hx). apply P1, Hx. }
    apply in_app_or in Hk. destruct Hk as [Hk | Hk].
    { apply in_map_iff in Hk. destruct Hk as (x & <- & Hx). apply P2, Hx. }
    apply in_app_or in Hk. destruct Hk as [Hk | Hk].
    { apply in_map_iff in Hk. destruct Hk as (x & <- & Hx). apply P3, Hx. }
    apply in_map_iff in Hk. destruct Hk as (x & <- & Hx). apply P4, Hx.
  - destruct (createCollection_exists c (VObj (options sc)) st) as [H | H];
      [left; exact H | right; apply (proj2 G c H)].
Qed.

Lemma provisioning_provides_every_index_witness :
  res (run Mongo.mongo (Table.provision users) []) = Returned users_table
  /\ exists c,
       collection_name users = VStr c
       /\ users_table = Table.mkBound (VHandle c) (table users).
Proof.
  split; [reflexivity |].
  destruct (provisioning_provides_every_index [] users users_table eq_refl)
    as (c & H1 & H2 & _).
  exists c. split; assumption.
Defined.

(** ** What the operations never call *)

Section Only.

Context {S : Type} (h : handler S) (P : call -> Prop).

Lemma only_calls {A : Type} (p : prog A) :
  only P p -> forall s, Forall P (calls (run h p s)).
Proof.
  induction 1 as [a | e | c k Hc Hk IH | line k Hk IH]; intros s; simpl.
  - constructor.
  - constructor.
  - constructor; [exact Hc | apply IH].
  - apply IH.
Qed.

Lemma only_bind {A B : Type} (p : prog A) (f : A -> prog B) :
  only P p -> (forall a, only P (f a)) -> only P (bind p f).
Proof.
  induction 1 as [a | e | c k Hc Hk IH | line k Hk IH]; intros Hf; simpl.
  - apply Hf.
  - constructor.
  - constructor; [exact Hc | intros r; apply IH, Hf].
  - constructor. apply IH, Hf.
Qed.

Lemma only_await (c : call) : P c -> only P (await c).
Proof.
  intros Hc. unfold await. constructor; [exact Hc |].
  intros [v | e]; constructor.
Qed.

Lemma only_method (receiver : value) (m : string -> call) :
  (forall c, P (m c)) -> only P (method receiver m).
Proof.
  intros Hm. destruct receiver; simpl; try constructor.
  - apply Hm.
  - intros [v | e]; constructor.
Qed.

Lemma only_assert (v : value) (msg : string) : only P (assert v msg).
Proof. unfold assert. destruct (truthy v); constructor. Qed.

Lemma only_read (v : value) (k : string) : only P (read v k).
Proof. unfold read. destruct (prop v k); constructor. Qed.

Lemma only_mapSeries {A : Type} (f : A -> prog value) (l : list A) :
  (forall x, only P (f x)) -> only P (mapSeries f l).
Proof.
  intros Hf. induction l as [| x l IH]; simpl; [constructor |].
  apply only_bind; [apply Hf |]. intros v.
  apply only_bind; [exact IH |]. intros vs. constructor.
Qed.

(** A relation on states of the environment that every call of the kind
    respects is respected by serving a list of such calls. *)
Lemma served_respects (I : S -> S -> Prop) (cs : list call) :
  (forall s, I s s) ->
  (forall s1 s2 s3, I s1 s2 -> I s2 s3 -> I s1 s3) ->
  (forall k s, P k -> I s (snd (h k s))) ->
  Forall P cs -> forall s, I s (served h cs s).
Proof.
  intros Hrefl Htrans Hstep. induction 1 as [| k cs Hk _ IH]; intros s.
  - apply Hrefl.
  - simpl. apply (Htrans _ (snd (h k s))); [apply Hstep, Hk | apply IH].
Qed.

End Only.

Lemma provision_only_schema_calls (sc : schema) :
  only schema_call (Table.provision sc).
Proof.
  unfold Table.provision. apply only_bind.
  { unfold Table.createCollection. constructor; [exact I |].
    intros [v | e]; repeat constructor. }
  intros _. unfold Table.provisionIndexes.
  apply only_bind; [apply only_await; exact I |]. intros col.
  apply only_bind.
  { apply only_mapSeries. intros x. apply only_method. intros c. exact I. }
  intros _. apply only_bind.
  { apply only_mapSeries. intros x. apply only_method. intros c. exact I. }
  intros _. apply only_bind.
  { apply only_mapSeries. intros x. apply only_method. intros c. exact I. }
  intros _. apply only_bind; [| intros; constructor].
  apply only_mapSeries. intros x. unfold Table.createTtlIndex.
  apply only_bind; [apply only_assert |]. intros _.
  apply only_bind; [apply only_read |]. intros e.
  apply only_bind; [apply only_assert |]. intros _.
  apply only_method. intros c. exact I.
Qed.

Lemma docs_of_put_other (c c' : string) (x : Mongo.collection) (st : Mongo.store) :
  c' <> c -> Mongo.docs_of c' (Mongo.put_coll c x st) = Mongo.docs_of c' st.
Proof.
  intros Hne. unfold Mongo.docs_of, Mongo.the_coll.
  rewrite find_coll_put_other by exact Hne. reflexivity.
Qed.

Lemma docs_of_put_same_docs (c c' : string) (x : Mongo.collection) (st : Mongo.store) :
  Mongo.c_docs x = Mongo.docs_of c st ->
  Mongo.docs_of c' (Mongo.put_coll c x st) = Mongo.docs_of c' st.
Proof.
  intros Hx. destruct (String.eqb_spec c' c) as [-> | Hne].
  - rewrite docs_of_put. exact Hx.
  - apply docs_of_put_other, Hne.
Qed.

Lemma schema_call_keeps_documents (k : call) (st : Mongo.store) :
  schema_call k ->
  forall c, Mongo.docs_of c (snd (Mongo.mongo k st)) = Mongo.docs_of c st.
Proof.
  destruct k as [nm opts | nm | c0 keys opts | | | | | | | ]; simpl;
    try contradiction; intros _ c.
  - unfold Mongo.createCollection.
    destruct nm; try reflexivity.
    destruct (String.eqb s ""); [reflexivity |].
    destruct (Mongo.find_coll s st) eqn:E; [reflexivity |]. simpl.
    apply docs_of_put_same_docs. simpl. symmetry. apply docs_of_missing, E.
  - unfold Mongo.db_collection. destruct nm; try reflexivity.
    destruct (Mongo.name_error s); reflexivity.
  - unfold Mongo.createIndex.
    destruct (Mongo.to_bson keys) as [| | | | | | [| kv ks] |]; try reflexivity.
    destruct (List.find _ _) as [ix |].
    + destruct (Mongo.value_eqb (snd ix) (Mongo.to_bson opts)); [| reflexivity].
      simpl. apply docs_of_put_same_docs. reflexivity.
    + destruct (Mongo.is_text _ && _); [reflexivity |].
      simpl. apply docs_of_put_same_docs. reflexivity.
Qed.

(** X20.  Provisioning only sets the collection up: in every environment,
    each call it issues is [createCollection], [collection] or
    [createIndex]; and on the store, whether it returns or fails, the
    documents of every collection are as they were. *)
Theorem provisioning_never_touches_documents (sc : schema) :
  (forall (S : Type) (h : handler S) (s : S),
     Forall schema_call (calls (run h (Table.provision sc) s)))
  /\ (forall (st : Mongo.store) (c : string),
        Mongo.docs_of c (final (run Mongo.mongo (Table.provision sc) st))
        = Mongo.docs_of c st).
Proof.
  split.
  - intros S h s. apply only_calls, provision_only_schema_calls.
  - intros st c. rewrite run_served.
    apply (served_respects Mongo.mongo schema_call
             (fun s s' => forall c, Mongo.docs_of c s' = Mongo.docs_of c s)).
    + reflexivity.
    + intros s1 s2 s3 H1 H2 c0. rewrite H2. apply H1.
    + intros k s Hk. apply schema_call_keeps_documents, Hk.
    + apply only_calls, provision_only_schema_calls.
Qed.

Lemma read_call_keeps_the_store (k : call) (st : Mongo.store) :
  read_call k -> snd (Mongo.mongo k st) = st.
Proof.
  destruct k as [ | | | c f opts | c f opts | | | | | ]; simpl;
    try contradiction; intros _.
  - unfold Mongo.findOne. destruct (Mongo.valid_filter f); reflexivity.
  - unfold Mongo.find_toArray. destruct (Mongo.valid_filter f); reflexivity.
Qed.

Lemma reads_only_read (t : Table.bound) :
  (forall id, only read_call (Table.get t id))
  /\ (forall id, only read_call (Table.has t id))
  /\ (forall ids, only read_call (Table.getAll t ids))
  /\ (forall index id options, only read_call (Table.getBy t index id options))
  /\ only read_call (Table.list t)
  /\ (forall index term skip limit, only read_call (Table.search t index term skip limit))
  /\ (forall index term skip limit,
        only read_call (Table.searchFuzzy t index term skip limit))
  /\ (forall now filter max min skip limit sortKey,
        only read_call (Table.getBySortedBetween t now filter max min skip limit sortKey)).
Proof.
  repeat split; intros.
  - unfold Table.get. apply only_bind; [apply only_assert |]. intros _.
    apply only_method. intros c. exact I.
  - unfold Table.has. apply only_bind; [| intros; constructor].
    apply only_method. intros c. exact I.
  - apply only_method. intros c. exact I.
  - apply only_method. intros c. exact I.
  - apply only_method. intros c. exact I.
  - apply only_method. intros c. exact I.
  - apply only_method. intros c. exact I.
  - unfold Table.getBySortedBetween.
    repeat (apply only_bind; [apply only_assert |]; intros _).
    apply only_method. intros c. exact I.
Qed.

(** X21.  The read operations only read: in every environment, whatever
    their arguments and the table's binding, the calls that [get], [has],
    [getAll], [getBy], [list], [search], [searchFuzzy] and
    [getBySortedBetween] issue are [find] and [findOne]; and on the store
    they leave every collection as it is, also when they fail. *)
Theorem reads_leave_the_store (t : Table.bound) (p : prog value) :
  (exists id, p = Table.get t id)
  \/ (exists id, p = Table.has t id)
  \/ (exists ids, p = Table.getAll t ids)
  \/ (exists index id options, p = Table.getBy t index id options)
  \/ p = Table.list t
  \/ (exists index term skip limit, p = Table.search t index term skip limit)
  \/ (exists index term skip limit, p = Table.searchFuzzy t index term skip limit)
  \/ (exists now filter max min skip limit sortKey,
        p = Table.getBySortedBetween t now filter max min skip limit sortKey) ->
  (forall (S : Type) (h : handler S) (s : S), Forall read_call (calls (run h p s)))
  /\ (forall st, final (run Mongo.mongo p st) = st).
Proof.
  intros Hp.
  assert (Ho : only read_call p).
  { destruct (reads_only_read t) as (H1 & H2 & H3 & H4 & H5 & H6 & H7 & H8).
    destruct Hp as [[id ->] | [[id ->] | [[ids ->] | [(index & id & options & ->) |
      [-> | [(index & term & skip & limit & ->) |
        [(index & term & skip & limit & ->) |
          (now & filter & max & min & skip & limit & sortKey & ->)]]]]]]]; auto. }
  split.
  - intros S h s. apply only_calls, Ho.
  - intros st. rewrite run_served.
    apply (served_respects Mongo.mongo read_call (fun s s' => s' = s)).
    + reflexivity.
    + intros s1 s2 s3 H1 H2. congruence.
    + intros k s Hk. apply read_call_keeps_the_store, Hk.
    + apply only_calls, Ho.
Qed.

Lemma reads_leave_the_store_witness :
  final (run Mongo.mongo
           (Table.getBy users_table "age" (VObj [("$gt", VNum 1)]) VUndefined)
           two_users)
  = two_users.
Proof.
  apply (reads_leave_the_store users_table
           (Table.getBy users_table "age" (VObj [("$gt", VNum 1)]) VUndefined)).
  right. right. right. left. do 3 eexists. reflexivity.
Defined.

(** X22.  [set] with the options [{upsert: u}], [u] being falsy, for a
    non-empty (truthy) identifier [i] that is plain data and not an array,
    for which the store finds no document, and a document [d] of plain
    data: the store is left as it is, and [set] still returns the merged
    document [{_id: i, ...d}], exactly as if it had been stored. *)
Theorem set_without_upsert_stores_nothing_new (st : Mongo.store) (c : string)
        (tb i u : value) (d : obj) :
  truthy i = true ->
  literal i = true ->
  isArray i = false ->
  unique_keys d = true ->
  literal (VObj d) = true ->
  truthy u = false ->
  List.find (Mongo.matches [("_id", i)]) (Mongo.docs_of c st) = None ->
  run Mongo.mongo
      (Table.set (Table.mkBound (VHandle c) tb) i (VObj d) (VObj [("upsert", u)])) st
  = mkResult (Returned (VObj (assign [("_id", i)] d))) st
      [ReplaceOne c (VObj [("_id", i)]) (VObj d) (VObj [("upsert", u)])] [].
Proof.
  intros Ht Hl Ha Hu Hld Hup Hnone.
  pose proof (literal_identifier i Hl Ha) as Hi.
  pose proof (literal_document d Hu Hld) as Hd.
  unfold document in Hd.
  apply andb_prop in Hd. destruct Hd as [Hd Hst].
  apply andb_prop in Hd. destruct Hd as [_ Hops].
  assert (Hset :
    Table.set (Table.mkBound (VHandle c) tb) i (VObj d) (VObj [("upsert", u)])
    = (_ <- await (ReplaceOne c (VObj [("_id", i)]) (VObj d) (VObj [("upsert", u)])) ;;
       Ret (VObj (assign [("_id", i)] d)))%prog).
  { unfold Table.set. rewrite Ht. reflexivity. }
  rewrite Hset, run_bind, run_await.
  change (Mongo.mongo (ReplaceOne c ?f ?p ?o) st) with (Mongo.replaceOne c f p o st).
  unfold Mongo.replaceOne.
  rewrite (id_filter_valid i Hi), (to_bson_storable (VObj d) Hst),
    (no_operator_keys d Hops).
  cbv zeta. fold (Mongo.docs_of c st). rewrite Hnone.
  change (Mongo.opt "upsert" (VObj [("upsert", u)])) with u.
  rewrite Hup. reflexivity.
Qed.

Lemma set_without_upsert_stores_nothing_new_witness :
  run Mongo.mongo
      (Table.set users_table (VStr "carl") (VObj [("name", VStr "Carl")])
                 (VObj [("upsert", VBool false)]))
      two_users
  = mkResult
      (Returned (VObj [("_id", VStr "carl"); ("name", VStr "Carl")]))
      two_users
      [ReplaceOne "users" (VObj [("_id", VStr "carl")])
                  (VObj [("name", VStr "Carl")]) (VObj [("upsert", VBool false)])]
      [].
Proof.
  transitivity
    (mkResult
       (Returned (VObj (assign [("_id", VStr "carl")] [("name", VStr "Carl")])))
       two_users
       [ReplaceOne "users" (VObj [("_id", VStr "carl")])
                   (VObj [("name", VStr "Carl")]) (VObj [("upsert", VBool false)])]
       []); [| reflexivity].
  apply (set_without_upsert_stores_nothing_new two_users "users" (table users)
           (VStr "carl") (VBool false) [("name", VStr "Carl")]);
    reflexivity.
Defined.

(** ** Instances of the argument checks, of [upsert] and of the compound keys *)

Lemma array_operations_check_their_arguments_witness :
  run Mongo.mongo (Table.push users_table (VStr "ann") "" (VArr [VStr "x"])) two_users
  = mkResult (Thrown (AssertionError "requires field key")) two_users [] []
  /\ run Mongo.mongo (Table.pull users_table (VStr "ann") "tags" (VStr "x")) two_users
     = mkResult (Thrown (AssertionError "requires tags")) two_users [] [].
Proof.
  split.
  - pose proof (array_operations_check_their_arguments Mongo.mongo two_users
                  users_table (VStr "ann") (VArr [VStr "x"]) "") as H.
    cbv zeta in H. destruct H as (_ & H & _).
    exact (proj1 (H eq_refl eq_refl)).
  - pose proof (array_operations_check_their_arguments Mongo.mongo two_users
                  users_table (VStr "ann") (VStr "x") "tags") as H.
    cbv zeta in H. destruct H as (_ & _ & H).
    refine (proj2 (H eq_refl _ eq_refl)). discriminate.
Defined.

Lemma upsert_takes_the_identifier_from_the_document_witness :
  run Mongo.mongo
      (Table.upsert users_table (VObj [("id", VStr "carl"); ("age", VNum 40)]) VUndefined)
      two_users
  = run Mongo.mongo
      (Table.set users_table (VStr "carl")
                 (VObj [("id", VStr "carl"); ("age", VNum 40)]) VUndefined)
      two_users.
Proof.
  pose proof (upsert_takes_the_identifier_from_the_document Mongo.mongo two_users
                "users" VUndefined VUndefined
                [("id", VStr "carl"); ("age", VNum 40)]) as H.
  cbv zeta in H. destruct H as [H _].
  exact (H (VStr "carl") eq_refl eq_refl).
Defined.

Lemma compound_index_keys_witness :
  NoDup ["owner"; "created"]
  /\ compound_config ["owner"; "created"]
     = [("owner", VNum 1); ("created", VNum 1)].
Proof.
  assert (Hn : NoDup ["owner"; "created"]).
  { constructor.
    - simpl. intros [H | []]. discriminate H.
    - constructor; [intros [] | constructor]. }
  split; [exact Hn |].
  destruct (compound_index_keys Mongo.mongo two_users "users" ["owner"; "created"])
    as (_ & _ & _ & _ & H).
  apply (H Hn). intros f [<- | [<- | []]]; split; (reflexivity || discriminate).
Defined.
